(** * hri_api: annotated-utterance plans, action handles and the entity registry

    A shallow embedding of
      - [hri_api/entities/robot.py]  (SayToPlan, the action handles, Robot)
      - [hri_api/entities/world.py]  (World.add_to_world)
    and the properties of the specification that are stated about them.

    Python values are embedded as follows.
      - [str] (Python 2 byte strings) is [string]; characters are [ascii].
      - [dict] is stdpp's [gmap]; [list] is [list].
      - objects that are mutated in place (the plan, the robot, the world)
        are records threaded through a state-and-exception monad.
      - exceptions are values of [exn]; a call that raises returns [Raise e]
        together with the state reached when the exception left the call. *)

From Stdlib Require Import Ascii String QArith.
From stdpp Require Import gmap strings list.

Local Open Scope string_scope.
Set Warnings "-register-all".

(* ===================================================================== *)
(** ** Regular expressions ([re.findall], [re.split])                    *)
(* ===================================================================== *)

Module Re.

(** Character classes that occur in the patterns of [robot.py].
    [\w] is taken on byte strings without flags: [[a-zA-Z0-9_]]. *)
Definition between (lo hi : nat) (c : ascii) : bool :=
  (lo <=? nat_of_ascii c)%nat && (nat_of_ascii c <=? hi)%nat.

Definition is_word (c : ascii) : bool :=
  between 97 122 c || between 65 90 c || between 48 57 c
  || Ascii.eqb c "_"%char.

Definition one_of (cs : string) (c : ascii) : bool :=
  existsb (Ascii.eqb c) (list_ascii_of_string cs).

(** A pattern is a sequence of quantified character classes; this is the
    fragment of regular expressions the source uses. *)
Inductive item : Type :=
| One  (cls : ascii -> bool)     (* [..]      *)
| Opt  (cls : ascii -> bool)     (* [..]{0,1} *)
| Star (cls : ascii -> bool)     (* x*        *)
| Plus (cls : ascii -> bool).    (* x+        *)

Definition pattern := list item.

(** Greedy, backtracking matchers in continuation style.  [k] matches the
    rest of the pattern; the result is the number of characters consumed. *)
Definition m_one (cls : ascii -> bool) (k : string -> option nat)
           (s : string) : option nat :=
  match s with
  | String c t => if cls c then S <$> k t else None
  | EmptyString => None
  end.

Definition m_opt (cls : ascii -> bool) (k : string -> option nat)
           (s : string) : option nat :=
  match s with
  | String c t =>
      if cls c then
        match k t with
        | Some n => Some (S n)
        | None => k s
        end
      else k s
  | EmptyString => k s
  end.

Fixpoint m_star (cls : ascii -> bool) (k : string -> option nat)
         (s : string) : option nat :=
  match s with
  | String c t =>
      if cls c then
        match m_star cls k t with
        | Some n => Some (S n)
        | None => k s
        end
      else k s
  | EmptyString => k s
  end.

Definition m_plus (cls : ascii -> bool) (k : string -> option nat)
           (s : string) : option nat :=
  match s with
  | String c t => if cls c then S <$> m_star cls k t else None
  | EmptyString => None
  end.

(** [match_here p s]: length of the match of [p] anchored at the start
    of [s], if there is one. *)
Fixpoint match_here (p : pattern) (s : string) : option nat :=
  match p with
  | [] => Some 0
  | One cls :: p'  => m_one cls (match_here p') s
  | Opt cls :: p'  => m_opt cls (match_here p') s
  | Star cls :: p' => m_star cls (match_here p') s
  | Plus cls :: p' => m_plus cls (match_here p') s
  end.

Fixpoint take (n : nat) (s : string) : string :=
  match n, s with
  | S n', String c t => String c (take n' t)
  | _, _ => EmptyString
  end.

Fixpoint drop (n : nat) (s : string) : string :=
  match n, s with
  | S n', String _ t => drop n' t
  | _, _ => s
  end.

(** [re.findall]: non-overlapping matches, leftmost first.  [skip] counts
    the characters of the previous match that are still to be passed. *)
Fixpoint findall_from (p : pattern) (skip : nat) (s : string)
  : list string :=
  match skip with
  | S k =>
      match s with
      | String _ t => findall_from p k t
      | EmptyString => []
      end
  | 0 =>
      match match_here p s with
      | Some n =>
          take n s ::
            match s with
            | String _ t => findall_from p (pred n) t
            | EmptyString => []
            end
      | None =>
          match s with
          | String _ t => findall_from p 0 t
          | EmptyString => []
          end
      end
  end.

Definition findall (p : pattern) (s : string) : list string :=
  findall_from p 0 s.

(** [re.split]: the pieces between the (non-empty) matches of [p].  The
    result always has a first piece, possibly empty. *)
Fixpoint split_from (p : pattern) (skip : nat) (s : string) : list string :=
  match skip with
  | S k =>
      match s with
      | String _ t => split_from p k t
      | EmptyString => [EmptyString]
      end
  | 0 =>
      match s with
      | EmptyString => [EmptyString]
      | String c t =>
          match match_here p s with
          | Some (S n) => EmptyString :: split_from p n t
          | _ =>
              match split_from p 0 t with
              | piece :: rest => String c piece :: rest
              | [] => [String c EmptyString]
              end
          end
      end
  end.

Definition split (p : pattern) (s : string) : list string :=
  split_from p 0 s.

End Re.

(** *** The word pattern as a scanner

    A three-state automaton that counts the matches of
    [\w+[']{0,1}\w*[!?,.]{0,1}] in one pass; [ReFacts] below proves that
    it counts what [findall] finds. *)
Module WordScan.

Inductive state : Type :=
| Outside            (* not inside a match *)
| InWord             (* inside the first run of word characters *)
| AfterApostrophe.   (* past the apostrophe, inside the second run *)

Definition is_apostrophe : ascii -> bool := Re.one_of "'".
Definition is_mark : ascii -> bool := Re.one_of "!?,.".

Definition next (st : state) (c : ascii) : state :=
  match st with
  | Outside => if Re.is_word c then InWord else Outside
  | InWord =>
      if Re.is_word c then InWord
      else if is_apostrophe c then AfterApostrophe
      else Outside
  | AfterApostrophe => if Re.is_word c then AfterApostrophe else Outside
  end.

(** 1 when a match starts at [c]. *)
Definition starts (st : state) (c : ascii) : nat :=
  match st with
  | Outside => if Re.is_word c then 1 else 0
  | _ => 0
  end.

Fixpoint scan (st : state) (s : string) : nat :=
  match s with
  | EmptyString => 0
  | String c t => starts st c + scan (next st c) t
  end.

(** The leading characters of [s] that are in [cls]. *)
Fixpoint run_length (cls : ascii -> bool) (s : string) : nat :=
  match s with
  | String c t => if cls c then S (run_length cls t) else 0
  | EmptyString => 0
  end.

Definition opt_length (cls : ascii -> bool) (s : string) : nat :=
  match s with
  | String c _ => if cls c then 1 else 0
  | EmptyString => 0
  end.

(** The length of the rest of a match whose first character has been
    read. *)
Definition word_length (t : string) : nat :=
  let r1 := run_length Re.is_word t in
  let s1 := Re.drop r1 t in
  let a := opt_length is_apostrophe s1 in
  let s2 := Re.drop a s1 in
  let r2 := run_length Re.is_word s2 in
  let s3 := Re.drop r2 s2 in
  r1 + (a + (r2 + (opt_length is_mark s3 + 0))).

(** [s] does not start with a character of [cls]. *)
Definition stops (cls : ascii -> bool) (s : string) : Prop :=
  match s with
  | String c _ => cls c = false
  | EmptyString => True
  end.

(** The separators of [get_gaze_change_locations]. *)
Definition is_clause_end : ascii -> bool := Re.one_of ",.?!".

Definition total_words (pieces : list string) : nat :=
  foldr (fun piece n => scan Outside piece + n) 0 pieces.

End WordScan.

(* ===================================================================== *)
(** ** Exceptions                                                          *)
(* ===================================================================== *)

(** The Python exceptions the embedded code can raise. *)
Inductive exn : Type :=
| ParseError                        (* xml.etree.ElementTree.ParseError *)
| TypeError (msg : string)
| AttributeError (msg : string)
| ValueError (msg : string)
| KeyError (key : nat)
| RuntimeError (msg : string)
| ServiceException.

(** The outcome of a call: it returns, it raises, or it does not return in
    the state it is made in ([Thread.join] on a thread that is still
    running). *)
Inductive result (A : Type) : Type :=
| Ok (a : A)
| Raise (e : exn)
| Blocks.
Arguments Ok {A} a.
Arguments Raise {A} e.
Arguments Blocks {A}.

(* ===================================================================== *)
(** ** Element trees ([xml.etree.ElementTree])                            *)
(* ===================================================================== *)

Module ET.

(** An [Element]: tag, attribute dictionary, the text before the first
    child ([None] when there is none), the text between the element's end
    and the next tag ([None] when there is none), and the children. *)
Inductive Element : Type :=
  mkElement {
      tag : string;
      attrib : gmap string string;
      text : option string;
      tail : option string;
      children : list Element }.

(** [Element.iter()]: the element and all its descendants in document
    (pre-)order. *)
Fixpoint iter (e : Element) : list Element :=
  e :: (fix iter_all (l : list Element) : list Element :=
          match l with
          | [] => []
          | c :: r => (iter c ++ iter_all r)%list
          end) (children e).

(** *** A reader for the annotated-text grammar

    [fromstring] is expat in the original.  The reader below covers the
    grammar of annotated utterances: start tags with quoted attributes,
    end tags, empty-element tags and character data, in 7-bit
    characters.  As expat does, it refuses control characters other than
    tab, line feed and carriage return, refuses [<] and [&] in attribute
    values and the end mark of a CDATA section in character data, turns
    the line ends CR LF and CR into LF, and turns white space in
    attribute values into spaces.  Input that uses anything else of XML
    (entity references, comments, processing instructions, CDATA,
    declarations, namespaces: a colon in a name or an [xmlns] attribute,
    characters beyond 7 bits) is outside the grammar and is reported as
    [ParseError]. *)

Inductive token : Type :=
| TText (s : string)
| TOpen (name : string) (attrs : list (string * string)) (empty : bool)
| TClose (name : string).

Fixpoint span (p : ascii -> bool) (s : string) : string * string :=
  match s with
  | String c t =>
      if p c then let '(a, b) := span p t in (String c a, b)
      else (EmptyString, s)
  | EmptyString => (EmptyString, EmptyString)
  end.

Fixpoint contains (c : ascii) (s : string) : bool :=
  match s with
  | String d t => Ascii.eqb c d || contains c t
  | EmptyString => false
  end.

Definition is_space (c : ascii) : bool :=
  Ascii.eqb c " "%char || Ascii.eqb c "009"%char
  || Ascii.eqb c "010"%char || Ascii.eqb c "013"%char.

Definition is_alpha (c : ascii) : bool :=
  Re.between 97 122 c || Re.between 65 90 c.

Definition is_name_start (c : ascii) : bool :=
  is_alpha c || Ascii.eqb c "_"%char.

Definition is_name_char (c : ascii) : bool :=
  is_name_start c || Re.between 48 57 c
  || Ascii.eqb c "-"%char || Ascii.eqb c "."%char.

Definition skip_space (s : string) : string := snd (span is_space s).

(** The characters a document is made of. *)
Definition is_char (c : ascii) : bool :=
  Re.between 32 127 c || is_space c.

Fixpoint all_chars (s : string) : bool :=
  match s with
  | String c t => is_char c && all_chars t
  | EmptyString => true
  end.

(** Line ends, normalised before anything is read. *)
Fixpoint newlines (s : string) : string :=
  match s with
  | String c t =>
      if Ascii.eqb c "013"%char then
        match t with
        | String d t' =>
            if Ascii.eqb d "010"%char then String "010"%char (newlines t')
            else String "010"%char (newlines t)
        | EmptyString => String "010"%char EmptyString
        end
      else String c (newlines t)
  | EmptyString => EmptyString
  end.

(** An attribute value as it is reported: white space is a space. *)
Fixpoint attr_value (s : string) : string :=
  match s with
  | String c t => String (if is_space c then " "%char else c) (attr_value t)
  | EmptyString => EmptyString
  end.

(** Whether character data holds the end mark of a CDATA section. *)
Fixpoint cdata_end (s : string) : bool :=
  match s with
  | String c t => String.prefix "]]>" s || cdata_end t
  | EmptyString => false
  end.

Definition lex_name (s : string) : option (string * string) :=
  match s with
  | String c _ =>
      if is_name_start c then Some (span is_name_char s) else None
  | EmptyString => None
  end.

(** The attributes of a start tag, up to and including its [>] or [/>]. *)
Fixpoint lex_attrs (fuel : nat) (s : string)
  : option (list (string * string) * bool * string) :=
  match fuel with
  | 0 => None
  | S fuel' =>
      match skip_space s with
      | String ">" rest => Some ([], false, rest)
      | String "/" (String ">" rest) => Some ([], true, rest)
      | s1 =>
          '(name, s2) ← lex_name s1;
          if String.eqb name "xmlns" then None else
          match skip_space s2 with
          | String "=" s3 =>
              match skip_space s3 with
              | String q s4 =>
                  if Ascii.eqb q "034"%char || Ascii.eqb q "'"%char then
                    let '(value, s5) := span (fun c => negb (Ascii.eqb c q)) s4 in
                    if contains "<" value || contains "&" value then None
                    else
                      match s5 with
                      | String _ s6 =>
                          (* white space must separate attributes *)
                          match s6 with
                          | String c _ =>
                              if is_space c || Ascii.eqb c ">"%char
                                 || Ascii.eqb c "/"%char
                              then
                                '(more, empty, rest) ← lex_attrs fuel' s6;
                                Some ((name, attr_value value) :: more, empty, rest)
                              else None
                          | EmptyString => None
                          end
                      | EmptyString => None
                      end
                  else None
              | EmptyString => None
              end
          | _ => None
          end
      end
  end.

Fixpoint lex (fuel : nat) (s : string) : option (list token) :=
  match fuel with
  | 0 => None
  | S fuel' =>
      match s with
      | EmptyString => Some []
      | String "<" (String "/" s1) =>
          '(name, s2) ← lex_name s1;
          match skip_space s2 with
          | String ">" rest => (TClose name ::.) <$> lex fuel' rest
          | _ => None
          end
      | String "<" s1 =>
          '(name, s2) ← lex_name s1;
          '(attrs, empty, rest) ← lex_attrs (S (String.length s2)) s2;
          (TOpen name attrs empty ::.) <$> lex fuel' rest
      | _ =>
          let '(txt, rest) := span (fun c => negb (Ascii.eqb c "<"%char)) s in
          if contains "&" txt || cdata_end txt then None
          else (TText txt ::.) <$> lex fuel' rest
      end
  end.

(** An element under construction: its children are kept latest first. *)
Record frame : Type :=
  mkFrame {
      f_tag : string;
      f_attrib : gmap string string;
      f_text : option string;
      f_children : list Element }.

Definition add_data (o : option string) (s : string) : option string :=
  match o with
  | Some t => Some (t ++ s)
  | None => Some s
  end.

Definition with_tail (e : Element) (s : string) : Element :=
  mkElement (tag e) (attrib e) (text e) (add_data (tail e) s) (children e).

(** Character data goes to the text of the open element until it has a
    child, and to the tail of its latest child afterwards. *)
Definition frame_data (f : frame) (s : string) : frame :=
  match f_children f with
  | [] => mkFrame (f_tag f) (f_attrib f) (add_data (f_text f) s) []
  | c :: cs => mkFrame (f_tag f) (f_attrib f) (f_text f) (with_tail c s :: cs)
  end.

Definition frame_child (f : frame) (e : Element) : frame :=
  mkFrame (f_tag f) (f_attrib f) (f_text f) (e :: f_children f).

Definition close (f : frame) : Element :=
  mkElement (f_tag f) (f_attrib f) (f_text f) None (rev (f_children f)).

(** A start tag must not repeat an attribute name. *)
Fixpoint attrs_dict (l : list (string * string)) : option (gmap string string) :=
  match l with
  | [] => Some ∅
  | (k, v) :: r =>
      d ← attrs_dict r;
      match d !! k with
      | Some _ => None
      | None => Some (<[k := v]> d)
      end
  end.

Definition all_space (s : string) : bool :=
  match snd (span is_space s) with
  | EmptyString => true
  | _ => false
  end.

Definition finish (e : Element) (stack : list frame) (root : option Element)
  : list frame * option Element :=
  match stack with
  | parent :: below => (frame_child parent e :: below, root)
  | [] => ([], Some e)
  end.

Fixpoint build (toks : list token) (stack : list frame)
         (root : option Element) : option Element :=
  match toks with
  | [] =>
      match stack with
      | [] => root
      | _ :: _ => None
      end
  | TText s :: toks' =>
      match stack with
      | f :: below => build toks' (frame_data f s :: below) root
      | [] => if all_space s then build toks' [] root else None
      end
  | TOpen name attrs empty :: toks' =>
      d ← attrs_dict attrs;
      match stack, root with
      | [], Some _ => None
      | _, _ =>
          if empty then
            let '(stack', root') := finish (close (mkFrame name d None [])) stack root in
            build toks' stack' root'
          else build toks' (mkFrame name d None [] :: stack) root
      end
  | TClose name :: toks' =>
      match stack with
      | f :: below =>
          if String.eqb (f_tag f) name then
            let '(stack', root') := finish (close f) below root in
            build toks' stack' root'
          else None
      | [] => None
      end
  end.

Definition fromstring (s : string) : result Element :=
  let document := newlines s in
  match
    (if all_chars document then lex (S (String.length document)) document
     else None)
    ≫= (fun toks => build toks [] None)
  with
  | Some e => Ok e
  | None => Raise ParseError
  end.

End ET.

(* ===================================================================== *)
(** ** Floats                                                              *)
(* ===================================================================== *)

(** Python's floats are an interface here: a type of values, the built-in
    conversion [float(s)] ([None] when it raises [ValueError]) and the two
    literals the code writes. *)
Class PyFloat (float : Type) : Type :=
  { float_of_str : string -> option float;
    lit_0_5 : float;
    lit_0_3 : float }.

(** An instance: decimal literals [[+-]digits[.digits]] read as exact
    rationals. *)
Module Decimal.

Definition digit (c : ascii) : option Z :=
  if Re.between 48 57 c then Some (Z.of_nat (nat_of_ascii c) - 48)%Z
  else None.

(** Digits with at most one point: the number without its point, and the
    count of digits after the point. *)
Fixpoint digits (s : string) (acc : Z) (seen_point : bool) (frac : nat)
         (any : bool) : option (Z * nat) :=
  match s with
  | EmptyString => if any then Some (acc, frac) else None
  | String c t =>
      if Ascii.eqb c "."%char then
        if seen_point then None else digits t acc true frac any
      else
        d ← digit c;
        digits t (10 * acc + d)%Z seen_point
               (if seen_point then S frac else frac) true
  end.

Definition unsigned (s : string) : option Q :=
  '(n, frac) ← digits s 0%Z false 0 false;
  Some (Qmake n (Z.to_pos (10 ^ Z.of_nat frac))).

Definition of_str (s : string) : option Q :=
  match s with
  | String "-" t => Qopp <$> unsigned t
  | String "+" t => unsigned t
  | _ => unsigned s
  end.

End Decimal.

Definition decimal : PyFloat Q :=
  {| float_of_str := Decimal.of_str;
     lit_0_5 := 0.5%Q;
     lit_0_3 := 0.3%Q |}.

(* ===================================================================== *)
(** ** Entities and the world ([world.py])                                *)
(* ===================================================================== *)

(** An entity has an identifier; a person has a head, itself an entity
    ([None]: the object has no [head] attribute). *)
Inductive Entity : Type :=
  mkEntity { get_id : string; head : option Entity }.

(** A query object.  What [execute()] returns is decided outside this
    code, when the query is run. *)
Record Query : Type := mkQuery { query_id : string }.

(** The objects [add_to_world] can be handed. *)
Inductive WorldObject : Type :=
| IsEntity (e : Entity)
| IsQuery (q : Query)
| IsOther (id : string).

Definition object_id (o : WorldObject) : string :=
  match o with
  | IsEntity e => get_id e
  | IsQuery q => query_id q
  | IsOther id => id
  end.

Record World : Type :=
  mkWorld {
      entities : list Entity;
      entity_id_lookup : gmap string WorldObject }.

Definition empty_world : World := mkWorld [] ∅.

(** [World.add_to_world] *)
Definition add_to_world (self : World) (entity : WorldObject) : result World :=
  let entity_id := object_id entity in
  match entity with
  | IsEntity e =>
      match entity_id_lookup self !! entity_id with
      | None =>
          Ok (mkWorld (entities self ++ [e])
                      (<[entity_id := entity]> (entity_id_lookup self)))
      | Some _ => Ok self
      end
  | IsQuery _ =>
      match entity_id_lookup self !! entity_id with
      | None =>
          Ok (mkWorld (entities self)
                      (<[entity_id := entity]> (entity_id_lookup self)))
      | Some _ => Ok self
      end
  | IsOther _ =>
      Raise (TypeError "add_to_world() parameter entity is not a subclass of Entity or Query")
  end.

(** [World.add_to_world] statement by statement.  The method takes no
    lock ([entity_lock] guards the two service callbacks only), and the
    world is one object for the whole process, so calls made from
    different threads can overlap.  A call stands at its test of the
    table (lines 55-58 and 62), at the store into the table (59 and 63),
    at the append to the list (60), or has ended. *)
Inductive Registration : Type :=
| AtTest (entity : WorldObject)
| AtStore (entity : WorldObject)
| AtAppend (e : Entity)
| Returned
| Raised (e : exn).

Definition registration_step (at_point : Registration) (self : World)
  : Registration * World :=
  match at_point with
  | AtTest entity =>
      match entity with
      | IsOther _ =>
          (Raised (TypeError "add_to_world() parameter entity is not a subclass of Entity or Query"),
           self)
      | _ =>
          match entity_id_lookup self !! object_id entity with
          | None => (AtStore entity, self)
          | Some _ => (Returned, self)
          end
      end
  | AtStore entity =>
      (match entity with
       | IsEntity e => AtAppend e
       | _ => Returned
       end,
       mkWorld (entities self)
               (<[object_id entity := entity]> (entity_id_lookup self)))
  | AtAppend e =>
      (Returned, mkWorld (entities self ++ [e]) (entity_id_lookup self))
  | Returned => (Returned, self)
  | Raised e => (Raised e, self)
  end.

(** Calls in progress on the one world; the scheduler picks the call
    that runs its next statement. *)
Definition registrations_step (s : list Registration * World) (i : nat)
  : list Registration * World :=
  match s.1 !! i with
  | None => s
  | Some at_point =>
      let '(next, w) := registration_step at_point s.2 in
      (<[i := next]> s.1, w)
  end.

Definition registrations_run (s : list Registration * World)
           (schedule : list nat) : list Registration * World :=
  fold_left registrations_step schedule s.

(* ===================================================================== *)
(** ** Goals and action handles                                            *)
(* ===================================================================== *)

Section Hri.

Context {float : Type} {PF : PyFloat float}.

Record ExpressionGoal : Type :=
  mkExpressionGoal {
      expression : string;
      intensity : float;
      speed : float;
      duration : float }.

Record GestureGoal : Type :=
  mkGestureGoal {
      gesture : string;
      target : string;
      gesture_duration : float }.

Record TargetGoal : Type :=
  mkTargetGoal {
      gaze_target : string;
      gaze_speed : float;
      acceleration : float }.

Record TextToSpeechGoal : Type :=
  mkTextToSpeechGoal { tts_sentence : string }.

Inductive Goal : Type :=
| ATextToSpeechGoal (g : TextToSpeechGoal)
| ATargetGoal (g : TargetGoal)
| AnExpressionGoal (g : ExpressionGoal)
| AGestureGoal (g : GestureGoal).

(** The four action clients of a robot. *)
Inductive Client : Type :=
| tts_client
| gaze_client
| expression_client
| gesture_client.

(** Action handles are objects: [oid] is the identity of the object, by
    which [in] and [list.remove] compare them. *)
Inductive ActionHandle : Type :=
| SingleGoalActionHandle (oid : nat) (action_client : Client)
| MultiGoalActionHandle (oid : nat) (action_client : Client) (goal_handle : nat)
| SayToActionHandle (oid : nat).

#[export] Instance Client_eq_dec : EqDecision Client.
Proof. solve_decision. Defined.

#[export] Instance ActionHandle_eq_dec : EqDecision ActionHandle.
Proof. solve_decision. Defined.

Definition handle_client (ah : ActionHandle) : option Client :=
  match ah with
  | SingleGoalActionHandle _ c => Some c
  | MultiGoalActionHandle _ c _ => Some c
  | SayToActionHandle _ => None
  end.

(* =================================================================== *)
(** ** SayToPlan: the fields                                            *)
(* =================================================================== *)

Inductive Audience : Type :=
| NoAudience                       (* None *)
| AnEntity (e : Entity)
| AQuery (q : Query)
| AList (l : list Entity).

(** Where the thread running [__execute] stands. *)
Inductive Thread : Type :=
| AtStart                              (* line 168 *)
| AtGaze (person : Entity)             (* before the locked block that gazes *)
| AtWait                               (* line 191 *)
| Waiting (ah : ActionHandle)          (* inside robot.wait(self.gaze_ah) *)
| AtSay                                (* line 194 *)
| Finished
| Died (e : exn).

Record SayToPlan : Type :=
  mkSayToPlan {
      audience : Audience;
      current_gazee : option Entity;
      sentence : string;
      gesture_lookup : gmap nat GestureGoal;
      expression_lookup : gmap nat ExpressionGoal;
      gaze_change_locations : gmap nat string;
      say_ah : option ActionHandle;
      gaze_ah : option ActionHandle;
      other_ahs : list ActionHandle;
      preempt_requested : bool;
      thread : option Thread }.

(** [SayToPlan.__init__] and [SayToPlan.reset] assign the same values. *)
Definition new_plan : SayToPlan :=
  {| audience := NoAudience;
     current_gazee := None;
     sentence := "";
     gesture_lookup := ∅;
     expression_lookup := ∅;
     gaze_change_locations := ∅;
     say_ah := None;
     gaze_ah := None;
     other_ahs := [];
     preempt_requested := false;
     thread := None |}.

Definition reset (self : SayToPlan) : SayToPlan := new_plan.

Definition set_audience (v : Audience) (p : SayToPlan) : SayToPlan :=
  mkSayToPlan v (current_gazee p) (sentence p) (gesture_lookup p)
    (expression_lookup p) (gaze_change_locations p) (say_ah p) (gaze_ah p)
    (other_ahs p) (preempt_requested p) (thread p).
Definition set_current_gazee (v : option Entity) (p : SayToPlan) : SayToPlan :=
  mkSayToPlan (audience p) v (sentence p) (gesture_lookup p)
    (expression_lookup p) (gaze_change_locations p) (say_ah p) (gaze_ah p)
    (other_ahs p) (preempt_requested p) (thread p).
Definition set_sentence (v : string) (p : SayToPlan) : SayToPlan :=
  mkSayToPlan (audience p) (current_gazee p) v (gesture_lookup p)
    (expression_lookup p) (gaze_change_locations p) (say_ah p) (gaze_ah p)
    (other_ahs p) (preempt_requested p) (thread p).
Definition set_gesture_lookup (v : gmap nat GestureGoal) (p : SayToPlan) : SayToPlan :=
  mkSayToPlan (audience p) (current_gazee p) (sentence p) v
    (expression_lookup p) (gaze_change_locations p) (say_ah p) (gaze_ah p)
    (other_ahs p) (preempt_requested p) (thread p).
Definition set_expression_lookup (v : gmap nat ExpressionGoal) (p : SayToPlan) : SayToPlan :=
  mkSayToPlan (audience p) (current_gazee p) (sentence p) (gesture_lookup p)
    v (gaze_change_locations p) (say_ah p) (gaze_ah p)
    (other_ahs p) (preempt_requested p) (thread p).
Definition set_gaze_change_locations (v : gmap nat string) (p : SayToPlan) : SayToPlan :=
  mkSayToPlan (audience p) (current_gazee p) (sentence p) (gesture_lookup p)
    (expression_lookup p) v (say_ah p) (gaze_ah p)
    (other_ahs p) (preempt_requested p) (thread p).
Definition set_say_ah (v : option ActionHandle) (p : SayToPlan) : SayToPlan :=
  mkSayToPlan (audience p) (current_gazee p) (sentence p) (gesture_lookup p)
    (expression_lookup p) (gaze_change_locations p) v (gaze_ah p)
    (other_ahs p) (preempt_requested p) (thread p).
Definition set_gaze_ah (v : option ActionHandle) (p : SayToPlan) : SayToPlan :=
  mkSayToPlan (audience p) (current_gazee p) (sentence p) (gesture_lookup p)
    (expression_lookup p) (gaze_change_locations p) (say_ah p) v
    (other_ahs p) (preempt_requested p) (thread p).
Definition set_other_ahs (v : list ActionHandle) (p : SayToPlan) : SayToPlan :=
  mkSayToPlan (audience p) (current_gazee p) (sentence p) (gesture_lookup p)
    (expression_lookup p) (gaze_change_locations p) (say_ah p) (gaze_ah p)
    v (preempt_requested p) (thread p).
Definition set_preempt_requested (v : bool) (p : SayToPlan) : SayToPlan :=
  mkSayToPlan (audience p) (current_gazee p) (sentence p) (gesture_lookup p)
    (expression_lookup p) (gaze_change_locations p) (say_ah p) (gaze_ah p)
    (other_ahs p) v (thread p).
Definition set_thread (v : option Thread) (p : SayToPlan) : SayToPlan :=
  mkSayToPlan (audience p) (current_gazee p) (sentence p) (gesture_lookup p)
    (expression_lookup p) (gaze_change_locations p) (say_ah p) (gaze_ah p)
    (other_ahs p) (preempt_requested p) v.

(* =================================================================== *)
(** ** SayToPlan: compiling the annotated text                          *)
(* =================================================================== *)

(** [str.strip()] *)
Definition is_whitespace (c : ascii) : bool :=
  Ascii.eqb c " "%char || Re.between 9 13 c.

Fixpoint lstrip (s : string) : string :=
  match s with
  | String c t => if is_whitespace c then lstrip t else s
  | EmptyString => EmptyString
  end.

Fixpoint rstrip (s : string) : string :=
  match s with
  | String c t =>
      match rstrip t with
      | EmptyString => if is_whitespace c then EmptyString else String c EmptyString
      | t' => String c t'
      end
  | EmptyString => EmptyString
  end.

Definition strip (s : string) : string := rstrip (lstrip s).

(** [valid_words_regex = "\w+[']{0,1}\w*[!?,.]{0,1}"] *)
Definition valid_words_regex : Re.pattern :=
  [Re.Plus Re.is_word; Re.Opt (Re.one_of "'"); Re.Star Re.is_word;
   Re.Opt (Re.one_of "!?,.")].

(** [SayToPlan.num_words] *)
Definition num_words (text : string) : nat :=
  length (Re.findall valid_words_regex text).

(** [SayToPlan.get_gaze_change_locations]; the loop over the clauses
    carries the dictionary and the running [length]. *)
Fixpoint gaze_change_loop (sentences : list string)
         (gaze_change_locs : gmap nat string) (length : nat)
  : gmap nat string :=
  match sentences with
  | [] => gaze_change_locs
  | sentence :: rest =>
      let length := length + num_words sentence in
      gaze_change_loop rest (<[length + 1 := ""]> gaze_change_locs) length
  end.

Definition get_gaze_change_locations (text : string) : gmap nat string :=
  let sentences := Re.split [Re.One (Re.one_of ",.?!")] text in
  gaze_change_loop sentences ∅ 0.

(** [text += node.text + " "], guarded by [node.text is not None]. *)
Definition add_text (text : string) (node_text : option string) : string :=
  match node_text with
  | Some t => text ++ t ++ " "
  | None => text
  end.

Definition none_plus_str : exn :=
  TypeError "unsupported operand type(s) for +: 'NoneType' and 'str'".

(** The loop of [SayToPlan.get_sentence].  Where the node has a tail the
    source appends [node.text] once more, which raises when [node.text]
    is [None]. *)
Fixpoint sentence_loop (nodes : list ET.Element) (text : string)
  : result string :=
  match nodes with
  | [] => Ok text
  | node :: rest =>
      if String.eqb (ET.tag node) "sayto" then
        sentence_loop rest (add_text text (ET.text node))
      else
        let text := add_text text (ET.text node) in
        match ET.tail node with
        | Some _ =>
            match ET.text node with
            | Some t => sentence_loop rest (text ++ t ++ " ")
            | None => Raise none_plus_str
            end
        | None => sentence_loop rest text
        end
  end.

Definition wrap (text : string) : string := "<sayto>" ++ text ++ "</sayto>".

Definition get_sentence (text : string) : result string :=
  match ET.fromstring (wrap text) with
  | Ok tree =>
      match sentence_loop (ET.iter tree) "" with
      | Ok text => Ok (strip text)
      | Raise e => Raise e
      | Blocks => Blocks
      end
  | Raise e => Raise e
  | Blocks => Blocks
  end.

(** [SayToPlan.enum_contains]: an enumeration is the list of its members'
    names. *)
Definition enum_contains (enum : list string) (name : string) : bool :=
  existsb (fun e => String.eqb e name) enum.

(** [float(node.attrib[key])] when the key is present, the default
    otherwise. *)
Definition float_attrib (node : ET.Element) (key : string) (default : float)
  : result float :=
  match ET.attrib node !! key with
  | Some v =>
      match float_of_str v with
      | Some x => Ok x
      | None => Raise (ValueError v)
      end
  | None => Ok default
  end.

Definition missing_target (goal_name : string) : exn :=
  AttributeError ("Please specify a target attribute for " ++ goal_name ++ " gesture").

Definition unknown_tag (goal_name : string) : exn :=
  TypeError ("No gesture or expression called: " ++ goal_name).

(** The timing service: [None] when the call fails. *)
Definition DurationSrv : Type := string -> nat -> nat -> option float.

(** The body of the loop of [parse_parameters] for a node other than the
    root: the entry it stores. *)
Definition parse_node (node : ET.Element) (expression_enum gesture_enum : list string)
           (tts_duration_srv : DurationSrv) (start_word_i end_word_i : nat)
           (self : SayToPlan) : result SayToPlan :=
  let goal_name := ET.tag node in
  if enum_contains expression_enum goal_name then
    match float_attrib node "intensity" lit_0_5 with
    | Ok intensity =>
        match float_attrib node "speed" lit_0_5 with
        | Ok speed =>
            match tts_duration_srv (sentence self) start_word_i end_word_i with
            | Some d =>
                let goal := mkExpressionGoal goal_name intensity speed d in
                Ok (set_expression_lookup
                      (<[start_word_i := goal]> (expression_lookup self)) self)
            | None => Raise ServiceException
            end
        | Raise e => Raise e
        | Blocks => Blocks
        end
    | Raise e => Raise e
    | Blocks => Blocks
    end
  else if enum_contains gesture_enum goal_name then
    match ET.attrib node !! "target" with
    | Some t =>
        match tts_duration_srv (sentence self) start_word_i end_word_i with
        | Some d =>
            let goal := mkGestureGoal goal_name t d in
            Ok (set_gesture_lookup
                  (<[start_word_i := goal]> (gesture_lookup self)) self)
        | None => Raise ServiceException
        end
    | None => Raise (missing_target goal_name)
    end
  else Raise (unknown_tag goal_name).

(** The loop of [parse_parameters].  The plan is changed in place, so the
    plan reached is returned also when the loop raises. *)
Fixpoint parse_loop (nodes : list ET.Element) (expression_enum gesture_enum : list string)
         (tts_duration_srv : DurationSrv) (seen_text : string)
         (self : SayToPlan) : result unit * SayToPlan :=
  match nodes with
  | [] => (Ok (), self)
  | node :: rest =>
      if String.eqb (ET.tag node) "sayto" then
        parse_loop rest expression_enum gesture_enum tts_duration_srv
                   (add_text seen_text (ET.text node)) self
      else
        let start_word_i := num_words seen_text in
        let seen_text := add_text seen_text (ET.text node) in
        let end_word_i := num_words seen_text in
        match parse_node node expression_enum gesture_enum tts_duration_srv
                         start_word_i end_word_i self with
        | Ok self' =>
            parse_loop rest expression_enum gesture_enum tts_duration_srv
                       (add_text seen_text (ET.tail node)) self'
        | Raise e => (Raise e, self)
        | Blocks => (Blocks, self)
        end
  end.

(** [ParamFormatting.assert_types] is not part of
    the sources read here; it is taken to raise [TypeError] when the
    value is an instance of none of the types. *)
Definition assert_types (is_instance : bool) : result unit :=
  if is_instance then Ok () else Raise (TypeError "assert_types").

Definition is_entity_or_query (a : Audience) : bool :=
  match a with
  | AnEntity _ | AQuery _ => true
  | _ => false
  end.

(** [SayToPlan.parse_parameters] *)
Definition parse_parameters (self : SayToPlan) (text : string) (audience : Audience)
           (expression_enum gesture_enum : list string)
           (tts_duration_srv : DurationSrv) : result unit * SayToPlan :=
  let self := reset self in
  let self := set_audience audience self in
  match assert_types (is_entity_or_query audience) with
  | Ok _ =>
      match get_sentence text with
      | Ok s =>
          let self := set_sentence s self in
          let self := set_gaze_change_locations
                        (get_gaze_change_locations (sentence self)) self in
          match ET.fromstring (wrap text) with
          | Ok xml_tree =>
              parse_loop (ET.iter xml_tree) expression_enum gesture_enum
                         tts_duration_srv "" self
          | Raise e => (Raise e, self)
          | Blocks => (Blocks, self)
          end
      | Raise e => (Raise e, self)
      | Blocks => (Blocks, self)
      end
  | Raise e => (Raise e, self)
  | Blocks => (Blocks, self)
  end.

(* =================================================================== *)
(** ** Robot: the state                                                 *)
(* =================================================================== *)

(** What reaches the action servers, in order, and on whose behalf: the
    plan's thread, a speech feedback callback, a completion callback, or
    the application. *)
Inductive Origin : Type :=
| FromExecute
| FromFeedback
| FromDone
| FromCaller.

Inductive Request : Type :=
| WaitForServer (c : Client)          (* wait_for_action_servers *)
| WaitForService                      (* wait_for_services *)
| SendGoal (c : Client) (goal : Goal) (* client.send_goal(goal) *)
| CancelGoal (ah : ActionHandle)      (* ah.cancel_action() reaching the client *)
| WaitForResult (ah : ActionHandle).  (* ah.wait_for_result() has returned *)

(** The fields of [Robot] that the plan machinery uses, followed by the
    state of the process around it: the [World] singleton, the requests
    sent so far, who is running, the next fresh object identity, and the
    threads that earlier calls of say-to started.  The robot has one plan
    object (line 333), which every call of say-to resets and whose
    [thread] attribute then names the newest thread only; the threads
    started before are neither joined nor stopped and go on running
    [__execute] on that same plan.  [earlier] holds where each of them
    stands. *)
Record Robot : Type :=
  mkRobot {
      expression_enum : list string;
      gesture_enum : list string;
      gaze_found : bool;
      tts_found : bool;
      tts_duration_found : bool;
      tts_duration_srv : DurationSrv;
      action_handles : list ActionHandle;
      say_to_plan : SayToPlan;
      robot_gaze_ah : option ActionHandle;
      robot_say_ah : option ActionHandle;
      world : World;
      sent : list (Origin * Request);
      control : Origin;
      next_oid : nat;
      earlier : list Thread }.

Definition set_gaze_found (v : bool) (r : Robot) : Robot :=
  mkRobot (expression_enum r) (gesture_enum r) v (tts_found r) (tts_duration_found r) (tts_duration_srv r) (action_handles r) (say_to_plan r) (robot_gaze_ah r) (robot_say_ah r) (world r) (sent r) (control r) (next_oid r) (earlier r).
Definition set_tts_found (v : bool) (r : Robot) : Robot :=
  mkRobot (expression_enum r) (gesture_enum r) (gaze_found r) v (tts_duration_found r) (tts_duration_srv r) (action_handles r) (say_to_plan r) (robot_gaze_ah r) (robot_say_ah r) (world r) (sent r) (control r) (next_oid r) (earlier r).
Definition set_tts_duration_found (v : bool) (r : Robot) : Robot :=
  mkRobot (expression_enum r) (gesture_enum r) (gaze_found r) (tts_found r) v (tts_duration_srv r) (action_handles r) (say_to_plan r) (robot_gaze_ah r) (robot_say_ah r) (world r) (sent r) (control r) (next_oid r) (earlier r).
Definition set_action_handles (v : list ActionHandle) (r : Robot) : Robot :=
  mkRobot (expression_enum r) (gesture_enum r) (gaze_found r) (tts_found r) (tts_duration_found r) (tts_duration_srv r) v (say_to_plan r) (robot_gaze_ah r) (robot_say_ah r) (world r) (sent r) (control r) (next_oid r) (earlier r).
Definition set_say_to_plan (v : SayToPlan) (r : Robot) : Robot :=
  mkRobot (expression_enum r) (gesture_enum r) (gaze_found r) (tts_found r) (tts_duration_found r) (tts_duration_srv r) (action_handles r) v (robot_gaze_ah r) (robot_say_ah r) (world r) (sent r) (control r) (next_oid r) (earlier r).
Definition set_robot_gaze_ah (v : option ActionHandle) (r : Robot) : Robot :=
  mkRobot (expression_enum r) (gesture_enum r) (gaze_found r) (tts_found r) (tts_duration_found r) (tts_duration_srv r) (action_handles r) (say_to_plan r) v (robot_say_ah r) (world r) (sent r) (control r) (next_oid r) (earlier r).
Definition set_robot_say_ah (v : option ActionHandle) (r : Robot) : Robot :=
  mkRobot (expression_enum r) (gesture_enum r) (gaze_found r) (tts_found r) (tts_duration_found r) (tts_duration_srv r) (action_handles r) (say_to_plan r) (robot_gaze_ah r) v (world r) (sent r) (control r) (next_oid r) (earlier r).
Definition set_world (v : World) (r : Robot) : Robot :=
  mkRobot (expression_enum r) (gesture_enum r) (gaze_found r) (tts_found r) (tts_duration_found r) (tts_duration_srv r) (action_handles r) (say_to_plan r) (robot_gaze_ah r) (robot_say_ah r) v (sent r) (control r) (next_oid r) (earlier r).
Definition set_sent (v : list (Origin * Request)) (r : Robot) : Robot :=
  mkRobot (expression_enum r) (gesture_enum r) (gaze_found r) (tts_found r) (tts_duration_found r) (tts_duration_srv r) (action_handles r) (say_to_plan r) (robot_gaze_ah r) (robot_say_ah r) (world r) v (control r) (next_oid r) (earlier r).
Definition set_control (v : Origin) (r : Robot) : Robot :=
  mkRobot (expression_enum r) (gesture_enum r) (gaze_found r) (tts_found r) (tts_duration_found r) (tts_duration_srv r) (action_handles r) (say_to_plan r) (robot_gaze_ah r) (robot_say_ah r) (world r) (sent r) v (next_oid r) (earlier r).
Definition set_next_oid (v : nat) (r : Robot) : Robot :=
  mkRobot (expression_enum r) (gesture_enum r) (gaze_found r) (tts_found r) (tts_duration_found r) (tts_duration_srv r) (action_handles r) (say_to_plan r) (robot_gaze_ah r) (robot_say_ah r) (world r) (sent r) (control r) v (earlier r).
Definition set_earlier (v : list Thread) (r : Robot) : Robot :=
  mkRobot (expression_enum r) (gesture_enum r) (gaze_found r) (tts_found r) (tts_duration_found r) (tts_duration_srv r) (action_handles r) (say_to_plan r) (robot_gaze_ah r) (robot_say_ah r) (world r) (sent r) (control r) (next_oid r) v.

Definition new_robot (expression_enum gesture_enum : list string)
           (tts_duration_srv : DurationSrv) : Robot :=
  {| expression_enum := expression_enum;
     gesture_enum := gesture_enum;
     gaze_found := false;
     tts_found := false;
     tts_duration_found := false;
     tts_duration_srv := tts_duration_srv;
     action_handles := [];
     say_to_plan := new_plan;
     robot_gaze_ah := None;
     robot_say_ah := None;
     world := empty_world;
     sent := [];
     control := FromCaller;
     next_oid := 0;
     earlier := [] |}.

(** A method of the robot: it returns, raises or blocks, and leaves the
    robot in a new state in each case. *)
Definition M (A : Type) : Type := Robot -> result A * Robot.

Definition ret {A} (a : A) : M A := fun st => (Ok a, st).
Definition bind {A B} (m : M A) (k : A -> M B) : M B :=
  fun st =>
    match m st with
    | (Ok a, st') => k a st'
    | (Raise e, st') => (Raise e, st')
    | (Blocks, st') => (Blocks, st')
    end.
Definition raise {A} (e : exn) : M A := fun st => (Raise e, st).
Definition blocks {A} : M A := fun st => (Blocks, st).
Definition lift {A} (r : result A) : M A := fun st => (r, st).
Definition get {A} (f : Robot -> A) : M A := fun st => (Ok (f st), st).
Definition modify (f : Robot -> Robot) : M unit := fun st => (Ok (), f st).

Notation "x <- m ;; k" := (bind m (fun x => k))
  (at level 100, m at next level, right associativity).
Notation "m ;;; k" := (bind m (fun _ => k))
  (at level 100, right associativity).

Definition plan {A} (f : SayToPlan -> A) : M A :=
  get (fun st => f (say_to_plan st)).
Definition modify_plan (f : SayToPlan -> SayToPlan) : M unit :=
  modify (fun st => set_say_to_plan (f (say_to_plan st)) st).
Definition request (rq : Request) : M unit :=
  modify (fun st => set_sent (sent st ++ [(control st, rq)]) st).
Definition new_object : M nat :=
  fun st => (Ok (next_oid st), set_next_oid (S (next_oid st)) st).

(* =================================================================== *)
(** ** Robot: handle bookkeeping, wait and cancel                       *)
(* =================================================================== *)

(** [list.remove(x)]: the first occurrence goes. *)
Fixpoint remove_first (x : ActionHandle) (l : list ActionHandle)
  : list ActionHandle :=
  match l with
  | [] => []
  | y :: r => if decide (x = y) then r else y :: remove_first x r
  end.

(** [x in l] *)
Definition contains (x : ActionHandle) (l : list ActionHandle) : bool :=
  bool_decide (x ∈ l).

Definition is_some {A} (o : option A) : bool :=
  match o with Some _ => true | None => false end.

(** [Robot.add_action_handle] *)
Definition Robot_add_action_handle (action_handle : ActionHandle) : M unit :=
  modify (fun st => set_action_handles (action_handles st ++ [action_handle]) st).

(** [Robot.remove_action_handle]; [None] stands for Python's [None]. *)
Definition Robot_remove_action_handle (action_handle : option ActionHandle)
  : M unit :=
  lift (assert_types (is_some action_handle));;;
  match action_handle with
  | Some ah =>
      handles <- get action_handles;;
      if contains ah handles
      then modify (set_action_handles (remove_first ah handles))
      else ret ()
  | None => ret ()
  end.

(** [Robot.get_action_handle]: the first multi-goal handle with that
    goal handle, [None] when the loop ends without one. *)
Fixpoint find_goal_handle (goal_handle : nat) (l : list ActionHandle)
  : option ActionHandle :=
  match l with
  | [] => None
  | ah :: r =>
      match ah with
      | MultiGoalActionHandle _ _ gh =>
          if Nat.eqb gh goal_handle then Some ah
          else find_goal_handle goal_handle r
      | _ => find_goal_handle goal_handle r
      end
  end.

Definition Robot_get_action_handle (goal_handle : nat) : M (option ActionHandle) :=
  handles <- get action_handles;;
  ret (find_goal_handle goal_handle handles).

(** [for ah in action_handles: body(ah)] *)
Fixpoint for_each {A} (l : list A) (body : A -> M unit) : M unit :=
  match l with
  | [] => ret ()
  | x :: r => body x;;; for_each r body
  end.

(** [ah.wait_for_result()].  A say-to handle forwards to the plan's
    [wait], passed as [plan_wait]. *)
Definition wait_for_result (plan_wait : M unit) (ah : ActionHandle) : M unit :=
  match ah with
  | SingleGoalActionHandle _ _ => request (WaitForResult ah)
  | MultiGoalActionHandle _ _ _ => request (WaitForResult ah)
  | SayToActionHandle _ => plan_wait
  end.

(** [Robot.wait], for the handles it is given *)
Definition Robot_wait_with (plan_wait : M unit)
           (action_handles : list (option ActionHandle)) : M unit :=
  for_each action_handles (fun ah =>
    lift (assert_types (is_some ah));;;
    match ah with
    | Some h => wait_for_result plan_wait h
    | None => ret ()
    end;;;
    Robot_remove_action_handle ah).

(** [Thread.join()] on the plan's thread. *)
Definition join : M unit :=
  th <- plan thread;;
  match th with
  | None => raise (AttributeError "'NoneType' object has no attribute 'join'")
  | Some Finished => ret ()
  | Some (Died _) => ret ()
  | Some _ => blocks
  end.

(** A say-to handle among the handles that [SayToPlan.wait] waits on
    leads back into [SayToPlan.wait] without end. *)
Definition recursion_limit : M unit :=
  raise (RuntimeError "maximum recursion depth exceeded").

(** [SayToPlan.wait] *)
Definition SayToPlan_wait : M unit :=
  join;;;
  say <- plan say_ah;;
  Robot_wait_with recursion_limit [say];;;
  others <- plan other_ahs;;
  Robot_wait_with recursion_limit (Some <$> others).

Definition Robot_wait (action_handles : list (option ActionHandle)) : M unit :=
  Robot_wait_with SayToPlan_wait action_handles.

(** [SayToPlan.cancel(self, robot)] has a parameter [robot] besides
    [self].  A call that leaves it out is refused before the body runs. *)
Definition cancel_arity : exn :=
  TypeError "cancel() takes exactly 2 arguments (1 given)".

(** [ah.cancel_action()].  [SayToActionHandle.cancel_action] is
    [self.say_to_plan.cancel()]: no [robot] is passed. *)
Definition cancel_action (ah : ActionHandle) : M unit :=
  match ah with
  | SingleGoalActionHandle _ _ => request (CancelGoal ah)
  | MultiGoalActionHandle _ _ _ => request (CancelGoal ah)
  | SayToActionHandle _ => raise cancel_arity
  end.

(** [Robot.cancel], for the handles it is given *)
Definition Robot_cancel (action_handles : list (option ActionHandle)) : M unit :=
  for_each action_handles (fun ah =>
    lift (assert_types (is_some ah));;;
    match ah with
    | Some h => cancel_action h
    | None => ret ()
    end;;;
    Robot_remove_action_handle ah).

(** The robot a caller passes to [SayToPlan.cancel]. *)
Inductive RobotRef : Type := the_robot.

(** [SayToPlan.cancel]; [robot = None] is the call without the argument.
    The whole body runs under [self.lock]. *)
Definition SayToPlan_cancel (robot : option RobotRef) : M unit :=
  match robot with
  | None => raise cancel_arity
  | Some _ =>
      modify_plan (set_preempt_requested true);;;
      say <- plan say_ah;;
      gaze <- plan gaze_ah;;
      (if is_some say then Robot_cancel [gaze] else ret ());;;
      gaze <- plan gaze_ah;;
      (if is_some gaze then Robot_cancel [gaze] else ret ());;;
      others <- plan other_ahs;;
      Robot_cancel (Some <$> others)
  end.

(* =================================================================== *)
(** ** Robot: issuing commands                                          *)
(* =================================================================== *)

(** [if not self.x_found: self.wait_for_action_servers(client); ...] *)
Definition connect (found : Robot -> bool) (set_found : bool -> Robot -> Robot)
           (c : Client) : M unit :=
  f <- get found;;
  if f then ret ()
  else request (WaitForServer c);;; modify (set_found true).

(** [Robot.say] *)
Definition Robot_say (text : string) : M ActionHandle :=
  connect tts_found set_tts_found tts_client;;;
  request (SendGoal tts_client (ATextToSpeechGoal (mkTextToSpeechGoal text)));;;
  oid <- new_object;;
  let ah := SingleGoalActionHandle oid tts_client in
  modify (set_robot_say_ah (Some ah));;;
  Robot_add_action_handle ah;;;
  ret ah.

(** [Robot.gaze], with the default [speed=0.5] *)
Definition Robot_gaze (target : Entity) : M ActionHandle :=
  connect gaze_found set_gaze_found gaze_client;;;
  w <- get world;;
  w' <- lift (add_to_world w (IsEntity target));;
  modify (set_world w');;;
  let goal := mkTargetGoal (get_id target) lit_0_5 lit_0_3 in
  request (SendGoal gaze_client (ATargetGoal goal));;;
  oid <- new_object;;
  let ah := SingleGoalActionHandle oid gaze_client in
  modify (set_robot_gaze_ah (Some ah));;;
  Robot_add_action_handle ah;;;
  ret ah.

(** [self.gaze(person.head)] *)
Definition gaze_at_head (person : Entity) : M ActionHandle :=
  match head person with
  | Some h => Robot_gaze h
  | None => raise (AttributeError "head")
  end.

(** One round of the loop of [Robot.do]. *)
Definition do_goal (goal : Goal) : M ActionHandle :=
  match goal with
  | ATextToSpeechGoal _ =>
      request (SendGoal tts_client goal);;;
      oid <- new_object;;
      let ah := SingleGoalActionHandle oid tts_client in
      Robot_add_action_handle ah;;; ret ah
  | ATargetGoal _ =>
      request (SendGoal gaze_client goal);;;
      oid <- new_object;;
      let ah := SingleGoalActionHandle oid gaze_client in
      Robot_add_action_handle ah;;; ret ah
  | AnExpressionGoal _ =>
      request (SendGoal expression_client goal);;;
      gh <- new_object;;
      oid <- new_object;;
      let ah := MultiGoalActionHandle oid expression_client gh in
      Robot_add_action_handle ah;;; ret ah
  | AGestureGoal _ =>
      request (SendGoal gesture_client goal);;;
      gh <- new_object;;
      oid <- new_object;;
      let ah := MultiGoalActionHandle oid gesture_client gh in
      Robot_add_action_handle ah;;; ret ah
  end.

(** [Robot.do], for the goals it is given *)
Fixpoint do (goals : list Goal) : M (list ActionHandle) :=
  match goals with
  | [] => ret []
  | goal :: rest =>
      ah <- do_goal goal;;
      ahs <- do rest;;
      ret (ah :: ahs)
  end.

(** [SayToPlan.add_action_handle] *)
Definition SayToPlan_add_action_handle (action_handle : ActionHandle) : M unit :=
  modify_plan (fun p => set_other_ahs (other_ahs p ++ [action_handle]) p).

(** [SayToPlan.execute]: the thread is started and the caller gets a
    handle on the plan. *)
Definition execute : M ActionHandle :=
  modify_plan (set_thread (Some AtStart));;;
  oid <- new_object;;
  ret (SayToActionHandle oid).

Definition is_audience (a : Audience) : bool :=
  match a with
  | NoAudience => false
  | _ => true
  end.

(** What [reset] does to the thread that the plan refers to:
    [self.thread = None] drops the reference and nothing else.  The
    thread, if there is one, is from now on one of the earlier threads. *)
Definition outlive (st : Robot) : Robot :=
  match thread (say_to_plan st) with
  | Some t => set_earlier (earlier st ++ [t]) st
  | None => st
  end.

(** [Robot.say_to] *)
Definition say_to (text : string) (audience : Audience) : M ActionHandle :=
  (f <- get tts_duration_found;;
   if f then ret ()
   else request WaitForService;;; modify (set_tts_duration_found true));;;
  lift (assert_types (is_audience audience));;;
  (fun st =>
     let '(r, p) := parse_parameters (say_to_plan st) text audience
                      (expression_enum st) (gesture_enum st)
                      (tts_duration_srv st) in
     (r, set_say_to_plan p (outlive st)));;;
  ah <- execute;;
  Robot_add_action_handle ah;;;
  ret ah.

(* =================================================================== *)
(** ** Robot: callbacks                                                 *)
(* =================================================================== *)

(** The speech feedback message.  Its type is declared outside the
    sources read here; the handler reads [current_word_index] and, in
    one place, [current_word_num], which is [None] when the message has
    no such field. *)
Record Feedback : Type :=
  mkFeedback {
      current_word_index : nat;
      current_word_num : option nat }.

Definition no_current_word_num : exn :=
  AttributeError "'TextToSpeechFeedback' object has no attribute 'current_word_num'".

(** [random.choice(people)], the draw being [pick]. *)
Definition choice (people : list Entity) (pick : nat) : option Entity :=
  people !! (pick mod length people)%nat.

Definition regaze (person : Entity) : M unit :=
  modify_plan (set_current_gazee (Some person));;;
  ah <- gaze_at_head person;;
  modify_plan (set_gaze_ah (Some ah)).

(** [Robot.say_feedback].  [people] is what the audience query returns
    if it is executed, [pick] the random draw if one is made. *)
Definition say_feedback (feedback : Feedback) (people : list Entity)
           (pick : nat) : M unit :=
  let i := current_word_index feedback in
  locs <- plan gaze_change_locations;;
  (if is_some (locs !! i) then
     aud <- plan audience;;
     match aud with
     | AnEntity person => regaze person
     | AQuery _ =>
         if (1 <? length people)%nat then
           match choice people pick with
           | Some person => regaze person
           | None => ret ()
           end
         else
           match people with
           | [person] => regaze person
           | _ => ret ()
           end
     | _ => ret ()
     end
   else ret ());;;
  expressions <- plan expression_lookup;;
  (if is_some (expressions !! i) then
     match current_word_num feedback with
     | None => raise no_current_word_num
     | Some n =>
         match expressions !! n with
         | None => raise (KeyError n)
         | Some expression =>
             ahs <- do [AnExpressionGoal expression];;
             match ahs with
             | ah :: _ => SayToPlan_add_action_handle ah
             | [] => ret ()
             end
         end
     end
   else ret ());;;
  gestures <- plan gesture_lookup;;
  (if is_some (gestures !! i) then
     match gestures !! i with
     | None => raise (KeyError i)
     | Some gesture =>
         ahs <- do [AGestureGoal gesture];;
         match ahs with
         | ah :: _ => SayToPlan_add_action_handle ah
         | [] => ret ()
         end
     end
   else ret ()).

(** [Robot.say_done], [Robot.gaze_done] *)
Definition say_done : M unit :=
  ah <- get robot_say_ah;;
  Robot_remove_action_handle ah;;;
  modify (set_robot_say_ah None).

Definition gaze_done : M unit :=
  ah <- get robot_gaze_ah;;
  Robot_remove_action_handle ah;;;
  modify (set_robot_gaze_ah None).

(** [Robot.expression_done], [Robot.gesture_done] *)
Definition goal_done (goal_handle : nat) : M unit :=
  ah <- Robot_get_action_handle goal_handle;;
  Robot_remove_action_handle ah.

(* =================================================================== *)
(** ** The plan's thread and the events around it                       *)
(* =================================================================== *)

(** [SayToPlan.__execute], from one point to the next at which other
    threads can be observed.  [results] is what the sorted audience
    query returns when it is executed.  The two blocks under
    [with self.lock] are each one step. *)
Definition execute_step (results : list Entity) (at_point : Thread) : M Thread :=
  match at_point with
  | AtStart =>
      aud <- plan audience;;
      match aud with
      | AnEntity person => ret (AtGaze person)
      | NoAudience =>
          raise (AttributeError "'NoneType' object has no attribute 'sort_increasing'")
      | AQuery _ | AList _ =>
          match results with
          | person :: _ =>
              modify_plan (set_current_gazee (Some person));;;
              ret (AtGaze person)
          | [] => ret AtWait
          end
      end
  | AtGaze person =>
      preempted <- plan preempt_requested;;
      if preempted then ret AtWait
      else
        ah <- gaze_at_head person;;
        modify_plan (set_gaze_ah (Some ah));;;
        ret AtWait
  | AtWait =>
      gaze <- plan gaze_ah;;
      match gaze with
      | Some ah => ret (Waiting ah)
      | None => ret AtSay
      end
  | Waiting ah =>
      wait_for_result SayToPlan_wait ah;;;
      Robot_remove_action_handle (Some ah);;;
      ret AtSay
  | AtSay =>
      preempted <- plan preempt_requested;;
      if preempted then ret Finished
      else
        text <- plan sentence;;
        ah <- Robot_say text;;
        modify_plan (set_say_ah (Some ah));;;
        ret Finished
  | Finished => ret Finished
  | Died e => ret (Died e)
  end.

Definition thread_step (results : list Entity) (st : Robot) : Robot :=
  match thread (say_to_plan st) with
  | None => st
  | Some at_point =>
      match execute_step results at_point st with
      | (Ok next, st') => set_say_to_plan (set_thread (Some next) (say_to_plan st')) st'
      | (Raise e, st') => set_say_to_plan (set_thread (Some (Died e)) (say_to_plan st')) st'
      | (Blocks, _) => st
      end
  end.

(** The same for the [i]-th of the earlier threads: it runs the same
    [__execute] on the robot's one plan, whatever the plan now holds. *)
Definition earlier_step (i : nat) (results : list Entity) (st : Robot) : Robot :=
  match earlier st !! i with
  | None => st
  | Some at_point =>
      match execute_step results at_point st with
      | (Ok next, st') => set_earlier (<[i := next]> (earlier st')) st'
      | (Raise e, st') => set_earlier (<[i := Died e]> (earlier st')) st'
      | (Blocks, _) => st
      end
  end.

(** What can happen around a plan once [say_to] has returned. *)
Inductive Event : Type :=
| Schedule (results : list Entity)     (* the plan's thread runs on *)
| SpeechFeedback (feedback : Feedback) (people : list Entity) (pick : nat)
| SpeechDone
| GazeDone
| GoalDone (goal_handle : nat)
| CallPlanCancel                       (* say_to_plan.cancel(robot) *)
| CallCancel (ahs : list (option ActionHandle))   (* robot.cancel(...) *)
| CallWait (ahs : list (option ActionHandle))     (* robot.wait(...) *)
| ScheduleEarlier (i : nat) (results : list Entity).  (* an earlier thread runs on *)

Definition as_origin (o : Origin) (m : M unit) (st : Robot) : Robot :=
  snd (m (set_control o st)).

Definition step (st : Robot) (ev : Event) : Robot :=
  match ev with
  | Schedule results => thread_step results (set_control FromExecute st)
  | SpeechFeedback fb people pick => as_origin FromFeedback (say_feedback fb people pick) st
  | SpeechDone => as_origin FromDone say_done st
  | GazeDone => as_origin FromDone gaze_done st
  | GoalDone gh => as_origin FromDone (goal_done gh) st
  | CallPlanCancel => as_origin FromCaller (SayToPlan_cancel (Some the_robot)) st
  | CallCancel ahs => as_origin FromCaller (Robot_cancel ahs) st
  | CallWait ahs => as_origin FromCaller (Robot_wait ahs) st
  | ScheduleEarlier i results =>
      earlier_step i results (set_control FromExecute st)
  end.

Definition run (st : Robot) (evs : list Event) : Robot :=
  fold_left step evs st.

(** The actuator commands among the requests. *)
Definition is_command (rq : Origin * Request) : bool :=
  match rq with
  | (_, SendGoal _ _) => true
  | _ => false
  end.

Definition commands (st : Robot) : list (Origin * Request) :=
  filter (fun rq => is_command rq = true) (sent st).

End Hri.

(* ===================================================================== *)
(** ** Scenarios                                                           *)
(* ===================================================================== *)

Module Scenario.

#[local] Existing Instance decimal.

Definition dq : string := String "034"%char EmptyString.

(** The tagged utterance of the specification. *)
Definition tagged : string :=
  "<happy intensity=" ++ dq ++ "0.8" ++ dq ++ ">Hi</happy> <wave target="
    ++ dq ++ "P" ++ dq ++ ">there</wave>".

Definition P_head : Entity := mkEntity "P_head" None.
Definition P : Entity := mkEntity "P" (Some P_head).

(** The element tree of the tagged utterance inside its [sayto] root. *)
Definition happy_node : ET.Element :=
  ET.mkElement "happy" {[ "intensity" := "0.8" ]} (Some "Hi") (Some " ") [].
Definition wave_node : ET.Element :=
  ET.mkElement "wave" {[ "target" := "P" ]} (Some "there") None [].
Definition tagged_tree : ET.Element :=
  ET.mkElement "sayto" ∅ None None [happy_node; wave_node].

(** A gesture tag without a target. *)
Definition untargeted : string := "<wave>there</wave>".
Definition untargeted_tree : ET.Element :=
  ET.mkElement "sayto" ∅ None None
    [ET.mkElement "wave" ∅ (Some "there") None []].

(** A tag that has the name of the root. *)
Definition inner_sayto : string := "<sayto>hi</sayto>".

(** An unknown tag before a gesture tag without a target. *)
Definition two_bad_tags : string := "<bogus>x</bogus><wave>y</wave>".

(** A gesture tag inside an expression tag: one word, Hi, comes before the
    wave tag, and the happy tag spans three words. *)
Definition nested : string :=
  "<happy>Hi <wave target=" ++ dq ++ "P" ++ dq ++ ">there</wave> friend</happy> now".

(** A timing service that answers one second for each word of the span it
    is asked about. *)
Definition second_per_word : DurationSrv :=
  fun _ start_word_i end_word_i =>
    Some (inject_Z (Z.of_nat end_word_i - Z.of_nat start_word_i)).

(** A timing service that answers one second for every span. *)
Definition one_second : DurationSrv := fun _ _ _ => Some 1%Q.

Definition robot0 : Robot := new_robot ["happy"] ["wave"] one_second.

(** [say_to("Hello, there", P)] has returned: the plan is compiled and its
    thread started. *)
Definition greeting : Robot := snd (say_to "Hello, there" (AnEntity P) robot0).

(** The thread has run to its end: it gazed at P's head, waited for the
    gaze, and started the speech. *)
Definition spoken : Robot :=
  run greeting [Schedule []; Schedule []; Schedule []; Schedule []; Schedule []].

(** The handle of that gaze command. *)
Definition gaze_handle : ActionHandle := SingleGoalActionHandle 1 gaze_client.

(** The tagged utterance said to P, its thread run to the end. *)
Definition tagged_spoken : Robot :=
  run (snd (say_to tagged (AnEntity P) robot0))
      [Schedule []; Schedule []; Schedule []; Schedule []; Schedule []].

(** [say_to_plan.cancel(robot)] arrives after the first step of the
    greeting's thread; the thread then runs to its end. *)
Definition preempted_early : Robot :=
  run greeting [Schedule []; CallPlanCancel; Schedule []; Schedule []; Schedule []].

(** [say_to_plan.cancel(robot)] arrives once the tagged utterance is being
    spoken. *)
Definition preempted_speaking : Robot := run tagged_spoken [CallPlanCancel].

End Scenario.


(* ===================================================================== *)
(** ** Notions used to state the properties                                *)
(* ===================================================================== *)

(** The objects [add_to_world] accepts: entities and queries. *)
Definition registrable (o : WorldObject) : Prop :=
  match o with
  | IsOther _ => False
  | _ => True
  end.


(** The error that a tag raises by its name and attributes alone: a
    gesture without a target, or a name in neither vocabulary.  The tag
    [sayto] is the root's and is passed whatever the vocabularies are;
    a name in both vocabularies is an expression. *)
Definition bad_tag (expression_enum gesture_enum : list string)
           (node : ET.Element) : option exn :=
  if String.eqb (ET.tag node) "sayto" then None
  else if enum_contains expression_enum (ET.tag node) then None
  else if enum_contains gesture_enum (ET.tag node) then
         match ET.attrib node !! "target" with
         | Some _ => None
         | None => Some (missing_target (ET.tag node))
         end
       else Some (unknown_tag (ET.tag node)).

(** [float(node.attrib[key])] does not raise. *)
Definition float_ok {float : Type} {PF : PyFloat float} (node : ET.Element) (key : string) : Prop :=
  match ET.attrib node !! key with
  | Some v => is_Some (float_of_str v)
  | None => True
  end.

(** A node that the loop of [parse_parameters] passes when the timing
    service answers. *)
Definition compiles {float : Type} {PF : PyFloat float} (expression_enum gesture_enum : list string)
           (node : ET.Element) : Prop :=
  bad_tag expression_enum gesture_enum node = None
  /\ (String.eqb (ET.tag node) "sayto" = false ->
      enum_contains expression_enum (ET.tag node) = true ->
      float_ok node "intensity" /\ float_ok node "speed").


(** The call returned. *)
Definition returns {A} (r : result A) : Prop :=
  match r with
  | Ok _ => True
  | _ => False
  end.


(** *** Orderings in the list of requests

    Positions are counted from [n0], the number of requests sent when the
    plan was started. *)
Section Orderings.

Context {float : Type}.

Definition thread_gazed (rq : Origin * @Request float) : Prop :=
  exists g, rq = (FromExecute, SendGoal gaze_client g).

Definition thread_spoke (rq : Origin * @Request float) : Prop :=
  exists g, rq = (FromExecute, SendGoal tts_client g).

Definition thread_waited_for_gaze (rq : Origin * @Request float) : Prop :=
  exists oid,
    rq = (FromExecute, WaitForResult (SingleGoalActionHandle oid gaze_client)).

(** The plan's thread has sent no speech goal. *)
Definition no_thread_speech (l : list (Origin * @Request float)) (n0 : nat) : Prop :=
  forall j rq, n0 <= j -> l !! j = Some rq -> ~ thread_spoke rq.

(** Every gaze goal of the plan's thread is followed by a completed wait
    of the thread on a handle of the gaze client. *)
Definition gaze_waited (l : list (Origin * @Request float)) (n0 : nat) : Prop :=
  forall i rq, n0 <= i -> l !! i = Some rq -> thread_gazed rq ->
               exists k rq', i < k /\ l !! k = Some rq' /\ thread_waited_for_gaze rq'.

(** Between a gaze goal and a speech goal of the plan's thread lies a
    completed wait of the thread on a handle of the gaze client. *)
Definition gaze_before_speech (l : list (Origin * @Request float)) (n0 : nat) : Prop :=
  forall i j rqi rqj,
    n0 <= i -> n0 <= j ->
    l !! i = Some rqi -> thread_gazed rqi ->
    l !! j = Some rqj -> thread_spoke rqj ->
    exists k rq', i < k < j /\ l !! k = Some rq' /\ thread_waited_for_gaze rq'.

(** The plan's gaze handle, when there is one, is a handle on the gaze
    client. *)
Definition gaze_handle_ok (p : @SayToPlan float) : Prop :=
  match gaze_ah p with
  | None => True
  | Some ah => exists oid, ah = SingleGoalActionHandle oid gaze_client
  end.

(** What a method of the robot leaves alone: the thread of control on
    whose behalf requests are sent, the requests already sent, where the
    plan's thread stands, a preemption flag that is set, the plan
    having a handle on the gaze client, and where the earlier threads
    stand.  The requests it adds are sent on behalf of that thread of
    control and are all of the kind [P]. *)
Definition extends (P : @Request float -> Prop) (st st' : @Robot float) : Prop :=
  control st' = control st
  /\ (exists extra, sent st' = (sent st ++ extra)%list
                    /\ Forall (fun rq => fst rq = control st /\ P (snd rq)) extra)
  /\ thread (say_to_plan st') = thread (say_to_plan st)
  /\ (preempt_requested (say_to_plan st) = true ->
      preempt_requested (say_to_plan st') = true)
  /\ (gaze_handle_ok (say_to_plan st) -> gaze_handle_ok (say_to_plan st'))
  /\ (is_Some (gaze_ah (say_to_plan st)) -> is_Some (gaze_ah (say_to_plan st')))
  /\ earlier st' = earlier st.

(** A method that leaves these alone in every state, sends requests of
    the kind [P] only, and whose result, if it returns, satisfies [Q]. *)
Definition hoare {A} (P : @Request float -> Prop) (m : M A) (Q : A -> Prop) : Prop :=
  forall st,
    extends P st (snd (m st))
    /\ match fst (m st) with
       | Ok a => Q a
       | _ => True
       end.

(** Kinds of requests. *)
Definition any_request (rq : @Request float) : Prop := True.
Definition no_request (rq : @Request float) : Prop := False.
Definition not_speech (rq : @Request float) : Prop :=
  forall g, rq <> SendGoal tts_client g.
Definition not_gaze (rq : @Request float) : Prop :=
  forall g, rq <> SendGoal gaze_client g.

Definition tame {A} (m : M A) : Prop := hoare any_request m (fun _ => True).

(** The state when the plan's thread has moved on to [next]. *)
Definition moved (next : Thread) (st : @Robot float) : @Robot float :=
  set_say_to_plan (set_thread (Some next) (say_to_plan st)) st.

(** What holds of the requests and the plan's gaze handle while the plan's
    thread stands at each of its points. *)
Definition thread_inv (n0 : nat) (st : @Robot float) : Prop :=
  gaze_handle_ok (say_to_plan st)
  /\ n0 <= length (sent st)
  /\ match thread (say_to_plan st) with
     | Some AtStart | Some (AtGaze _) =>
         forall i rq, n0 <= i -> sent st !! i = Some rq -> fst rq <> FromExecute
     | Some AtWait =>
         no_thread_speech (sent st) n0
         /\ ((exists i rq, n0 <= i /\ sent st !! i = Some rq /\ thread_gazed rq) ->
             is_Some (gaze_ah (say_to_plan st)))
     | Some (Waiting ah) =>
         no_thread_speech (sent st) n0
         /\ exists oid, ah = SingleGoalActionHandle oid gaze_client
     | Some AtSay =>
         no_thread_speech (sent st) n0 /\ gaze_waited (sent st) n0
     | Some Finished | Some (Died _) | None => gaze_before_speech (sent st) n0
     end.

End Orderings.


(** *** What the loop of [parse_parameters] has seen

    The state of the word scanner at the end of a string, the words of an
    optional text, the [seen_text] of the loop after it has passed a list
    of nodes, and the words it has then counted: those of each node's text
    and, for nodes other than [sayto], tail. *)
Fixpoint state_after (st : WordScan.state) (s : string) : WordScan.state :=
  match s with
  | EmptyString => st
  | String c t => state_after (WordScan.next st c) t
  end.

Definition words_of (o : option string) : nat :=
  match o with
  | Some t => num_words t
  | None => 0
  end.

Fixpoint seen_text_after (nodes : list ET.Element) (seen_text : string) : string :=
  match nodes with
  | [] => seen_text
  | node :: rest =>
      if String.eqb (ET.tag node) "sayto" then
        seen_text_after rest (add_text seen_text (ET.text node))
      else
        seen_text_after rest
          (add_text (add_text seen_text (ET.text node)) (ET.tail node))
  end.

Fixpoint words_seen (nodes : list ET.Element) : nat :=
  match nodes with
  | [] => 0
  | node :: rest =>
      words_of (ET.text node)
      + (if String.eqb (ET.tag node) "sayto" then 0 else words_of (ET.tail node))
      + words_seen rest
  end.


(** *** Further notions *)

(** The text has none of the characters at which
    [get_gaze_change_locations] splits. *)
Fixpoint no_clause_end (s : string) : bool :=
  match s with
  | EmptyString => true
  | String c t => negb (WordScan.is_clause_end c) && no_clause_end t
  end.

(** A tag other than [sayto] that has a tail but no text: the node at
    which the loop of [get_sentence] adds [None] to a string. *)
Definition tail_without_text (node : ET.Element) : bool :=
  negb (String.eqb (ET.tag node) "sayto")
  && match ET.text node, ET.tail node with
     | None, Some _ => true
     | _, _ => false
     end.

(** The words a node contributes to the sentence of [get_sentence]: those
    of its text, once more when the node is a tag with a tail. *)
Definition spoken_words (node : ET.Element) : nat :=
  if String.eqb (ET.tag node) "sayto" then words_of (ET.text node)
  else match ET.tail node with
       | Some _ => words_of (ET.text node) + words_of (ET.text node)
       | None => words_of (ET.text node)
       end.


(** *** More of [world.py]: looking objects up *)

(** What a caller can hand [entity_from_entity_id]: a [str], or a value of
    another type. *)
Inductive IdValue : Type :=
| StrId (s : string)
| NotStr.

(** The two exceptions of [entity_from_entity_id]. *)
Inductive LookupError : Type :=
| IdTypeError
| IndexError (entity_id : string).

(** [World.entity_from_entity_id] *)
Definition entity_from_entity_id (self : World) (entity_id : IdValue)
  : WorldObject + LookupError :=
  match entity_id with
  | NotStr => inr IdTypeError
  | StrId id =>
      match entity_id_lookup self !! id with
      | Some o => inl o
      | None => inr (IndexError id)
      end
  end.

(** [World.to_entity_list_msg]: the message lists the identifiers. *)
Definition to_entity_list_msg (entities : list Entity) : list string :=
  get_id <$> entities.

Record IfQueryableExecuteResponse : Type :=
  mkIfQueryableExecuteResponse {
      is_queryable : bool;
      response_entities : list string }.

(** [World.if_queryable_execute_callback]; [results] is what the query
    returns if it is executed. *)
Definition if_queryable_execute_callback (self : World) (entity_id : string)
           (results : list Entity) : IfQueryableExecuteResponse + LookupError :=
  match entity_from_entity_id self (StrId entity_id) with
  | inl (IsQuery _) =>
      inl (mkIfQueryableExecuteResponse true (to_entity_list_msg results))
  | inl _ => inl (mkIfQueryableExecuteResponse false [])
  | inr e => inr e
  end.

(** A consistent registry: the entities listed have distinct identifiers,
    an entity is listed exactly when its identifier resolves to it, and
    every identifier resolves to an entity or a query that has it. *)
Definition world_ok (w : World) : Prop :=
  NoDup (get_id <$> entities w)
  /\ (forall e, e ∈ entities w
                <-> entity_id_lookup w !! get_id e = Some (IsEntity e))
  /\ (forall id o, entity_id_lookup w !! id = Some o ->
                   object_id o = id /\ registrable o).


(** Two plans that differ in their tables of expressions and gestures at
    most. *)
Definition same_but_tables {float : Type} (p p' : @SayToPlan float) : Prop :=
  audience p' = audience p
  /\ current_gazee p' = current_gazee p
  /\ sentence p' = sentence p
  /\ gaze_change_locations p' = gaze_change_locations p
  /\ say_ah p' = say_ah p
  /\ gaze_ah p' = gaze_ah p
  /\ other_ahs p' = other_ahs p
  /\ preempt_requested p' = preempt_requested p
  /\ thread p' = thread p.


(** *** Handles, registries and the states a robot reaches *)

(** The identity of a handle, and the goal handle of a multi-goal one. *)
Definition handle_oid (ah : ActionHandle) : nat :=
  match ah with
  | SingleGoalActionHandle oid _ => oid
  | MultiGoalActionHandle oid _ _ => oid
  | SayToActionHandle oid => oid
  end.

Definition handle_goal (ah : ActionHandle) : option nat :=
  match ah with
  | MultiGoalActionHandle _ _ gh => Some gh
  | _ => None
  end.

(** The outstanding handles once the handles [hs] have been removed, one
    after the other. *)
Definition retire (hs l : list ActionHandle) : list ActionHandle :=
  fold_left (fun l h => remove_first h l) hs l.

Section Reachable.

Context {float : Type} {PF : PyFloat float}.

(** The client that [Robot.do] sends a goal to. *)
Definition goal_client (goal : @Goal float) : Client :=
  match goal with
  | ATextToSpeechGoal _ => tts_client
  | ATargetGoal _ => gaze_client
  | AnExpressionGoal _ => expression_client
  | AGestureGoal _ => gesture_client
  end.

(** The outstanding handles are distinct objects, created before now, on
    goals created before now. *)
Definition handles_fresh (st : @Robot float) : Prop :=
  NoDup (handle_oid <$> action_handles st)
  /\ Forall (fun ah => handle_oid ah < next_oid st
                       /\ forall gh, handle_goal ah = Some gh -> gh < next_oid st)
            (action_handles st).

(** A method that keeps a property of the robot, however it ends. *)
Definition keeps {A} (I : @Robot float -> Prop) (m : M A) : Prop :=
  forall st, I st -> I (snd (m st)).

(** The states of a robot: the new robot, and what calls of say-to, say,
    gaze and do and the events around a plan make of a state. *)
Inductive reachable : @Robot float -> Prop :=
| reachable_new ee ge srv : reachable (new_robot ee ge srv)
| reachable_say_to text aud st :
    reachable st -> reachable (snd (say_to text aud st))
| reachable_say text st : reachable st -> reachable (snd (Robot_say text st))
| reachable_gaze target st :
    reachable st -> reachable (snd (Robot_gaze target st))
| reachable_do goals st : reachable st -> reachable (snd (do goals st))
| reachable_step st ev : reachable st -> reachable (step st ev).

(** The requests that cancel, respectively have waited for, the handles
    [hs], on behalf of [o]. *)
Definition cancels (o : Origin) (hs : list ActionHandle)
  : list (Origin * @Request float) :=
  (fun h => (o, CancelGoal h)) <$> hs.

Definition waits (o : Origin) (hs : list ActionHandle)
  : list (Origin * @Request float) :=
  (fun h => (o, WaitForResult h)) <$> hs.

End Reachable.


(** The person the plan's thread picks to gaze at first: the audience
    when it is an entity, else the first of the people the sorted query
    returns, if any. *)
Definition chosen (aud : Audience) (results : list Entity) : option Entity :=
  match aud with
  | AnEntity person => Some person
  | AQuery _ | AList _ =>
      match results with
      | person :: _ => Some person
      | [] => None
      end
  | NoAudience => None
  end.

(** A thread has ended. *)
Definition ended (t : Thread) : bool :=
  match t with
  | Finished | Died _ => true
  | _ => false
  end.

(** The plan's thread is the only one that runs: every thread that an
    earlier call of say-to started has ended. *)
Definition alone {float : Type} (st : @Robot float) : Prop :=
  Forall (fun t => ended t = true) (earlier st).

(** What a step of the plan's thread carries over: the sentence, the
    preemption flag and the speech handle. *)
Definition carried {float : Type} (st st' : @Robot float) : Prop :=
  sentence (say_to_plan st') = sentence (say_to_plan st)
  /\ preempt_requested (say_to_plan st') = preempt_requested (say_to_plan st)
  /\ say_ah (say_to_plan st') = say_ah (say_to_plan st).

(** *** Further scenarios *)
Module Further.

Import Scenario.
#[local] Existing Instance decimal.

(** A query for the people around, and a person without a head. *)
Definition people : Query := mkQuery "people".
Definition Q : Entity := mkEntity "Q" None.

(** [say_to("Hello, there", people)] has returned; and its thread has run
    to the end, the query having returned nobody. *)
Definition addressed_nobody : Robot :=
  snd (say_to "Hello, there" (AQuery people) robot0).
Definition nobody_spoken : Robot :=
  run addressed_nobody [Schedule []; Schedule []; Schedule []].

(** [say_to("Hello, there", Q)] has returned. *)
Definition addressed_headless : Robot :=
  snd (say_to "Hello, there" (AnEntity Q) robot0).

(** The handle of the speech in [spoken]. *)
Definition speech_handle : ActionHandle := SingleGoalActionHandle 2 tts_client.

(** A second say-to to P arrives when the greeting's thread has sent its
    gaze goal and not yet tested the gaze handle; then the thread of the
    greeting runs to its end, the thread of the second call not at all. *)
Definition overlapped : Robot :=
  snd (say_to "Bye" (AnEntity P) (run greeting [Schedule []; Schedule []])).
Definition overlapped_spoken : Robot :=
  run overlapped [ScheduleEarlier 0 []; ScheduleEarlier 0 []].

(** The greeting is preempted through its plan when its thread has picked
    P and issued nothing; a second say-to to P arrives; then the thread of
    the greeting runs to its end, the thread of the second call not at
    all. *)
Definition cancelled : Robot := run greeting [Schedule []; CallPlanCancel].
Definition revived : Robot := snd (say_to "Bye" (AnEntity P) cancelled).
Definition revived_spoken : Robot :=
  run revived [ScheduleEarlier 0 []; ScheduleEarlier 0 []; ScheduleEarlier 0 [];
               ScheduleEarlier 0 []].

End Further.


(** The person a feedback tick at a gaze-change location turns the gaze
    to: the audience when it is an entity; for a query the person drawn
    when it returns several people, the person when it returns one, and
    nobody when it returns none; nobody for any other audience. *)
Definition gazee (aud : Audience) (people : list Entity) (pick : nat)
  : option Entity :=
  match aud with
  | AnEntity person => Some person
  | AQuery _ =>
      if (1 <? length people)%nat then choice people pick
      else match people with
           | [person] => Some person
           | _ => None
           end
  | _ => None
  end.


(* ===================================================================== *)
(** * Properties                                                           *)
(* ===================================================================== *)

(** ** The word pattern *)
Module ReFacts.

Import Re WordScan.

Lemma drop_add (a b : nat) (s : string) : drop (a + b) s = drop b (drop a s).
Proof.
  revert s; induction a as [|a IH]; intros s; simpl.
  - by destruct s.
  - destruct s as [|c t]; simpl; [by destruct b | apply IH].
Qed.

Lemma drop_0 (s : string) : drop 0 s = s.
Proof. by destruct s. Qed.

Lemma drop_length_le (n : nat) (s : string) :
  String.length (drop n s) <= String.length s.
Proof.
  revert s; induction n as [|n IH]; intros [|c t]; simpl; try lia.
  specialize (IH t). lia.
Qed.

(** When the rest of the pattern always matches, a greedy run takes all
    it can. *)
Lemma m_star_total cls k g :
  (forall s, k s = Some (g s)) ->
  forall s, m_star cls k s
            = Some (run_length cls s + g (drop (run_length cls s) s)).
Proof.
  intros Hk s; induction s as [|c t IH]; simpl.
  - by rewrite Hk.
  - destruct (cls c); simpl; [by rewrite IH | by rewrite Hk].
Qed.

Lemma m_opt_total cls k g :
  (forall s, k s = Some (g s)) ->
  forall s, m_opt cls k s
            = Some (opt_length cls s + g (drop (opt_length cls s) s)).
Proof.
  intros Hk [|c t]; simpl; [by rewrite Hk |].
  destruct (cls c); simpl; by rewrite Hk.
Qed.

Lemma match_word_start c t :
  is_word c = true ->
  match_here [Plus is_word; Opt is_apostrophe; Star is_word; Opt is_mark]
             (String c t) = Some (S (word_length t)).
Proof.
  intros Hc.
  pose proof (m_opt_total is_mark (match_here []) (fun _ => 0)
                (fun _ => eq_refl)) as H3.
  pose proof (m_star_total is_word _ _ H3) as H2.
  pose proof (m_opt_total is_apostrophe _ _ H2) as H1.
  pose proof (m_star_total is_word _ _ H1 t) as H0.
  cbn [match_here m_plus]. rewrite Hc.
  exact (f_equal (fmap S) H0).
Qed.

Lemma match_word_none s :
  match s with String c _ => is_word c = false | EmptyString => True end ->
  match_here [Plus is_word; Opt is_apostrophe; Star is_word; Opt is_mark] s = None.
Proof. destruct s as [|c t]; simpl; [done | by intros ->]. Qed.

(** The classes of the word pattern are disjoint. *)
Lemma apostrophe_not_word c : is_apostrophe c = true -> is_word c = false.
Proof.
  unfold is_apostrophe, one_of; simpl. rewrite orb_false_r.
  by intros ->%Ascii.eqb_eq.
Qed.

Lemma mark_not_word c : is_mark c = true -> is_word c = false.
Proof.
  unfold is_mark, one_of; simpl. rewrite orb_false_r, !orb_true_iff.
  by intros [H|[H|[H|H]]]; apply Ascii.eqb_eq in H; subst c.
Qed.

Lemma mark_not_apostrophe c : is_mark c = true -> is_apostrophe c = false.
Proof.
  unfold is_mark, one_of; simpl. rewrite orb_false_r, !orb_true_iff.
  by intros [H|[H|[H|H]]]; apply Ascii.eqb_eq in H; subst c.
Qed.

Lemma run_stops cls t : stops cls (drop (run_length cls t) t).
Proof.
  induction t as [|c t IH]; simpl; [done |].
  destruct (cls c) eqn:Hc; simpl; [exact IH | exact Hc].
Qed.

Lemma scan_run_in_word t :
  scan InWord t = scan InWord (drop (run_length is_word t) t).
Proof.
  induction t as [|c t IH]; simpl; [done |].
  destruct (is_word c) eqn:Hc; simpl; [exact IH | by rewrite Hc].
Qed.

Lemma scan_run_after_apostrophe t :
  scan AfterApostrophe t
  = scan AfterApostrophe (drop (run_length is_word t) t).
Proof.
  induction t as [|c t IH]; simpl; [done |].
  destruct (is_word c) eqn:Hc; simpl; [exact IH | by rewrite Hc].
Qed.

(** Where the second run stops, the match takes one mark if there is one
    and ends. *)
Lemma scan_end_of_word (st : state) s :
  st <> Outside -> stops is_word s ->
  (st = InWord -> stops is_apostrophe s) ->
  scan st s = scan Outside (drop (opt_length is_mark s) s).
Proof.
  intros Hst Hw Ha. destruct s as [|x s']; simpl in *; [done |].
  destruct st; [done | specialize (Ha eq_refl) | ];
    destruct (is_mark x) eqn:Hm; simpl; rewrite ?Hw, ?Ha; done.
Qed.

Lemma scan_word t :
  scan InWord t = scan Outside (drop (word_length t) t).
Proof.
  unfold word_length. rewrite !drop_add, drop_0, scan_run_in_word.
  pose proof (run_stops is_word t) as Hs1.
  destruct (drop (run_length is_word t) t) as [|x s'] eqn:E; [done |].
  simpl in Hs1. cbn [opt_length].
  destruct (is_apostrophe x) eqn:Hx.
  - cbn [drop scan next starts]. rewrite Hs1, Hx. simpl.
    rewrite scan_run_after_apostrophe.
    apply scan_end_of_word; [done | apply run_stops | done].
  - cbn [drop run_length]. rewrite Hs1. cbn [drop].
    apply scan_end_of_word; [done | done | done].
Qed.

Lemma word_length_le t : word_length t <= String.length t.
Proof.
  assert (Hrun : forall cls s,
             run_length cls s + String.length (drop (run_length cls s) s)
             = String.length s).
  { intros cls s; induction s as [|c s IH]; simpl; [done |].
    destruct (cls c); simpl; lia. }
  assert (Hopt : forall cls s,
             opt_length cls s + String.length (drop (opt_length cls s) s)
             = String.length s).
  { intros cls [|c s]; simpl; [done |]. destruct (cls c); simpl; lia. }
  unfold word_length.
  pose proof (Hrun is_word t) as H1.
  set (s1 := drop (run_length is_word t) t) in *.
  pose proof (Hopt is_apostrophe s1) as H2.
  set (s2 := drop (opt_length is_apostrophe s1) s1) in *.
  pose proof (Hrun is_word s2) as H3.
  set (s3 := drop (run_length is_word s2) s2) in *.
  pose proof (Hopt is_mark s3) as H4.
  lia.
Qed.

(** Passing the rest of a match is dropping it. *)
Lemma findall_from_skip p k s :
  match_here p EmptyString = None ->
  findall_from p k s = findall_from p 0 (drop k s).
Proof.
  intros Hp. revert s; induction k as [|k IH]; intros s.
  - by destruct s.
  - destruct s as [|c t]; simpl; [by rewrite Hp | apply IH].
Qed.

Lemma findall_words_scan_bounded n s :
  String.length s <= n ->
  length (findall_from
            [Plus is_word; Opt is_apostrophe; Star is_word; Opt is_mark] 0 s)
  = scan Outside s.
Proof.
  revert s; induction n as [|n IH]; intros s Hn.
  - destruct s; [done | simpl in Hn; lia].
  - destruct s as [|c t]; [done |].
    destruct (is_word c) eqn:Hc.
    + cbn [findall_from]. rewrite (match_word_start c t Hc).
      cbn [length pred scan starts next]. rewrite Hc.
      rewrite findall_from_skip by done.
      rewrite IH, scan_word; [done |].
      pose proof (drop_length_le (word_length t) t). simpl in Hn. lia.
    + cbn [findall_from]. rewrite (match_word_none (String c t)) by done.
      cbn [scan starts next]. rewrite Hc. simpl.
      apply IH. simpl in Hn. lia.
Qed.

End ReFacts.

(** ** Words and gaze-change locations *)
Module Words.

Import Re WordScan ReFacts.

(** [num_words] counts what the scanner counts. *)
Lemma num_words_scan text : num_words text = scan Outside text.
Proof.
  unfold num_words, findall, valid_words_regex.
  by apply (findall_words_scan_bounded (String.length text)).
Qed.

Lemma clause_end_is_mark c : is_clause_end c = is_mark c.
Proof.
  unfold is_clause_end, is_mark, one_of; simpl.
  destruct (Ascii.eqb c "!"), (Ascii.eqb c "?"), (Ascii.eqb c ","),
    (Ascii.eqb c "."); reflexivity.
Qed.

(** After a clause end the scanner is outside a word, wherever it was. *)
Lemma scan_clause_end st c t :
  is_clause_end c = true -> scan st (String c t) = scan Outside t.
Proof.
  rewrite clause_end_is_mark. intros Hm.
  pose proof (mark_not_word c Hm) as Hw.
  pose proof (mark_not_apostrophe c Hm) as Ha.
  destruct st; simpl; by rewrite ?Hw, ?Ha.
Qed.

Lemma split_clause_step c t :
  split [One is_clause_end] (String c t)
  = if is_clause_end c then EmptyString :: split [One is_clause_end] t
    else match split [One is_clause_end] t with
         | piece :: rest => String c piece :: rest
         | [] => [String c EmptyString]
         end.
Proof.
  unfold split. cbn [split_from match_here m_one].
  destruct (is_clause_end c); reflexivity.
Qed.

(** Splitting at clause ends loses no word and makes none. *)
Lemma scan_split st text :
  match split [One is_clause_end] text with
  | piece :: rest => scan st text = scan st piece + total_words rest
  | [] => False
  end.
Proof.
  revert st; induction text as [|c t IH]; intros st; [simpl; lia |].
  rewrite split_clause_step.
  destruct (is_clause_end c) eqn:Hc.
  - rewrite scan_clause_end by done. specialize (IH Outside).
    destruct (split _ t); [done |]. simpl. lia.
  - specialize (IH (next st c)).
    destruct (split _ t); [done |]. simpl. lia.
Qed.

Lemma gaze_change_loop_keeps sentences locs len k :
  is_Some (locs !! k) ->
  is_Some (gaze_change_loop sentences locs len !! k).
Proof.
  revert locs len; induction sentences as [|s r IH]; intros locs len H;
    simpl; [done |].
  apply IH. rewrite lookup_insert. case_decide; [by eexists | done].
Qed.

Lemma gaze_change_loop_last sentences locs len :
  sentences <> [] ->
  is_Some (gaze_change_loop sentences locs len
             !! (len + total_words sentences + 1)).
Proof.
  revert locs len; induction sentences as [|s r IH]; intros locs len Hne;
    [done |].
  cbn [gaze_change_loop total_words foldr]. rewrite num_words_scan.
  destruct r as [|s' r'].
  - simpl. rewrite Nat.add_0_r, lookup_insert_eq. by eexists.
  - specialize (IH (<[len + scan Outside s + 1 := ""]> locs)
                   (len + scan Outside s) ltac:(done)).
    fold (total_words (s' :: r')).
    by replace (len + (scan Outside s + total_words (s' :: r')) + 1)
      with (len + scan Outside s + total_words (s' :: r') + 1) by lia.
Qed.

(** C10. For every sentence, the gaze-change locations contain the index
    one past the last word, [num_words text + 1]: the loop records
    [length + 1] after every clause that splitting at [,.?!] yields,
    the last one included, and the clauses have the words of the
    sentence between them. *)
Theorem trailing_gaze_change_location (text : string) :
  is_Some (get_gaze_change_locations text !! (num_words text + 1)).
Proof.
  unfold get_gaze_change_locations.
  pose proof (scan_split Outside text) as Hsplit.
  pose proof (gaze_change_loop_last
                (split [One (one_of ",.?!")] text) ∅ 0) as Hlast.
  change (one_of ",.?!") with is_clause_end in *.
  destruct (split [One is_clause_end] text) as [|piece rest] eqn:E;
    [done |].
  specialize (Hlast ltac:(done)).
  rewrite num_words_scan, Hsplit.
  exact Hlast.
Qed.

End Words.

(** ** The entity registry *)
Module Registry.

Lemma add_to_world_present (w : World) (o : WorldObject) :
  registrable o ->
  is_Some (entity_id_lookup w !! object_id o) ->
  add_to_world w o = Ok w.
Proof.
  intros Hr [x Hx]. destruct o as [e|q|id]; [| |done];
    unfold add_to_world; simpl in *; by rewrite Hx.
Qed.

Lemma add_to_world_registers (w : World) (o : WorldObject) :
  registrable o ->
  exists w1, add_to_world w o = Ok w1
             /\ is_Some (entity_id_lookup w1 !! object_id o)
             /\ forall x, entity_id_lookup w !! object_id o = Some x ->
                          entity_id_lookup w1 !! object_id o = Some x.
Proof.
  intros Hr. destruct o as [e|q|id]; [| |done];
    unfold add_to_world; simpl;
    (destruct (entity_id_lookup w !! _) as [x|] eqn:Hx;
     [ exists w; rewrite Hx; eauto
     | eexists; split; [reflexivity |]; simpl; rewrite lookup_insert_eq;
       split; [by eexists | done] ]).
Qed.

(** C9. Registering an entity (or a query) whose id is already in the
    registry changes nothing: the world, and so the object the id maps
    to, stay as they are.  Hence the first registration of an id is the
    one that counts, and registering twice is registering once. *)
Theorem add_to_world_idempotent (w : World) (o : WorldObject) :
  registrable o ->
  (is_Some (entity_id_lookup w !! object_id o) -> add_to_world w o = Ok w)
  /\ exists w1,
      add_to_world w o = Ok w1
      /\ add_to_world w1 o = Ok w1
      /\ (forall o', registrable o' -> object_id o' = object_id o ->
                     add_to_world w1 o' = Ok w1)
      /\ (forall x, entity_id_lookup w !! object_id o = Some x ->
                    entity_id_lookup w1 !! object_id o = Some x).
Proof.
  intros Hr. split; [by apply add_to_world_present |].
  destruct (add_to_world_registers w o Hr) as (w1 & H1 & Hin & Hkeep).
  exists w1. repeat split; [done | | | done].
  - by apply add_to_world_present.
  - intros o' Hr' Hid. apply add_to_world_present; [done |].
    by rewrite Hid.
Qed.

(** The registry holds P; a second object with P's id is offered. *)
Lemma add_to_world_idempotent_witness :
  let w := mkWorld [Scenario.P] {[ "P" := IsEntity Scenario.P ]} in
  let o := IsEntity (mkEntity "P" None) in
  registrable o
  /\ add_to_world w o = Ok w
  /\ entity_id_lookup w !! "P" = Some (IsEntity Scenario.P).
Proof.
  intros w o.
  destruct (add_to_world_idempotent w o I) as [Hpresent _].
  split; [exact I |]. split; [| reflexivity].
  apply Hpresent. by eexists.
Defined.

End Registry.

(** ** Compiling annotated text *)
Section Compile.

Context {float : Type} {PF : PyFloat float}.

Import Scenario.

Lemma tagged_parses : ET.fromstring (wrap tagged) = Ok tagged_tree.
Proof. vm_compute. reflexivity. Qed.

Lemma tagged_sentence : get_sentence tagged = Ok "Hi Hi there".
Proof. vm_compute. reflexivity. Qed.

(** C4, amended. Compiling the tagged utterance of the specification,
    with happy an expression name and wave a gesture name (and not an
    expression name), succeeds and yields an expression table whose entry
    at word index 0 has name happy, intensity 0.8 (the float that 0.8
    converts to) and speed 0.5, and a gesture table whose entry at word
    index 1 has name wave and target P: an entry is stored at the number
    of words seen before its tag. *)
Theorem tagged_utterance_tables
        (expression_enum gesture_enum : list string) (srv : DurationSrv)
        (audience : Audience) (self : SayToPlan) (x : float) :
  enum_contains expression_enum "happy" = true ->
  enum_contains expression_enum "wave" = false ->
  enum_contains gesture_enum "wave" = true ->
  is_entity_or_query audience = true ->
  float_of_str "0.8" = Some x ->
  (forall s a b, is_Some (srv s a b)) ->
  exists p,
    parse_parameters self tagged audience expression_enum gesture_enum srv
    = (Ok (), p)
    /\ (exists g, expression_lookup p !! 0 = Some g
                  /\ expression g = "happy"
                  /\ intensity g = x /\ speed g = lit_0_5)
    /\ (exists g, gesture_lookup p !! 1 = Some g
                  /\ gesture g = "wave" /\ target g = "P").
Proof.
  intros Hhappy Hwave_e Hwave_g Haud Hx Hsrv.
  unfold parse_parameters. rewrite Haud. cbn [assert_types].
  rewrite tagged_sentence, tagged_parses.
  set (q := set_gaze_change_locations _ _).
  change (ET.iter tagged_tree) with [tagged_tree; happy_node; wave_node].
  cbn [parse_loop]. 
  change (String.eqb (ET.tag tagged_tree) "sayto") with true.
  change (String.eqb (ET.tag happy_node) "sayto") with false.
  change (String.eqb (ET.tag wave_node) "sayto") with false.
  cbn iota.
  change (add_text "" (ET.text tagged_tree)) with "".
  change (num_words "") with 0.
  change (add_text "" (ET.text happy_node)) with "Hi ".
  change (num_words "Hi ") with 1.
  change (add_text "Hi " (ET.tail happy_node)) with "Hi   ".
  change (num_words "Hi   ") with 1.
  change (add_text "Hi   " (ET.text wave_node)) with "Hi   there ".
  change (num_words "Hi   there ") with 2.
  unfold parse_node at 1.
  change (ET.tag happy_node) with "happy". rewrite Hhappy.
  unfold float_attrib.
  change (ET.attrib happy_node !! "intensity") with (Some "0.8").
  change (ET.attrib happy_node !! "speed") with (@None string).
  cbv beta iota. rewrite Hx.
  destruct (Hsrv (sentence q) 0 1) as [d1 Hd1]. rewrite Hd1.
  unfold parse_node.
  change (ET.tag wave_node) with "wave". rewrite Hwave_e, Hwave_g.
  change (ET.attrib wave_node !! "target") with (Some "P").
  cbv beta iota.
  set (q1 := set_expression_lookup _ q).
  destruct (Hsrv (sentence q1) 1 2) as [d2 Hd2]. rewrite Hd2.
  eexists. split; [reflexivity |]. split.
  - eexists. split; [apply lookup_insert_eq | done].
  - eexists. split; [apply lookup_insert_eq | done].
Qed.

(** *** The word indices of a tag *)

Lemma scan_app st a b :
  WordScan.scan st (a ++ b)
  = WordScan.scan st a + WordScan.scan (state_after st a) b.
Proof.
  revert st; induction a as [|c a IH]; intros st; [done |].
  change (WordScan.scan st (String c (a ++ b))
          = WordScan.scan st (String c a)
            + WordScan.scan (state_after (WordScan.next st c) a) b).
  cbn [WordScan.scan]. rewrite IH. lia.
Qed.

Lemma state_after_app st a b :
  state_after st (a ++ b) = state_after (state_after st a) b.
Proof.
  revert st; induction a as [|c a IH]; intros st; [done |].
  exact (IH (WordScan.next st c)).
Qed.

(** Every text the loop adds ends with a space, which ends a word. *)
Lemma add_text_words seen o :
  state_after WordScan.Outside seen = WordScan.Outside ->
  num_words (add_text seen o) = num_words seen + words_of o
  /\ state_after WordScan.Outside (add_text seen o) = WordScan.Outside.
Proof.
  intros Hout. destruct o as [t|]; cbn [add_text words_of]; [| split; [lia | done]].
  rewrite !Words.num_words_scan, !scan_app, !state_after_app, Hout. split.
  - assert (forall st, WordScan.scan st " " = 0) as ->
        by (intros []; reflexivity).
    lia.
  - by destruct (state_after WordScan.Outside t).
Qed.

Lemma seen_text_words nodes seen :
  state_after WordScan.Outside seen = WordScan.Outside ->
  num_words (seen_text_after nodes seen) = num_words seen + words_seen nodes
  /\ state_after WordScan.Outside (seen_text_after nodes seen) = WordScan.Outside.
Proof.
  revert seen; induction nodes as [|n rest IH]; intros seen Hout;
    cbn [seen_text_after words_seen]; [split; [lia | done] |].
  destruct (add_text_words seen (ET.text n) Hout) as [H1 H1'].
  destruct (String.eqb (ET.tag n) "sayto").
  - destruct (IH _ H1') as [H2 H2']. split; [lia | done].
  - destruct (add_text_words _ (ET.tail n) H1') as [H3 H3'].
    destruct (IH _ H3') as [H2 H2']. split; [lia | done].
Qed.

Lemma parse_loop_app before rest ee ge srv seen (self : SayToPlan) :
  parse_loop (before ++ rest) ee ge srv seen self
  = match parse_loop before ee ge srv seen self with
    | (Ok _, self1) =>
        parse_loop rest ee ge srv (seen_text_after before seen) self1
    | other => other
    end.
Proof.
  revert seen self; induction before as [|n before IH]; intros seen self;
    cbn [app parse_loop seen_text_after]; [done |].
  destruct (String.eqb (ET.tag n) "sayto"); [apply IH |].
  destruct (parse_node n ee ge srv _ _ self); [apply IH | done | done].
Qed.

(** X7. The word indices the loop computes for a tag: [start_word_i] is the
    number of words in the text and tails of the nodes visited before it,
    and [end_word_i] adds the words of the tag's own text.  For a tag that
    is not nested and has no nested tags, these are the words before the
    tag and the words inside it; for nested tags they are not, the tail of
    an enclosing tag being visited before the tags inside it. *)
Lemma word_indices_of_a_tag before node after ee ge srv (self : SayToPlan) :
  String.eqb (ET.tag node) "sayto" = false ->
  parse_loop (before ++ node :: after) ee ge srv "" self
  = match parse_loop before ee ge srv "" self with
    | (Ok _, self1) =>
        match parse_node node ee ge srv
                (words_seen before)
                (words_seen before + words_of (ET.text node)) self1 with
        | Ok self2 =>
            parse_loop after ee ge srv
              (seen_text_after (before ++ [node]) "") self2
        | Raise e => (Raise e, self1)
        | Blocks => (Blocks, self1)
        end
    | other => other
    end.
Proof.
  intros Htag. rewrite parse_loop_app.
  destruct (parse_loop before ee ge srv "" self) as [[[]|e|] self1];
    [| done | done].
  cbn [parse_loop]. rewrite Htag.
  destruct (seen_text_words before "" eq_refl) as [Hstart Hout].
  destruct (add_text_words _ (ET.text node) Hout) as [Hend _].
  change (num_words "") with 0 in Hstart. cbn [Nat.add] in Hstart.
  rewrite Hend, Hstart.
  destruct (parse_node node ee ge srv _ _ self1); [| done | done].
  f_equal.
  assert (forall l seen, seen_text_after (l ++ [node]) seen
                         = add_text (add_text (seen_text_after l seen)
                                              (ET.text node)) (ET.tail node))
    as Hsnoc.
  { induction l as [|n l IH]; intros seen; cbn [app seen_text_after].
    - by rewrite Htag.
    - destruct (String.eqb (ET.tag n) "sayto"); apply IH. }
  by rewrite Hsnoc.
Qed.

(** *** Tags that do not compile *)

Lemma parse_node_not_blocks node ee ge srv a b (self : SayToPlan) :
  parse_node node ee ge srv a b self <> Blocks.
Proof.
  unfold parse_node, float_attrib.
  repeat (case_match; try done).
Qed.

Lemma parse_node_bad node ee ge srv a b (self : SayToPlan) e :
  bad_tag ee ge node = Some e ->
  parse_node node ee ge srv a b self = Raise e.
Proof.
  unfold bad_tag, parse_node. intros H.
  repeat (case_match; try done); congruence.
Qed.

Lemma parse_node_ok node ee ge srv a b (self self' : SayToPlan) :
  String.eqb (ET.tag node) "sayto" = false ->
  parse_node node ee ge srv a b self = Ok self' ->
  bad_tag ee ge node = None.
Proof.
  unfold bad_tag, parse_node. intros -> H.
  repeat (case_match; try done).
Qed.

Lemma parse_node_compiles node ee ge srv a b (self : SayToPlan) :
  (forall s a b, is_Some (srv s a b)) ->
  String.eqb (ET.tag node) "sayto" = false ->
  compiles ee ge node ->
  exists self', parse_node node ee ge srv a b self = Ok self'.
Proof.
  intros Hsrv Htag [Hbad Hfloat]. unfold parse_node.
  unfold bad_tag in Hbad. rewrite Htag in Hbad.
  destruct (Hsrv (sentence self) a b) as [d Hd]. rewrite Hd.
  destruct (enum_contains ee (ET.tag node)) eqn:He.
  - destruct (Hfloat Htag eq_refl) as [Hi Hs].
    unfold float_ok in Hi, Hs. unfold float_attrib.
    destruct (ET.attrib node !! "intensity") as [vi|];
      destruct (ET.attrib node !! "speed") as [vs|];
      repeat match goal with
             | H : is_Some (float_of_str _) |- _ =>
                 let y := fresh "y" in
                 let Hy := fresh "Hy" in
                 destruct H as [y Hy]; rewrite Hy
             end; eauto.
  - destruct (enum_contains ge (ET.tag node)); [| done].
    destruct (ET.attrib node !! "target"); [eauto | done].
Qed.

(** A list of nodes with an offending tag in it is never compiled to the
    end. *)
Lemma parse_loop_bad nodes ee ge srv seen (self : SayToPlan) :
  (exists node, node ∈ nodes /\ is_Some (bad_tag ee ge node)) ->
  exists e p, parse_loop nodes ee ge srv seen self = (Raise e, p).
Proof.
  revert seen self; induction nodes as [|n rest IH];
    intros seen self (node & Hin & Hbad).
  - by apply elem_of_nil in Hin.
  - cbn [parse_loop].
    destruct (String.eqb (ET.tag n) "sayto") eqn:Htag.
    + apply IH. exists node. split; [| done].
      apply elem_of_cons in Hin as [-> | Hin]; [| done].
      unfold bad_tag in Hbad. rewrite Htag in Hbad. by destruct Hbad.
    + destruct (parse_node n ee ge srv _ _ self) as [self'| e |] eqn:Hn.
      * apply IH. exists node. split; [| done].
        apply elem_of_cons in Hin as [-> | Hin]; [| done].
        rewrite (parse_node_ok _ _ _ _ _ _ _ _ Htag Hn) in Hbad.
        by destruct Hbad.
      * eauto.
      * by apply parse_node_not_blocks in Hn.
Qed.

(** The first offending tag decides the exception when the tags before it
    compile. *)
Lemma parse_loop_first_bad before node after ee ge srv seen (self : SayToPlan) e :
  (forall s a b, is_Some (srv s a b)) ->
  Forall (compiles ee ge) before ->
  bad_tag ee ge node = Some e ->
  exists p, parse_loop (before ++ node :: after) ee ge srv seen self
            = (Raise e, p).
Proof.
  intros Hsrv Hbefore Hbad. revert seen self.
  induction Hbefore as [|n rest Hn Hrest IH]; intros seen self.
  - cbn [app parse_loop].
    assert (String.eqb (ET.tag node) "sayto" = false) as ->.
    { unfold bad_tag in Hbad. by destruct (String.eqb (ET.tag node) "sayto"). }
    rewrite (parse_node_bad _ _ _ _ _ _ _ _ Hbad). eauto.
  - cbn [app parse_loop].
    destruct (String.eqb (ET.tag n) "sayto") eqn:Htag; [apply IH |].
    destruct (parse_node_compiles n ee ge srv (num_words seen)
                (num_words (add_text seen (ET.text n))) self Hsrv Htag Hn)
      as [self' ->].
    apply IH.
Qed.

Lemma parse_loop_thread nodes ee ge srv seen (self : SayToPlan) :
  thread (snd (parse_loop nodes ee ge srv seen self)) = thread self.
Proof.
  revert seen self; induction nodes as [|n rest IH]; intros seen self;
    cbn [parse_loop]; [done |].
  destruct (String.eqb (ET.tag n) "sayto"); [apply IH |].
  destruct (parse_node n ee ge srv _ _ self) as [self'| e |] eqn:Hn;
    [| done | done].
  rewrite IH. unfold parse_node in Hn.
  repeat (case_match; try done); by inversion Hn.
Qed.

(** [parse_parameters] leaves the plan without a thread: it resets the
    plan and starts none. *)
Lemma parse_parameters_thread (self : SayToPlan) text audience ee ge srv :
  thread (snd (parse_parameters self text audience ee ge srv)) = None.
Proof.
  unfold parse_parameters.
  repeat (case_match; try done).
  by rewrite parse_loop_thread.
Qed.

Lemma commands_sent_other (st : Robot) (rq : Origin * @Request float) :
  is_command rq = false ->
  filter (fun rq => is_command rq = true) (sent st ++ [rq])%list = commands st.
Proof.
  intros H. unfold commands. rewrite filter_app, filter_cons_False, filter_nil.
  - apply app_nil_r.
  - by rewrite H.
Qed.

(** The thread that outlives a reset changes nothing else. *)
Lemma outlive_same (st : @Robot float) :
  say_to_plan (outlive st) = say_to_plan st
  /\ sent (outlive st) = sent st
  /\ action_handles (outlive st) = action_handles st
  /\ expression_enum (outlive st) = expression_enum st
  /\ gesture_enum (outlive st) = gesture_enum st
  /\ tts_duration_srv (outlive st) = tts_duration_srv st
  /\ control (outlive st) = control st
  /\ next_oid (outlive st) = next_oid st
  /\ world (outlive st) = world st.
Proof. unfold outlive. by destruct (thread (say_to_plan st)). Qed.

(** When [parse_parameters] raises, [say_to] raises the same exception,
    having sent nothing but, the first time, the wait for the timing
    service. *)
Lemma say_to_raises text audience (st : Robot) :
  is_audience audience = true ->
  exists st1,
    commands st1 = commands st
    /\ action_handles st1 = action_handles st
    /\ expression_enum st1 = expression_enum st
    /\ gesture_enum st1 = gesture_enum st
    /\ tts_duration_srv st1 = tts_duration_srv st
    /\ forall e p,
        parse_parameters (say_to_plan st1) text audience (expression_enum st)
                         (gesture_enum st) (tts_duration_srv st) = (Raise e, p) ->
        say_to text audience st = (Raise e, set_say_to_plan p st1).
Proof.
  intros Haud. unfold say_to, bind, get, ret, request, modify, lift.
  rewrite Haud. cbn [assert_types].
  destruct (tts_duration_found st) eqn:Hf.
  - exists (outlive st).
    destruct (outlive_same st) as (Hp & Hs & Ha & He & Hg & Hsrv & _).
    unfold commands. rewrite Hs, Ha, He, Hg, Hsrv, Hp.
    repeat split. intros e p Hpp. by rewrite Hpp.
  - set (st' := set_tts_duration_found true
                  (set_sent (sent st ++ [(control st, WaitForService)]) st)).
    exists (outlive st').
    destruct (outlive_same st') as (Hp & Hs & Ha & He & Hg & Hsrv & _).
    unfold commands at 1. rewrite Hs, Ha, He, Hg, Hsrv, Hp.
    split; [by apply commands_sent_other |].
    repeat split. intros e p Hpp.
    change (say_to_plan st') with (say_to_plan st) in *.
    change (expression_enum st') with (expression_enum st).
    change (gesture_enum st') with (gesture_enum st).
    change (tts_duration_srv st') with (tts_duration_srv st).
    by rewrite Hpp.
Qed.

Lemma sentence_loop_not_blocks nodes text : sentence_loop nodes text <> Blocks.
Proof.
  revert text; induction nodes as [|n rest IH]; intros text;
    cbn [sentence_loop]; [done |].
  repeat (case_match; try done); apply IH.
Qed.

Lemma fromstring_not_blocks s : ET.fromstring s <> Blocks.
Proof.
  unfold ET.fromstring. cbv zeta.
  generalize ((if ET.all_chars (ET.newlines s)
               then ET.lex (S (String.length (ET.newlines s))) (ET.newlines s)
               else None)
                ≫= (fun toks => ET.build toks [] None)).
  intros [e|]; discriminate.
Qed.

Lemma get_sentence_not_blocks text : get_sentence text <> Blocks.
Proof.
  unfold get_sentence.
  destruct (ET.fromstring (wrap text)) as [tree|e|] eqn:Ht; [| done |].
  - pose proof (sentence_loop_not_blocks (ET.iter tree) "") as Hl.
    by destruct (sentence_loop (ET.iter tree) "").
  - by apply fromstring_not_blocks in Ht.
Qed.

Lemma parse_parameters_bad (self : SayToPlan) text audience ee ge srv tree :
  ET.fromstring (wrap text) = Ok tree ->
  (exists node, node ∈ ET.iter tree /\ is_Some (bad_tag ee ge node)) ->
  exists e p, parse_parameters self text audience ee ge srv = (Raise e, p).
Proof.
  intros Htree Hbad. unfold parse_parameters.
  destruct (assert_types (is_entity_or_query audience)) as [[]|e|] eqn:Ha;
    [| eauto | by destruct (is_entity_or_query audience)].
  destruct (get_sentence text) as [s|e|] eqn:Hs;
    [| eauto | by apply get_sentence_not_blocks in Hs].
  rewrite Htree. by apply parse_loop_bad.
Qed.

Lemma parse_parameters_first_bad (self : SayToPlan) text audience ee ge srv
      tree before node after e :
  is_entity_or_query audience = true ->
  returns (get_sentence text) ->
  (forall s a b, is_Some (srv s a b)) ->
  ET.fromstring (wrap text) = Ok tree ->
  ET.iter tree = (before ++ node :: after)%list ->
  Forall (compiles ee ge) before ->
  bad_tag ee ge node = Some e ->
  exists p, parse_parameters self text audience ee ge srv = (Raise e, p).
Proof.
  intros Haud Hs Hsrv Htree Hiter Hbefore Hbad. unfold parse_parameters.
  rewrite Haud. cbn [assert_types].
  destruct (get_sentence text) as [s| |]; [| done | done].
  rewrite Htree, Hiter. by apply parse_loop_first_bad.
Qed.

(** C6, amended. Let the text be a well-formed fragment and the audience
    an entity, a query or a list.  (1) If some tag other than sayto is a
    gesture tag without a target attribute, or has a name in neither
    vocabulary, the say-to call raises; it issues no actuator command,
    registers no handle and starts no thread for the plan.  (2) When the
    audience is an entity or a query, the sentence is extracted, the timing
    service answers, and the tags before the first such tag compile, the
    exception is that tag's: the missing-target error naming it, or the
    unknown-tag error naming it. *)
Theorem say_to_rejects_bad_tags (st : Robot) text audience tree :
  ET.fromstring (wrap text) = Ok tree ->
  is_audience audience = true ->
  ((exists node, node ∈ ET.iter tree
                 /\ is_Some (bad_tag (expression_enum st) (gesture_enum st) node)) ->
   exists e st',
     say_to text audience st = (Raise e, st')
     /\ commands st' = commands st
     /\ action_handles st' = action_handles st
     /\ thread (say_to_plan st') = None)
  /\ (forall before node after e,
        is_entity_or_query audience = true ->
        returns (get_sentence text) ->
        (forall s a b, is_Some (tts_duration_srv st s a b)) ->
        ET.iter tree = (before ++ node :: after)%list ->
        Forall (compiles (expression_enum st) (gesture_enum st)) before ->
        bad_tag (expression_enum st) (gesture_enum st) node = Some e ->
        exists st',
          say_to text audience st = (Raise e, st')
          /\ commands st' = commands st
          /\ action_handles st' = action_handles st
          /\ thread (say_to_plan st') = None).
Proof.
  intros Htree Haud.
  destruct (say_to_raises text audience st Haud)
    as (st1 & Hcmd & Hah & _ & _ & _ & Hraise).
  split.
  - intros Hbad.
    destruct (parse_parameters_bad (say_to_plan st1) text audience
                (expression_enum st) (gesture_enum st) (tts_duration_srv st)
                tree Htree Hbad) as (e & p & Hp).
    exists e, (set_say_to_plan p st1). split; [by apply Hraise |].
    split; [done |]. split; [done |].
    cbn [say_to_plan set_say_to_plan].
    pose proof (parse_parameters_thread (say_to_plan st1) text audience
                  (expression_enum st) (gesture_enum st) (tts_duration_srv st))
      as Hth.
    by rewrite Hp in Hth.
  - intros before node after e Haud' Hs Hsrv Hiter Hbefore Hbad.
    destruct (parse_parameters_first_bad (say_to_plan st1) text audience
                (expression_enum st) (gesture_enum st) (tts_duration_srv st)
                tree before node after e Haud' Hs Hsrv Htree Hiter Hbefore Hbad)
      as (p & Hp).
    exists (set_say_to_plan p st1). split; [by apply Hraise |].
    split; [done |]. split; [done |].
    cbn [say_to_plan set_say_to_plan].
    pose proof (parse_parameters_thread (say_to_plan st1) text audience
                  (expression_enum st) (gesture_enum st) (tts_duration_srv st))
      as Hth.
    by rewrite Hp in Hth.
Qed.

End Compile.

Module CompileScenario.

Import Scenario.

(** With the decimal reading of floats, vocabularies of one name each
    and a service that answers one second. *)
Lemma tagged_utterance_tables_witness :
  exists p,
    parse_parameters (PF := decimal) new_plan tagged (AnEntity P)
                     ["happy"] ["wave"] one_second = (Ok (), p)
    /\ (exists g, expression_lookup p !! 0 = Some g
                  /\ expression g = "happy"
                  /\ intensity g = 0.8%Q /\ speed g = 0.5%Q)
    /\ (exists g, gesture_lookup p !! 1 = Some g
                  /\ gesture g = "wave" /\ target g = "P").
Proof.
  apply (tagged_utterance_tables (PF := decimal) ["happy"] ["wave"]
           one_second (AnEntity P) new_plan 0.8%Q);
    try reflexivity.
  intros s a b. by eexists.
Defined.

(** What the compilation yields for the sentence and at the indices the
    specification names. *)
Lemma tagged_utterance_compiled :
  let p := snd (parse_parameters (PF := decimal) new_plan tagged (AnEntity P)
                                 ["happy"] ["wave"] one_second) in
  sentence p = "Hi Hi there"
  /\ expression_lookup p !! 1 = None
  /\ gesture_lookup p !! 2 = None.
Proof. vm_compute. done. Qed.

(** C4 as stated fails: on the tagged utterance the compiled sentence is
    not Hi there, and the tables have no entries at word indices 1 (for
    the expression) and 2 (for the gesture). *)
Lemma tagged_utterance_not_as_stated :
  ~ exists p,
      parse_parameters (PF := decimal) new_plan tagged (AnEntity P)
                       ["happy"] ["wave"] one_second = (Ok (), p)
      /\ sentence p = "Hi there"
      /\ (exists g, expression_lookup p !! 1 = Some g
                    /\ expression g = "happy"
                    /\ intensity g = 0.8%Q /\ speed g = 0.5%Q)
      /\ (exists g, gesture_lookup p !! 2 = Some g
                    /\ gesture g = "wave" /\ target g = "P").
Proof.
  intros (p & Hp & Hs & _).
  destruct tagged_utterance_compiled as [H _].
  rewrite Hp in H. cbn [snd] in H. rewrite Hs in H. discriminate H.
Qed.

(** The gesture tag without a target, said to P. *)
Lemma say_to_rejects_bad_tags_witness :
  exists st',
    say_to (PF := decimal) untargeted (AnEntity P) robot0
    = (Raise (missing_target "wave"), st')
    /\ commands st' = commands robot0
    /\ action_handles st' = action_handles robot0
    /\ thread (say_to_plan st') = None.
Proof.
  assert (ET.fromstring (wrap untargeted) = Ok untargeted_tree) as Htree
      by (vm_compute; reflexivity).
  destruct (say_to_rejects_bad_tags (PF := decimal) robot0 untargeted
              (AnEntity P) untargeted_tree Htree eq_refl) as [_ Hfirst].
  apply (Hfirst [untargeted_tree]
                (ET.mkElement "wave" ∅ (Some "there") None []) []).
  - reflexivity.
  - vm_compute. exact I.
  - intros s a b. by eexists.
  - reflexivity.
  - constructor; [| constructor]. split; [reflexivity | discriminate].
  - reflexivity.
Defined.

(** C6 as stated fails: a tag named sayto is in neither vocabulary of the
    robot, and the say-to call does not raise. *)
Lemma unknown_sayto_tag_is_accepted :
  enum_contains (expression_enum robot0) "sayto" = false
  /\ enum_contains (gesture_enum robot0) "sayto" = false
  /\ ~ exists e st',
        say_to (PF := decimal) inner_sayto (AnEntity P) robot0 = (Raise e, st').
Proof.
  split; [reflexivity |]. split; [reflexivity |].
  intros (e & st' & H).
  assert (fst (say_to (PF := decimal) inner_sayto (AnEntity P) robot0)
          = Ok (SayToActionHandle 0)) as Hok by (vm_compute; reflexivity).
  rewrite H in Hok. discriminate Hok.
Qed.

(** The exception is that of the first tag that does not compile: here the
    gesture tag without a target comes second, and the unknown tag before
    it decides. *)
Lemma first_bad_tag_decides :
  fst (say_to (PF := decimal) two_bad_tags (AnEntity P) robot0)
  = Raise (unknown_tag "bogus").
Proof. vm_compute. reflexivity. Qed.

(** C7 fails on nested tags. In the nested fragment one word comes before
    the wave tag and three words are inside the happy tag; compilation
    stores the wave gesture at word index 2, not 1, and asks the timing
    service about a happy span of one word (from 0 to 1), not three. *)
Theorem nested_tag_indices :
  let r := parse_parameters (PF := decimal) new_plan nested (AnEntity P)
                            ["happy"] ["wave"] second_per_word in
  num_words "Hi " = 1
  /\ num_words "Hi there friend" = 3
  /\ fst r = Ok ()
  /\ gesture_lookup (snd r) !! 1 = None
  /\ gesture_lookup (snd r) !! 2 = Some (mkGestureGoal "wave" "P" 1%Q)
  /\ expression_lookup (snd r) !! 0
     = Some (mkExpressionGoal "happy" 0.5%Q 0.5%Q 1%Q).
Proof. vm_compute. repeat split; reflexivity. Qed.

End CompileScenario.

(** ** Handles: cancel and wait *)
Section Handles.

Context {float : Type} {PF : PyFloat float}.

Lemma cancel_action_plan_handle oid :
  cancel_action (float := float) (SayToActionHandle oid) = SayToPlan_cancel None.
Proof. reflexivity. Qed.

(** C2 fails. Cancel on the plan's action handle calls [SayToPlan.cancel]
    without the robot it requires: the call raises [TypeError] and leaves
    everything as it was; the preemption flag is not set and nothing is
    cancelled. *)
Theorem cancel_on_plan_handle_raises (st : @Robot float) (oid : nat) :
  Robot_cancel [Some (SayToActionHandle oid)] st = (Raise cancel_arity, st)
  /\ step st (CallCancel [Some (SayToActionHandle oid)])
     = set_control FromCaller st.
Proof. split; reflexivity. Qed.

Lemma remove_absent_handle (st : @Robot float) (ah : ActionHandle) :
  ah ∉ action_handles st ->
  Robot_remove_action_handle (Some ah) st = (Ok (), st).
Proof.
  intros Hnot. unfold Robot_remove_action_handle, bind, lift, get, ret.
  cbn [is_some assert_types]. unfold contains.
  by rewrite bool_decide_eq_false_2.
Qed.

(** C8, amended. A handle on an action client that is no longer among the
    robot's outstanding handles can be cancelled or waited on again: the
    call returns without raising and leaves the outstanding handles (and
    everything but the requests sent) as they are, removing a handle that
    is not there being no change at all; but the call is not a no-op: it
    sends the cancel request, respectively waits on the client, once
    more. *)
Theorem retired_handle_again (st : @Robot float) (ah : ActionHandle) :
  is_Some (handle_client ah) ->
  ah ∉ action_handles st ->
  Robot_remove_action_handle (Some ah) st = (Ok (), st)
  /\ Robot_cancel [Some ah] st
     = (Ok (), set_sent (sent st ++ [(control st, CancelGoal ah)]) st)
  /\ Robot_wait [Some ah] st
     = (Ok (), set_sent (sent st ++ [(control st, WaitForResult ah)]) st).
Proof.
  intros Hclient Hnot. split; [by apply remove_absent_handle |].
  pose proof (remove_absent_handle
                (set_sent (sent st ++ [(control st, CancelGoal ah)]) st)
                ah Hnot) as Hc.
  pose proof (remove_absent_handle
                (set_sent (sent st ++ [(control st, WaitForResult ah)]) st)
                ah Hnot) as Hw.
  destruct ah as [oid c | oid c gh | oid]; [| | by destruct Hclient];
    (split;
     [ unfold Robot_cancel, for_each, bind, lift, ret; cbn [is_some assert_types];
       unfold cancel_action, request, modify; by rewrite Hc
     | unfold Robot_wait, Robot_wait_with, for_each, bind, lift, ret;
       cbn [is_some assert_types];
       unfold wait_for_result, request, modify; by rewrite Hw ]).
Qed.

End Handles.

Module HandleScenario.

Import Scenario.

(** The state reached in [spoken]: the gaze handle has been waited on and
    is no longer outstanding. *)
Lemma spoken_state :
  sent spoken
  = [(FromCaller, WaitForService);
     (FromExecute, WaitForServer gaze_client);
     (FromExecute, SendGoal gaze_client
                     (ATargetGoal (mkTargetGoal "P_head" 0.5%Q 0.3%Q)));
     (FromExecute, WaitForResult gaze_handle);
     (FromExecute, WaitForServer tts_client);
     (FromExecute, SendGoal tts_client
                     (ATextToSpeechGoal (mkTextToSpeechGoal "Hello, there")))]
  /\ action_handles spoken
     = [SayToActionHandle 0; SingleGoalActionHandle 2 tts_client]
  /\ thread (say_to_plan spoken) = Some Finished.
Proof. vm_compute. repeat split; reflexivity. Qed.

Lemma gaze_handle_retired : gaze_handle ∉ action_handles spoken.
Proof.
  destruct spoken_state as (_ & -> & _).
  intros H. repeat (apply elem_of_cons in H as [H|H]; [discriminate H |]).
  by apply elem_of_nil in H.
Qed.

(** In [spoken], cancel and wait on the retired gaze handle. *)
Lemma retired_handle_again_witness :
  Robot_remove_action_handle (Some gaze_handle) spoken = (Ok (), spoken)
  /\ Robot_cancel [Some gaze_handle] spoken
     = (Ok (), set_sent (sent spoken ++ [(control spoken, CancelGoal gaze_handle)])
                        spoken)
  /\ Robot_wait [Some gaze_handle] spoken
     = (Ok (), set_sent (sent spoken ++ [(control spoken, WaitForResult gaze_handle)])
                        spoken).
Proof.
  apply (retired_handle_again spoken gaze_handle).
  - by eexists.
  - exact gaze_handle_retired.
Defined.

(** C8 as stated fails: a second call on a retired handle is not a no-op.
    The gaze handle of [spoken] is retired; cancelling it again returns,
    and the state after the call is not the state before it: one more
    cancel request has gone to the gaze client. *)
Lemma cancel_again_is_not_a_no_op :
  (gaze_handle ∉ action_handles spoken)
  /\ fst (Robot_cancel [Some gaze_handle] spoken) = Ok ()
  /\ snd (Robot_cancel [Some gaze_handle] spoken) <> spoken
  /\ length (sent (snd (Robot_cancel [Some gaze_handle] spoken)))
     = S (length (sent spoken)).
Proof.
  split; [exact gaze_handle_retired |].
  split; [vm_compute; reflexivity |].
  assert (length (sent (snd (Robot_cancel [Some gaze_handle] spoken)))
          = S (length (sent spoken))) as Hlen by (vm_compute; reflexivity).
  split; [| exact Hlen].
  intros H. rewrite H in Hlen. lia.
Qed.

End HandleScenario.

(** ** Speech feedback *)
Section Feedback.

Context {float : Type} {PF : PyFloat float}.

(** C5 fails for expressions. On a feedback tick whose word index has an
    entry in the expression table (and is no gaze-change location), the
    handler reads [feedback.current_word_num], which the message does not
    have: it raises [AttributeError], issues nothing and records no
    handle. *)
Theorem feedback_expression_not_issued (st : @Robot float) (fb : Feedback)
        (people : list Entity) (pick : nat) :
  gaze_change_locations (say_to_plan st) !! current_word_index fb = None ->
  is_Some (expression_lookup (say_to_plan st) !! current_word_index fb) ->
  current_word_num fb = None ->
  say_feedback fb people pick st = (Raise no_current_word_num, st).
Proof.
  intros Hgaze [e He] Hnum.
  unfold say_feedback, bind, plan, get, ret. cbv beta iota.
  rewrite Hgaze. cbn [is_some]. cbv beta iota.
  rewrite He. cbn [is_some]. by rewrite Hnum.
Qed.

(** For gestures the handler does what the specification says, and it does
    so whatever the preemption flag is: on a tick whose word index has an
    entry in the gesture table only, the gesture is sent to the gesture
    client at once, nothing is waited on, and the new handle is recorded
    with the robot and as the plan's latest auxiliary handle. *)
Lemma feedback_gesture_issued (st : @Robot float) (fb : Feedback)
      (people : list Entity) (pick : nat) (g : GestureGoal) :
  gaze_change_locations (say_to_plan st) !! current_word_index fb = None ->
  expression_lookup (say_to_plan st) !! current_word_index fb = None ->
  gesture_lookup (say_to_plan st) !! current_word_index fb = Some g ->
  exists st',
    say_feedback fb people pick st = (Ok (), st')
    /\ sent st' = (sent st ++ [(control st, SendGoal gesture_client (AGestureGoal g))])%list
    /\ (let ah := MultiGoalActionHandle (S (next_oid st)) gesture_client (next_oid st) in
        action_handles st' = (action_handles st ++ [ah])%list
        /\ other_ahs (say_to_plan st') = (other_ahs (say_to_plan st) ++ [ah])%list)
    /\ preempt_requested (say_to_plan st') = preempt_requested (say_to_plan st).
Proof.
  intros Hgaze Hexp Hg.
  unfold say_feedback, bind, plan, get, ret. cbv beta iota.
  rewrite Hgaze. cbn [is_some]. cbv beta iota.
  rewrite Hexp. cbn [is_some]. cbv beta iota.
  rewrite Hg. cbn [is_some].
  eexists. split; [reflexivity |]. cbn. done.
Qed.

End Feedback.

Module FeedbackScenario.

Import Scenario.
#[local] Existing Instance decimal.

(** The tagged utterance is being spoken; the tick for word index 0, where
    the happy expression is stored, arrives. *)
Lemma feedback_expression_not_issued_witness :
  say_feedback (PF := decimal) (mkFeedback 0 None) [] 0 tagged_spoken
  = (Raise no_current_word_num, tagged_spoken).
Proof.
  apply (feedback_expression_not_issued (PF := decimal)).
  - vm_compute. reflexivity.
  - vm_compute. by eexists.
  - reflexivity.
Defined.

(** C1 fails: the feedback handler never looks at the preemption flag.
    (1) Preempted early, both issuance sites of the thread see the flag
    and the plan has issued no command when its thread ends; the tick for
    word index 2, a gaze-change location, then makes the plan gaze.
    (2) Preempted while speaking, the tick for word index 1 makes the plan
    send the wave gesture stored there. *)
Theorem command_issued_after_preemption :
  (preempt_requested (say_to_plan preempted_early) = true
   /\ thread (say_to_plan preempted_early) = Some Finished
   /\ commands preempted_early = []
   /\ commands (run preempted_early [SpeechFeedback (mkFeedback 2 None) [] 0])
      = [(FromFeedback,
          SendGoal gaze_client (ATargetGoal (mkTargetGoal "P_head" 0.5%Q 0.3%Q)))])
  /\ (preempt_requested (say_to_plan preempted_speaking) = true
      /\ length (commands preempted_speaking) = 2
      /\ drop 2 (commands (run preempted_speaking
                                [SpeechFeedback (mkFeedback 1 None) [] 0]))
         = [(FromFeedback,
             SendGoal gesture_client
                      (AGestureGoal (mkGestureGoal "wave" "P" 1%Q)))]).
Proof. vm_compute. repeat split; reflexivity. Qed.

End FeedbackScenario.

(** ** Gaze before speech *)
Section Ordering.

Context {float : Type} {PF : PyFloat float}.

Abbreviation robot := (@Robot float).
Abbreviation kind := (@Request float -> Prop).

Lemma extends_refl (P : kind) (st : robot) : extends P st st.
Proof.
  repeat split; try done.
  exists []. split; [by rewrite app_nil_r | constructor].
Qed.

Lemma extends_trans (P : kind) (st1 st2 st3 : robot) :
  extends P st1 st2 -> extends P st2 st3 -> extends P st1 st3.
Proof.
  intros (Hc1 & (x1 & Hs1 & Hx1) & Ht1 & Hp1 & Hg1 & Hi1 & He1)
         (Hc2 & (x2 & Hs2 & Hx2) & Ht2 & Hp2 & Hg2 & Hi2 & He2).
  unfold extends. split; [congruence |]. split.
  - exists (x1 ++ x2)%list. split; [by rewrite Hs2, Hs1, app_assoc |].
    apply Forall_app. split; [done |]. by rewrite <- Hc1.
  - repeat split; [congruence | auto | auto | auto | congruence].
Qed.

Lemma extends_weaken (P P' : kind) (st st' : robot) :
  (forall rq, P rq -> P' rq) -> extends P st st' -> extends P' st st'.
Proof.
  intros HP (Hc & (x & Hs & Hx) & H). split; [done |]. split; [| done].
  exists x. split; [done |].
  eapply Forall_impl; [exact Hx |]. intros rq [? ?]. auto.
Qed.

(** A change that touches neither the requests, the origin nor the plan. *)
Lemma extends_frame (P : kind) (st st' : robot) :
  control st' = control st -> sent st' = sent st ->
  say_to_plan st' = say_to_plan st ->
  earlier st' = earlier st ->
  extends P st st'.
Proof.
  intros Hc Hs Hp He. unfold extends. rewrite Hc, Hs, Hp, He.
  apply extends_refl.
Qed.

Lemma hoare_ret {A} (P : kind) (a : A) (Q : A -> Prop) :
  Q a -> hoare P (ret a) Q.
Proof. intros HQ st. split; [apply extends_refl | done]. Qed.

Lemma hoare_raise {A} (P : kind) (e : exn) (Q : A -> Prop) :
  hoare P (raise e) Q.
Proof. intros st. split; [apply extends_refl | done]. Qed.

Lemma hoare_blocks {A} (P : kind) (Q : A -> Prop) : hoare P blocks Q.
Proof. intros st. split; [apply extends_refl | done]. Qed.

Lemma hoare_lift {A} (P : kind) (r : result A) :
  hoare P (lift r) (fun _ => True).
Proof. intros st. split; [apply extends_refl | by destruct r]. Qed.

Lemma hoare_get {A} (P : kind) (f : robot -> A) :
  hoare P (get f) (fun _ => True).
Proof. intros st. split; [apply extends_refl | done]. Qed.

Lemma hoare_bind {A B} (P : kind) (m : M A) (k : A -> M B)
      (Q : A -> Prop) (R : B -> Prop) :
  hoare P m Q -> (forall a, Q a -> hoare P (k a) R) -> hoare P (bind m k) R.
Proof.
  intros Hm Hk st. specialize (Hm st). unfold bind.
  destruct (m st) as [[a|e|] st1]; cbn [fst snd] in *; [| done | done].
  destruct Hm as [H1 HQ]. specialize (Hk a HQ st1).
  destruct (k a st1) as [r st2]; cbn [fst snd] in *.
  destruct Hk as [H2 HR]. split; [by eapply extends_trans | done].
Qed.

Lemma hoare_weaken {A} (P P' : kind) (m : M A) (Q R : A -> Prop) :
  hoare P m Q -> (forall rq, P rq -> P' rq) -> (forall a, Q a -> R a) ->
  hoare P' m R.
Proof.
  intros Hm HP HQR st. destruct (Hm st) as [H1 H2].
  split; [by eapply extends_weaken |].
  destruct (fst (m st)); auto.
Qed.

Lemma hoare_request (P : kind) (rq : Request) :
  P rq -> hoare P (request rq) (fun _ => True).
Proof.
  intros HP st. split; [| done]. unfold request, modify. cbn [snd].
  repeat split; try done.
  exists [(control st, rq)]. split; [done |]. by repeat constructor.
Qed.

Lemma hoare_modify (P : kind) (f : robot -> robot) :
  (forall st, control (f st) = control st) ->
  (forall st, sent (f st) = sent st) ->
  (forall st, say_to_plan (f st) = say_to_plan st) ->
  (forall st, earlier (f st) = earlier st) ->
  hoare P (modify f) (fun _ => True).
Proof.
  intros Hc Hs Hp He st. split; [| done].
  unfold modify. cbn [snd]. by apply extends_frame.
Qed.

Lemma hoare_modify_plan (P : kind) (f : SayToPlan -> SayToPlan) :
  (forall p, thread (f p) = thread p) ->
  (forall p, preempt_requested p = true -> preempt_requested (f p) = true) ->
  (forall p, gaze_handle_ok p -> gaze_handle_ok (f p)) ->
  (forall p, is_Some (gaze_ah p) -> is_Some (gaze_ah (f p))) ->
  hoare P (modify_plan f) (fun _ => True).
Proof.
  intros Ht Hp Hg Hi st. split; [| done].
  unfold modify_plan, modify. cbn [snd].
  repeat split; cbn; auto.
  exists []. split; [by rewrite app_nil_r | constructor].
Qed.

Lemma hoare_new_object (P : kind) : hoare P new_object (fun _ => True).
Proof.
  intros st. split; [| done].
  unfold new_object. cbn [snd]. by apply extends_frame.
Qed.

Lemma hoare_for_each {A} (P : kind) (l : list A) (body : A -> M unit) :
  (forall x, hoare P (body x) (fun _ => True)) ->
  hoare P (for_each l body) (fun _ => True).
Proof.
  intros Hb. induction l as [|x r IH]; cbn [for_each].
  - by apply hoare_ret.
  - eapply hoare_bind; [apply Hb | intros _ _; apply IH].
Qed.

Create HintDb tame.

#[local] Hint Extern 1 (hoare _ _ _) => apply hoare_raise : tame.
#[local] Hint Extern 1 (hoare _ _ _) => apply hoare_blocks : tame.
#[local] Hint Extern 1 (hoare _ _ _) => apply hoare_lift : tame.
#[local] Hint Extern 1 (hoare _ _ _) => apply hoare_get : tame.
#[local] Hint Extern 1 (hoare _ _ _) => apply hoare_new_object : tame.
#[local] Hint Extern 1 (hoare _ (request _) _) =>
  apply hoare_request; first [exact I | intros ?; discriminate | solve [auto]] : tame.

(** Walk through a method: binds in order, branches by cases, the rest by
    the lemmas collected in the hint database or at hand. *)
Ltac tame_leaf :=
  first [ solve [eauto with tame]
        | match goal with
          | H : _ |- _ => solve [apply H; auto]
          end ].

Ltac tame_auto :=
  unfold tame;
  lazymatch goal with
  | |- hoare _ (bind _ _) _ =>
      eapply hoare_bind; [tame_auto | intros ? ?; cbv beta in *; tame_auto]
  | |- hoare _ (ret _) ?Q =>
      tryif is_evar Q
      then (apply (hoare_ret _ _ (fun _ => True)); exact I)
      else (apply hoare_ret; cbv beta; try done; eauto)
  | |- hoare _ (if ?b then _ else _) _ => destruct b; tame_auto
  | |- hoare _ (match ?x with _ => _ end) _ => destruct x; tame_auto
  | |- hoare _ (plan _) _ => apply hoare_get
  | |- hoare _ (modify _) _ =>
      first [ solve [apply hoare_modify; reflexivity] | tame_leaf ]
  | |- hoare _ (modify_plan _) _ =>
      first [ solve [apply hoare_modify_plan; intros; cbn; try done; eauto]
            | tame_leaf ]
  | |- _ => tame_leaf
  end.

Lemma hoare_add_action_handle (P : kind) ah :
  hoare P (Robot_add_action_handle ah) (fun _ => True).
Proof. unfold Robot_add_action_handle. tame_auto. Qed.
#[local] Hint Extern 1 (hoare _ _ _) => apply hoare_add_action_handle : tame.

(** Removing a handle sends nothing. *)
Lemma hoare_remove_action_handle (P : kind) ah :
  hoare P (Robot_remove_action_handle ah) (fun _ => True).
Proof. unfold Robot_remove_action_handle. tame_auto. Qed.
#[local] Hint Extern 1 (hoare _ _ _) => apply hoare_remove_action_handle : tame.

Lemma tame_get_action_handle gh :
  tame (float := float) (Robot_get_action_handle gh).
Proof. unfold Robot_get_action_handle. tame_auto. Qed.
#[local] Hint Extern 1 (hoare _ _ _) => apply tame_get_action_handle : tame.

Lemma hoare_wait_for_result (P : kind) plan_wait ah :
  (forall h, P (WaitForResult h)) ->
  hoare P plan_wait (fun _ => True) ->
  hoare P (wait_for_result plan_wait ah) (fun _ => True).
Proof. intros HP H. unfold wait_for_result. tame_auto. Qed.

Lemma hoare_wait_with (P : kind) plan_wait ahs :
  (forall h, P (WaitForResult h)) ->
  hoare P plan_wait (fun _ => True) ->
  hoare P (Robot_wait_with plan_wait ahs) (fun _ => True).
Proof.
  intros HP H. unfold Robot_wait_with. apply hoare_for_each. intros ah.
  pose proof (hoare_wait_for_result P plan_wait) as Hw.
  tame_auto.
Qed.

Lemma hoare_join (P : kind) : hoare P join (fun _ => True).
Proof. unfold join. tame_auto. Qed.

(** Waiting sends nothing but waits. *)
Lemma hoare_plan_wait (P : kind) :
  (forall h, P (WaitForResult h)) ->
  hoare P SayToPlan_wait (fun _ => True).
Proof.
  intros HP. pose proof (hoare_join P).
  assert (hoare P recursion_limit (fun _ => True)) as Hr by apply hoare_raise.
  pose proof (fun ahs => hoare_wait_with P recursion_limit ahs HP Hr).
  unfold SayToPlan_wait. tame_auto.
Qed.

Lemma tame_wait ahs : tame (float := float) (Robot_wait ahs).
Proof. apply hoare_wait_with; [done |]. by apply hoare_plan_wait. Qed.
#[local] Hint Extern 1 (hoare _ _ _) => apply tame_wait : tame.

Lemma tame_cancel_action ah : tame (float := float) (cancel_action ah).
Proof. unfold cancel_action. tame_auto. Qed.
#[local] Hint Extern 1 (hoare _ _ _) => apply tame_cancel_action : tame.

Lemma tame_cancel ahs : tame (float := float) (Robot_cancel ahs).
Proof.
  unfold Robot_cancel. apply hoare_for_each. intros ah. tame_auto.
Qed.
#[local] Hint Extern 1 (hoare _ _ _) => apply tame_cancel : tame.

Lemma tame_plan_cancel robot : tame (float := float) (SayToPlan_cancel robot).
Proof. unfold SayToPlan_cancel. tame_auto. Qed.

Lemma hoare_connect (P : kind) found set_found c :
  P (WaitForServer c) ->
  (forall b st, control (set_found b st) = control st) ->
  (forall b st, sent (set_found b st) = sent st) ->
  (forall b st, say_to_plan (set_found b st) = say_to_plan st) ->
  (forall b st, earlier (set_found b st) = earlier st) ->
  hoare P (connect found set_found c) (fun _ => True).
Proof.
  intros HP Hc Hs Hp He. unfold connect.
  assert (hoare P (modify (set_found true)) (fun _ => True))
    by (apply hoare_modify; auto).
  assert (hoare P (request (WaitForServer c)) (fun _ => True))
    by (by apply hoare_request).
  tame_auto.
Qed.

(** [Robot.say] sends no gaze goal. *)
Lemma hoare_say text : hoare (float := float) not_gaze (Robot_say text) (fun _ => True).
Proof.
  assert (hoare (float := float) not_gaze
                (connect tts_found set_tts_found tts_client) (fun _ => True))
    by (by apply hoare_connect).
  unfold Robot_say. tame_auto.
Qed.

(** [Robot.gaze] sends no speech goal and returns a handle on the gaze
    client. *)
Lemma hoare_gaze target :
  hoare not_speech (Robot_gaze target)
        (fun ah => exists oid, ah = SingleGoalActionHandle oid gaze_client).
Proof.
  assert (hoare (float := float) not_speech
                (connect gaze_found set_gaze_found gaze_client) (fun _ => True))
    by (by apply hoare_connect).
  unfold Robot_gaze. tame_auto.
Qed.

Lemma hoare_gaze_at_head person :
  hoare not_speech (gaze_at_head person)
        (fun ah => exists oid, ah = SingleGoalActionHandle oid gaze_client).
Proof.
  unfold gaze_at_head. destruct (head person); [apply hoare_gaze |].
  apply hoare_raise.
Qed.

Lemma tame_regaze person : tame (float := float) (regaze person).
Proof.
  assert (hoare any_request (gaze_at_head person)
            (fun ah => exists oid, ah = SingleGoalActionHandle oid gaze_client))
    by (eapply hoare_weaken; [apply hoare_gaze_at_head | done | done]).
  unfold regaze. tame_auto.
Qed.
#[local] Hint Extern 1 (hoare _ _ _) => apply tame_regaze : tame.

Lemma tame_do_goal goal : tame (float := float) (do_goal goal).
Proof. unfold do_goal. tame_auto. Qed.
#[local] Hint Extern 1 (hoare _ _ _) => apply tame_do_goal : tame.

Lemma tame_do goals : tame (float := float) (do goals).
Proof.
  induction goals as [|g r IH]; cbn [do]; tame_auto.
Qed.
#[local] Hint Extern 1 (hoare _ _ _) => apply tame_do : tame.

Lemma tame_plan_add_action_handle ah :
  tame (float := float) (SayToPlan_add_action_handle ah).
Proof. unfold SayToPlan_add_action_handle. tame_auto. Qed.
#[local] Hint Extern 1 (hoare _ _ _) => apply tame_plan_add_action_handle : tame.

Lemma tame_say_feedback fb people pick : tame (float := float) (say_feedback fb people pick).
Proof. unfold say_feedback. tame_auto. Qed.

Lemma tame_say_done : tame (float := float) say_done.
Proof. unfold say_done. tame_auto. Qed.

Lemma tame_gaze_done : tame (float := float) gaze_done.
Proof. unfold gaze_done. tame_auto. Qed.

Lemma tame_goal_done gh : tame (float := float) (goal_done gh).
Proof. unfold goal_done. tame_auto. Qed.

(** *** How the orderings fare when requests are added *)

Lemma lookup_extended (l extra : list (Origin * @Request float)) i rq :
  (l ++ extra)%list !! i = Some rq ->
  l !! i = Some rq \/ (length l <= i /\ rq ∈ extra).
Proof.
  intros [H | [Hle H]]%lookup_app_Some; [by left | right].
  split; [done |]. by eapply list_elem_of_lookup_2.
Qed.

Lemma no_thread_speech_extended (l extra : list (Origin * @Request float)) n0 :
  no_thread_speech l n0 ->
  Forall (fun rq => ~ thread_spoke rq) extra ->
  no_thread_speech (l ++ extra) n0.
Proof.
  intros Hl Hx j rq Hj [H | [_ H]]%lookup_extended; [by eapply Hl |].
  by eapply Forall_forall in Hx.
Qed.

Lemma gaze_waited_extended (l extra : list (Origin * @Request float)) n0 :
  gaze_waited l n0 ->
  Forall (fun rq => ~ thread_gazed rq) extra ->
  gaze_waited (l ++ extra) n0.
Proof.
  intros Hl Hx i rq Hi [H | [_ H]]%lookup_extended Hg.
  - destruct (Hl i rq Hi H Hg) as (k & rq' & Hk & Hlk & Hw).
    exists k, rq'. split; [done |]. split; [| done].
    by apply lookup_app_l_Some.
  - eapply Forall_forall in Hx; [| exact H]. done.
Qed.

Lemma gaze_before_speech_extended (l extra : list (Origin * @Request float)) n0 :
  gaze_before_speech l n0 ->
  Forall (fun rq => ~ thread_gazed rq /\ ~ thread_spoke rq) extra ->
  gaze_before_speech (l ++ extra) n0.
Proof.
  intros Hl Hx i j rqi rqj Hi Hj Hli Hgi Hlj Hsj.
  apply lookup_extended in Hli as [Hli | [_ Hli]];
    [| eapply Forall_forall in Hx; [| exact Hli]; by destruct Hx].
  apply lookup_extended in Hlj as [Hlj | [_ Hlj]];
    [| eapply Forall_forall in Hx; [| exact Hlj]; by destruct Hx].
  destruct (Hl i j rqi rqj Hi Hj Hli Hgi Hlj Hsj) as (k & rq' & Hk & Hlk & Hw).
  exists k, rq'. split; [done |]. split; [| done].
  by apply lookup_app_l_Some.
Qed.

(** The speech goal arrives when every gaze goal has been waited for. *)
Lemma gaze_before_speech_finish (l extra : list (Origin * @Request float)) n0 :
  no_thread_speech l n0 -> gaze_waited l n0 ->
  Forall (fun rq => ~ thread_gazed rq) extra ->
  gaze_before_speech (l ++ extra) n0.
Proof.
  intros Hs Hw Hx i j rqi rqj Hi Hj Hli Hgi Hlj Hsj.
  apply lookup_extended in Hli as [Hli | [_ Hli]];
    [| eapply Forall_forall in Hx; [| exact Hli]; done].
  apply lookup_extended in Hlj as [Hlj | [Hlen Hlj]];
    [by destruct (Hs j rqj Hj Hlj) |].
  destruct (Hw i rqi Hi Hli Hgi) as (k & rq' & Hk & Hlk & Hwk).
  exists k, rq'. split; [| split; [by apply lookup_app_l_Some | done]].
  apply lookup_lt_Some in Hlk. lia.
Qed.

(** Requests on behalf of another thread of control are none of the
    plan's thread. *)
Lemma others_not_thread (o : Origin) (P : kind)
      (extra : list (Origin * @Request float)) :
  o <> FromExecute ->
  Forall (fun rq => fst rq = o /\ P (snd rq)) extra ->
  Forall (fun rq => fst rq <> FromExecute) extra.
Proof.
  intros Ho Hx. eapply Forall_impl; [exact Hx |].
  intros rq [H _]. by rewrite H.
Qed.

Lemma not_thread_not_gazed (extra : list (Origin * @Request float)) :
  Forall (fun rq => fst rq <> FromExecute) extra ->
  Forall (fun rq => ~ thread_gazed rq /\ ~ thread_spoke rq) extra.
Proof.
  intros Hx. eapply Forall_impl; [exact Hx |].
  intros rq Hrq. split; intros [g ->]; by apply Hrq.
Qed.

Lemma not_speech_not_spoke (o : Origin) (extra : list (Origin * @Request float)) :
  Forall (fun rq => fst rq = o /\ not_speech (snd rq)) extra ->
  Forall (fun rq => ~ thread_spoke rq) extra.
Proof.
  intros Hx. eapply Forall_impl; [exact Hx |].
  intros rq [_ Hrq] [g ->]. by apply (Hrq g).
Qed.

Lemma not_gaze_not_gazed (o : Origin) (extra : list (Origin * @Request float)) :
  Forall (fun rq => fst rq = o /\ not_gaze (snd rq)) extra ->
  Forall (fun rq => ~ thread_gazed rq) extra.
Proof.
  intros Hx. eapply Forall_impl; [exact Hx |].
  intros rq [_ Hrq] [g ->]. by apply (Hrq g).
Qed.

Lemma no_request_nothing (o : Origin) (extra : list (Origin * @Request float)) :
  Forall (fun rq => fst rq = o /\ no_request (snd rq)) extra -> extra = [].
Proof. destruct extra as [|rq r]; [done |]. intros H. inversion H as [|? ? [_ []]]. Qed.

(** *** The invariant of the plan's thread *)

(** Callbacks and calls of the application keep it. *)
Lemma thread_inv_extended n0 (st st' : robot) :
  extends any_request st st' -> control st <> FromExecute ->
  thread_inv n0 st -> thread_inv n0 st'.
Proof.
  intros (Hc & (extra & Hs & Hx) & Ht & Hp & Hg & Hi) Ho (Hok & Hlen & Hcase).
  pose proof (others_not_thread _ _ _ Ho Hx) as Hother.
  pose proof (not_thread_not_gazed _ Hother) as Hnone.
  assert (Forall (fun rq => ~ thread_spoke rq) extra) as Hns
      by (eapply Forall_impl; [exact Hnone | by intros ? [_ ?]]).
  assert (Forall (fun rq => ~ thread_gazed rq) extra) as Hng
      by (eapply Forall_impl; [exact Hnone | by intros ? [? _]]).
  split; [auto |]. split; [rewrite Hs, length_app; lia |].
  rewrite Ht, Hs.
  destruct (thread (say_to_plan st)) as [[]|].
  - intros i rq Hn0 [H | [_ H]]%lookup_extended; [by eapply Hcase |].
    by eapply Forall_forall in Hother.
  - intros i rq Hn0 [H | [_ H]]%lookup_extended; [by eapply Hcase |].
    by eapply Forall_forall in Hother.
  - destruct Hcase as [H1 H2]. split; [by apply no_thread_speech_extended |].
    intros (i & rq & Hn0 & Hl & Hgz). apply Hi, H2.
    apply lookup_extended in Hl as [Hl | [_ Hl]]; [eauto |].
    eapply Forall_forall in Hng; [| exact Hl]. done.
  - destruct Hcase as [H1 H2]. split; [by apply no_thread_speech_extended | done].
  - destruct Hcase as [H1 H2].
    split; [by apply no_thread_speech_extended | by apply gaze_waited_extended].
  - by apply gaze_before_speech_extended.
  - by apply gaze_before_speech_extended.
  - by apply gaze_before_speech_extended.
Qed.

Lemma thread_inv_control n0 o (st : robot) :
  thread_inv n0 st -> thread_inv n0 (set_control o st).
Proof. done. Qed.

Lemma thread_inv_handler n0 o (m : M unit) (st : robot) :
  tame m -> o <> FromExecute ->
  thread_inv n0 st -> thread_inv n0 (as_origin o m st).
Proof.
  intros Hm Ho Hinv. unfold as_origin.
  eapply thread_inv_extended; [apply Hm | done | by apply thread_inv_control].
Qed.

(** While the plan's thread has sent nothing, the orderings hold. *)
Lemma nothing_sent_orderings (l : list (Origin * @Request float)) n0 :
  (forall i rq, n0 <= i -> l !! i = Some rq -> fst rq <> FromExecute) ->
  no_thread_speech l n0 /\ gaze_waited l n0
  /\ ~ (exists i rq, n0 <= i /\ l !! i = Some rq /\ thread_gazed rq).
Proof.
  intros H. split; [| split].
  - intros j rq Hj Hl [g ->]. by eapply H.
  - intros i rq Hi Hl [g ->]. by destruct (H i _ Hi Hl).
  - intros (i & rq & Hi & Hl & [g ->]). by eapply H.
Qed.

Lemma thread_step_unfold results (st : robot) at_point :
  thread (say_to_plan st) = Some at_point ->
  thread_step results st
  = match execute_step results at_point st with
    | (Ok next, st') => moved next st'
    | (Raise e, st') => moved (Died e) st'
    | (Blocks, _) => st
    end.
Proof. intros H. unfold thread_step. by rewrite H. Qed.

Lemma no_speech_ordered (l : list (Origin * @Request float)) n0 :
  no_thread_speech l n0 -> gaze_before_speech l n0.
Proof. intros H i j rqi rqj _ Hj _ _ Hl Hs. by destruct (H j rqj Hj Hl). Qed.

Lemma thread_inv_died n0 e (st : robot) :
  gaze_handle_ok (say_to_plan st) -> n0 <= length (sent st) ->
  no_thread_speech (sent st) n0 ->
  thread_inv n0 (moved (Died e) st).
Proof.
  intros H1 H2 H3. split; [done |]. split; [done |].
  by apply no_speech_ordered.
Qed.

Lemma thread_inv_start n0 results (st : robot) :
  control st = FromExecute ->
  thread (say_to_plan st) = Some AtStart ->
  thread_inv n0 st -> thread_inv n0 (thread_step results st).
Proof.
  intros Hc Hth (Hok & Hlen & Hcase). rewrite Hth in Hcase.
  destruct (nothing_sent_orderings _ _ Hcase) as (Hns & Hgw & Hng).
  rewrite (thread_step_unfold _ _ _ Hth).
  unfold execute_step, bind, plan, get, ret, raise, modify_plan, modify.
  destruct (audience (say_to_plan st)) as [|person|q|l].
  - by apply thread_inv_died.
  - by repeat split.
  - destruct results as [|person rest]; by repeat split.
  - destruct results as [|person rest]; by repeat split.
Qed.

Lemma thread_inv_at_wait n0 results (st : robot) :
  thread (say_to_plan st) = Some AtWait ->
  thread_inv n0 st -> thread_inv n0 (thread_step results st).
Proof.
  intros Hth (Hok & Hlen & Hcase). rewrite Hth in Hcase.
  destruct Hcase as [Hns Hgz].
  rewrite (thread_step_unfold _ _ _ Hth).
  unfold execute_step, bind, plan, get, ret.
  unfold gaze_handle_ok in Hok.
  destruct (gaze_ah (say_to_plan st)) as [ah|] eqn:Hah.
  - split; [unfold gaze_handle_ok; cbn; by rewrite Hah |]. by repeat split.
  - split; [unfold gaze_handle_ok; cbn; by rewrite Hah |].
    split; [done |]. split; [done |].
    intros i rq Hi Hl Hg. destruct Hgz as [? ?]; [eauto | done].
Qed.

Lemma thread_inv_rest n0 results (st : robot) :
  match thread (say_to_plan st) with
  | Some Finished | Some (Died _) | None => True
  | _ => False
  end ->
  thread_inv n0 st -> thread_inv n0 (thread_step results st).
Proof.
  intros Hth Hinv. unfold thread_step.
  destruct (thread (say_to_plan st)) as [[]|] eqn:E; try done.
  - destruct Hinv as (Hok & Hlen & Hcase). rewrite E in Hcase.
    by repeat split.
  - destruct Hinv as (Hok & Hlen & Hcase). rewrite E in Hcase.
    by repeat split.
Qed.

Lemma thread_inv_at_gaze n0 results person (st : robot) :
  thread (say_to_plan st) = Some (AtGaze person) ->
  thread_inv n0 st -> thread_inv n0 (thread_step results st).
Proof.
  intros Hth Hinv. pose proof Hinv as (Hok & Hlen & Hcase).
  rewrite Hth in Hcase.
  destruct (nothing_sent_orderings _ _ Hcase) as (Hns & Hgw & Hng).
  rewrite (thread_step_unfold _ _ _ Hth).
  unfold execute_step. unfold bind at 1. unfold plan, get.
  destruct (preempt_requested (say_to_plan st)).
  - unfold ret. split; [done |]. split; [done |]. cbn. split; [done |].
    intros H. by destruct Hng.
  - destruct (hoare_gaze_at_head person st)
      as [(Hc & (extra & Hs & Hx) & Ht & Hp & Hg & Hi) HQ].
    pose proof (not_speech_not_spoke _ _ Hx) as Hnot.
    unfold bind, modify_plan, modify, ret.
    destruct (gaze_at_head person st) as [[ah|e|] st2]; cbn [fst snd] in *.
    + split; [exact HQ |]. split; [cbn; rewrite Hs, length_app; lia |].
      cbn. rewrite Hs. split; [by apply no_thread_speech_extended |].
      intros _. by eexists.
    + apply thread_inv_died; [auto | cbn; rewrite Hs, length_app; lia |].
      rewrite Hs. by apply no_thread_speech_extended.
    + exact Hinv.
Qed.

Lemma thread_inv_waiting n0 results ah (st : robot) :
  control st = FromExecute ->
  thread (say_to_plan st) = Some (Waiting ah) ->
  thread_inv n0 st -> thread_inv n0 (thread_step results st).
Proof.
  intros Hctl Hth Hinv. pose proof Hinv as (Hok & Hlen & Hcase).
  rewrite Hth in Hcase. destruct Hcase as (Hns & oid & ->).
  rewrite (thread_step_unfold _ _ _ Hth).
  unfold execute_step, wait_for_result. unfold bind at 1.
  unfold request, modify. cbn [fst snd].
  set (rq := (control st, WaitForResult (SingleGoalActionHandle oid gaze_client))).
  destruct (hoare_remove_action_handle no_request
              (Some (SingleGoalActionHandle oid gaze_client))
              (set_sent (sent st ++ [rq]) st))
    as [(Hc & (extra & Hs & Hx) & Ht & Hp & Hg & Hi) _].
  apply no_request_nothing in Hx. subst extra. rewrite app_nil_r in Hs.
  cbn [sent set_sent] in Hs.
  assert (no_thread_speech (sent st ++ [rq]) n0) as Hns'.
  { apply no_thread_speech_extended; [done |].
    repeat constructor. by intros [g Hg']. }
  unfold bind, ret.
  destruct (Robot_remove_action_handle _ _) as [[[]|e|] st2];
    cbn [fst snd] in *.
  - split; [by apply Hg |].
    split; [cbn; rewrite Hs, length_app; lia |].
    cbn. rewrite Hs. split; [done |].
    intros i rqi Hi' Hl Hgz.
    apply lookup_extended in Hl as [Hl | [_ Hl]].
    + exists (length (sent st)), rq. split; [by eapply lookup_lt_Some |].
      split; [by apply list_lookup_middle |].
      exists oid. unfold rq. by rewrite Hctl.
    + apply list_elem_of_singleton in Hl. subst rqi.
      by destruct Hgz as [g Hg'].
  - apply thread_inv_died; [by apply Hg | |].
    + cbn. rewrite Hs, length_app. lia.
    + by rewrite Hs.
  - exact Hinv.
Qed.

Lemma thread_inv_at_say n0 results (st : robot) :
  thread (say_to_plan st) = Some AtSay ->
  thread_inv n0 st -> thread_inv n0 (thread_step results st).
Proof.
  intros Hth Hinv. pose proof Hinv as (Hok & Hlen & Hcase).
  rewrite Hth in Hcase. destruct Hcase as [Hns Hgw].
  rewrite (thread_step_unfold _ _ _ Hth).
  unfold execute_step. unfold bind at 1. unfold plan, get.
  destruct (preempt_requested (say_to_plan st)).
  - unfold ret. split; [done |]. split; [done |]. cbn.
    by apply no_speech_ordered.
  - unfold bind at 1. cbn [fst snd].
    destruct (hoare_say (sentence (say_to_plan st)) st)
      as [(Hc & (extra & Hs & Hx) & Ht & Hp & Hg & Hi) _].
    pose proof (not_gaze_not_gazed _ _ Hx) as Hnot.
    unfold bind, modify_plan, modify, ret.
    destruct (Robot_say _ st) as [[ah|e|] st2]; cbn [fst snd] in *.
    + split; [by apply Hg |]. split; [cbn; rewrite Hs, length_app; lia |].
      cbn. rewrite Hs. by apply gaze_before_speech_finish.
    + split; [by apply Hg |]. split; [cbn; rewrite Hs, length_app; lia |].
      cbn. rewrite Hs. by apply gaze_before_speech_finish.
    + exact Hinv.
Qed.

(** *** The threads of earlier plans *)

(** A step of [__execute] changes nothing of what methods leave alone. *)
Lemma tame_execute_step results at_point :
  tame (float := float) (execute_step results at_point).
Proof.
  assert (forall h : ActionHandle, any_request (float := float) (WaitForResult h))
    as HP by done.
  pose proof (fun ah => hoare_wait_for_result any_request SayToPlan_wait ah HP
                          (hoare_plan_wait any_request HP)).
  assert (forall person,
             hoare any_request (gaze_at_head person)
                   (fun ah => exists oid, ah = SingleGoalActionHandle oid gaze_client))
    by (intros person; eapply hoare_weaken;
        [apply hoare_gaze_at_head | done | done]).
  assert (forall text, hoare any_request (Robot_say text) (fun _ => True))
    by (intros text; eapply hoare_weaken; [apply hoare_say | done | done]).
  unfold execute_step. tame_auto.
Qed.

(** An ended thread does nothing when it is scheduled. *)
Lemma earlier_step_ended i results (st : robot) :
  alone st ->
  exists l, earlier_step i results st = set_earlier l st /\ l = earlier st.
Proof.
  intros Halone. unfold earlier_step.
  destruct (earlier st !! i) as [t|] eqn:Hi.
  - assert (ended t = true) as Ht.
    { unfold alone in Halone. rewrite Forall_forall in Halone.
      apply Halone. by eapply list_elem_of_lookup_2. }
    exists (<[i := t]> (earlier st)). split.
    + by destruct t.
    + by apply list_insert_id.
  - exists (earlier st). split; [by destruct st | done].
Qed.

(** Every event keeps the invariant while the plan's thread is the only
    one that runs. *)
Lemma thread_inv_step n0 (st : robot) (ev : Event) :
  alone st -> thread_inv n0 st ->
  thread_inv n0 (step st ev) /\ alone (step st ev).
Proof.
  intros Halone Hinv.
  assert (forall o (m : M unit), tame m -> o <> FromExecute ->
            thread_inv n0 (as_origin o m st) /\ alone (as_origin o m st))
    as Hhandler.
  { intros o m Hm Ho. split; [by apply thread_inv_handler |].
    unfold as_origin, alone.
    destruct (Hm (set_control o st)) as [(_ & _ & _ & _ & _ & _ & ->) _].
    exact Halone. }
  destruct ev as [results | fb people pick | | | gh | | ahs | ahs | i results];
    cbn [step].
  - split.
    + apply (thread_inv_control n0 FromExecute) in Hinv.
      set (st1 := set_control FromExecute st) in *.
      destruct (thread (say_to_plan st1)) as [[]|] eqn:Hth.
      * by apply thread_inv_start.
      * by eapply thread_inv_at_gaze.
      * by apply thread_inv_at_wait.
      * by eapply thread_inv_waiting.
      * by apply thread_inv_at_say.
      * apply thread_inv_rest; [by rewrite Hth | done].
      * apply thread_inv_rest; [by rewrite Hth | done].
      * apply thread_inv_rest; [by rewrite Hth | done].
    + unfold thread_step, alone.
      destruct (thread (say_to_plan (set_control FromExecute st)))
        as [at_point|]; [| exact Halone].
      destruct (tame_execute_step results at_point (set_control FromExecute st))
        as [(_ & _ & _ & _ & _ & _ & He) _].
      destruct (execute_step results at_point (set_control FromExecute st))
        as [[next|e|] st2]; cbn [snd] in He; cbn; [| | exact Halone];
        rewrite He; exact Halone.
  - apply Hhandler; [apply tame_say_feedback | done].
  - apply Hhandler; [apply tame_say_done | done].
  - apply Hhandler; [apply tame_gaze_done | done].
  - apply Hhandler; [apply tame_goal_done | done].
  - apply Hhandler; [apply tame_plan_cancel | done].
  - apply Hhandler; [apply tame_cancel | done].
  - apply Hhandler; [apply tame_wait | done].
  - destruct (earlier_step_ended i results (set_control FromExecute st) Halone)
      as (l & -> & ->).
    split; [exact Hinv | exact Halone].
Qed.

Lemma thread_inv_run n0 (evs : list Event) (st : robot) :
  alone st -> thread_inv n0 st -> thread_inv n0 (run st evs).
Proof.
  revert st; induction evs as [|ev evs IH]; intros st Halone Hinv; [done |].
  cbn [run fold_left].
  destruct (thread_inv_step n0 st ev Halone Hinv). by apply IH.
Qed.

Lemma thread_inv_ordered n0 (st : robot) :
  thread_inv n0 st -> gaze_before_speech (sent st) n0.
Proof.
  intros (_ & _ & Hcase).
  destruct (thread (say_to_plan st)) as [[]|]; try done;
    apply no_speech_ordered; try (by destruct Hcase);
    by destruct (nothing_sent_orderings _ _ Hcase).
Qed.

(** *** Once preemption is requested *)

(** With the flag set, a step of the plan's thread sends no speech goal. *)
Lemma quiet_step results at_point (st : robot) :
  preempt_requested (say_to_plan st) = true ->
  extends not_speech st (snd (execute_step results at_point st)).
Proof.
  intros Hp. destruct at_point as [|person| |ah| | |e].
  - assert (hoare (float := float) not_speech (execute_step results AtStart)
                  (fun _ => True)) as H
        by (unfold execute_step; tame_auto).
    apply H.
  - assert (hoare (float := float) not_speech
                  (execute_step results (AtGaze person)) (fun _ => True)) as H.
    { pose proof (hoare_gaze_at_head person). unfold execute_step. tame_auto. }
    apply H.
  - assert (hoare (float := float) not_speech (execute_step results AtWait)
                  (fun _ => True)) as H
        by (unfold execute_step; tame_auto).
    apply H.
  - assert (hoare (float := float) not_speech
                  (execute_step results (Waiting ah)) (fun _ => True)) as H.
    { assert (forall h : ActionHandle, not_speech (float := float) (WaitForResult h))
        as HP by (intros h g; discriminate).
      pose proof (hoare_wait_for_result not_speech SayToPlan_wait ah HP
                    (hoare_plan_wait not_speech HP)).
      unfold execute_step. tame_auto. }
    apply H.
  - unfold execute_step, bind, plan, get. rewrite Hp. apply extends_refl.
  - apply extends_refl.
  - apply extends_refl.
Qed.

Lemma preempted_step n0 (st : robot) (ev : Event) :
  preempt_requested (say_to_plan st) = true ->
  no_thread_speech (sent st) n0 ->
  preempt_requested (say_to_plan (step st ev)) = true
  /\ no_thread_speech (sent (step st ev)) n0.
Proof.
  intros Hp Hns.
  assert (forall o (m : M unit), tame m -> o <> FromExecute ->
            preempt_requested (say_to_plan (as_origin o m st)) = true
            /\ no_thread_speech (sent (as_origin o m st)) n0) as Hhandler.
  { intros o m Hm Ho. unfold as_origin.
    destruct (Hm (set_control o st))
      as [(Hc & (extra & Hs & Hx) & Ht & Hpre & Hg & Hi) _].
    split; [by apply Hpre |]. rewrite Hs. cbn [sent set_control].
    apply no_thread_speech_extended; [done |].
    pose proof (others_not_thread _ _ _ Ho Hx) as Hother.
    eapply Forall_impl; [exact (not_thread_not_gazed _ Hother) |].
    by intros ? [_ ?]. }
  destruct ev as [results | fb people pick | | | gh | | ahs | ahs | i results];
    cbn [step].
  - unfold thread_step. cbn [say_to_plan set_control].
    destruct (thread (say_to_plan st)) as [at_point|] eqn:Hth; [| done].
    destruct (quiet_step results at_point (set_control FromExecute st) Hp)
      as (Hc & (extra & Hs & Hx) & Ht & Hpre & Hg & Hi).
    pose proof (not_speech_not_spoke _ _ Hx) as Hnot.
    cbn [sent set_control] in Hs.
    destruct (execute_step results at_point (set_control FromExecute st))
      as [[next|e|] st2]; cbn [fst snd] in *.
    + split; [by apply Hpre |]. cbn. rewrite Hs.
      by apply no_thread_speech_extended.
    + split; [by apply Hpre |]. cbn. rewrite Hs.
      by apply no_thread_speech_extended.
    + done.
  - apply Hhandler; [apply tame_say_feedback | done].
  - apply Hhandler; [apply tame_say_done | done].
  - apply Hhandler; [apply tame_gaze_done | done].
  - apply Hhandler; [apply tame_goal_done | done].
  - apply Hhandler; [apply tame_plan_cancel | done].
  - apply Hhandler; [apply tame_cancel | done].
  - apply Hhandler; [apply tame_wait | done].
  - unfold earlier_step. cbn [earlier set_control].
    destruct (earlier st !! i) as [at_point|] eqn:Hth; [| done].
    destruct (quiet_step results at_point (set_control FromExecute st) Hp)
      as (Hc & (extra & Hs & Hx) & Ht & Hpre & Hg & Hi).
    pose proof (not_speech_not_spoke _ _ Hx) as Hnot.
    cbn [sent set_control] in Hs.
    destruct (execute_step results at_point (set_control FromExecute st))
      as [[next|e|] st2]; cbn [fst snd] in *.
    + split; [by apply Hpre |]. cbn. rewrite Hs.
      by apply no_thread_speech_extended.
    + split; [by apply Hpre |]. cbn. rewrite Hs.
      by apply no_thread_speech_extended.
    + done.
Qed.

Lemma preempted_run n0 (evs : list Event) (st : robot) :
  preempt_requested (say_to_plan st) = true ->
  no_thread_speech (sent st) n0 ->
  no_thread_speech (sent (run st evs)) n0.
Proof.
  revert st; induction evs as [|ev evs IH]; intros st Hp Hns; [done |].
  cbn [run fold_left]. destruct (preempted_step n0 st ev Hp Hns).
  by apply IH.
Qed.

(** *** Where a plan starts *)

Lemma parse_loop_gaze_ah nodes ee ge srv seen (self : SayToPlan) :
  gaze_ah (snd (parse_loop nodes ee ge srv seen self)) = gaze_ah self.
Proof.
  revert seen self; induction nodes as [|n rest IH]; intros seen self;
    cbn [parse_loop]; [done |].
  destruct (String.eqb (ET.tag n) "sayto"); [apply IH |].
  destruct (parse_node n ee ge srv _ _ self) as [self'| e |] eqn:Hn;
    [| done | done].
  rewrite IH. unfold parse_node in Hn.
  repeat (case_match; try done); by inversion Hn.
Qed.

Lemma parse_parameters_gaze_ah (self : SayToPlan) text audience ee ge srv :
  gaze_ah (snd (parse_parameters self text audience ee ge srv)) = None.
Proof.
  unfold parse_parameters.
  repeat (case_match; try done).
  by rewrite parse_loop_gaze_ah.
Qed.

(** When [say_to] returns, the plan's thread is at its start, the plan has
    no gaze handle yet, and the thread has sent nothing. *)
Lemma say_to_starts text audience (st st0 : robot) ah :
  say_to text audience st = (Ok ah, st0) ->
  thread_inv (length (sent st0)) st0.
Proof.
  intros Hsay.
  assert (thread (say_to_plan st0) = Some AtStart
          /\ gaze_ah (say_to_plan st0) = None) as [Hth Hg].
  { revert Hsay.
    unfold say_to, bind, get, ret, request, modify, lift, execute,
      modify_plan, modify, new_object, Robot_add_action_handle, modify.
    destruct (tts_duration_found st);
      (destruct (assert_types (is_audience audience)) as [[]| |];
       [| discriminate | discriminate]);
      match goal with
      | |- context [parse_parameters ?self ?t ?a ?ee ?ge ?srv] =>
          pose proof (parse_parameters_gaze_ah self t a ee ge srv) as Hgz;
          destruct (parse_parameters self t a ee ge srv) as [[[]| |] p]
      end; try discriminate;
      intros [= _ <-]; cbn; done. }
  split; [unfold gaze_handle_ok; by rewrite Hg |]. split; [done |].
  rewrite Hth. intros i rq Hi Hl.
  apply lookup_lt_Some in Hl. lia.
Qed.

(** While a plan's thread is the only one that runs, every thread of an
    earlier plan having ended when [say_to] returns: from the return of
    [say_to] through any sequence of steps of the threads, feedback ticks,
    completion callbacks, cancellations and waits, (1) between a gaze goal
    and a speech goal sent by the plan's thread lies a wait of the thread
    on a handle of the gaze client that has returned.  Whether or not it
    is the only one: (2) once preemption has been requested and no thread
    has sent a speech goal, none sends one, until a call of say-to resets
    the plan. *)
Lemma single_plan_speech_after_gaze_wait text audience (st st0 : robot) ah
      (evs : list Event) :
  say_to text audience st = (Ok ah, st0) ->
  (alone st0 ->
   gaze_before_speech (sent (run st0 evs)) (length (sent st0)))
  /\ (forall evs',
        preempt_requested (say_to_plan (run st0 evs)) = true ->
        no_thread_speech (sent (run st0 evs)) (length (sent st0)) ->
        no_thread_speech (sent (run st0 (evs ++ evs'))) (length (sent st0))).
Proof.
  intros Hsay. split.
  - intros Halone. apply thread_inv_ordered, thread_inv_run; [done |].
    by eapply say_to_starts.
  - intros evs' Hp Hns. unfold run. rewrite fold_left_app.
    by apply preempted_run.
Qed.

End Ordering.

Module OrderingScenario.

Import Scenario Further.
#[local] Existing Instance decimal.

Lemma greeting_returned :
  say_to "Hello, there" (AnEntity P) robot0 = (Ok (SayToActionHandle 0), greeting).
Proof. vm_compute. reflexivity. Qed.

Lemma greeting_alone : alone greeting.
Proof.
  unfold alone. assert (earlier greeting = []) as -> by (vm_compute; reflexivity).
  constructor.
Qed.

(** The greeting said to P and run to the end: between the thread's gaze
    goal (request 2) and its speech goal (request 5) lies its wait on the
    gaze handle. *)
Lemma greeting_speech_after_gaze_wait :
  exists k rq',
    2 < k < 5 /\ sent spoken !! k = Some rq' /\ thread_waited_for_gaze rq'.
Proof.
  destruct (single_plan_speech_after_gaze_wait
              "Hello, there" (AnEntity P) robot0 greeting (SayToActionHandle 0)
              [Schedule []; Schedule []; Schedule []; Schedule []; Schedule []]
              greeting_returned) as [Hordered _].
  apply (Hordered greeting_alone 2 5
           (FromExecute, SendGoal gaze_client
                           (ATargetGoal (mkTargetGoal "P_head" 0.5%Q 0.3%Q)))
           (FromExecute, SendGoal tts_client
                           (ATextToSpeechGoal (mkTextToSpeechGoal "Hello, there")))).
  - vm_compute. lia.
  - vm_compute. lia.
  - vm_compute. reflexivity.
  - by eexists.
  - vm_compute. reflexivity.
  - by eexists.
Qed.

(** Preempted early, the greeting's thread ends without its speech, and no
    later event makes it speak. *)
Lemma preempted_early_never_speaks (evs : list Event) :
  no_thread_speech
    (sent (run greeting
               ([Schedule []; CallPlanCancel; Schedule []; Schedule []; Schedule []]
                  ++ evs)))
    (length (sent greeting)).
Proof.
  destruct (single_plan_speech_after_gaze_wait
              "Hello, there" (AnEntity P) robot0 greeting (SayToActionHandle 0)
              [Schedule []; CallPlanCancel; Schedule []; Schedule []; Schedule []]
              greeting_returned) as [_ Hquiet].
  apply Hquiet.
  - vm_compute. reflexivity.
  - assert (sent (run greeting [Schedule []; CallPlanCancel; Schedule [];
                                Schedule []; Schedule []])
            = [(FromCaller, WaitForService)]) as ->
        by (vm_compute; reflexivity).
    intros j rq Hj Hl [g ->].
    destruct j as [|j]; [discriminate Hl |]. by destruct j.
Qed.

Lemma overlapped_sent :
  sent overlapped_spoken
  = [(FromCaller, WaitForService);
     (FromExecute, WaitForServer gaze_client);
     (FromExecute, SendGoal gaze_client
                     (ATargetGoal (mkTargetGoal "P_head" 0.5%Q 0.3%Q)));
     (FromExecute, WaitForServer tts_client);
     (FromExecute, SendGoal tts_client
                     (ATextToSpeechGoal (mkTextToSpeechGoal "Bye")))].
Proof. vm_compute. reflexivity. Qed.

Lemma revived_sent :
  sent revived_spoken
  = [(FromCaller, WaitForService);
     (FromExecute, WaitForServer gaze_client);
     (FromExecute, SendGoal gaze_client
                     (ATargetGoal (mkTargetGoal "P_head" 0.5%Q 0.3%Q)));
     (FromExecute, WaitForResult (SingleGoalActionHandle 2 gaze_client));
     (FromExecute, WaitForServer tts_client);
     (FromExecute, SendGoal tts_client
                     (ATextToSpeechGoal (mkTextToSpeechGoal "Bye")))].
Proof. vm_compute. reflexivity. Qed.

(** C3 fails. The robot has one plan, which every call of say-to resets,
    and the thread of the plan before is neither joined nor stopped: it
    runs on, on the plan of the new call.  (1) A second say-to arrives
    when the greeting's thread has sent its gaze goal and not yet tested
    the gaze handle: the reset has put the handle back to [None], so the
    thread skips the wait and sends a speech goal, the sentence of the
    second call, with no wait for its gaze in between.  (2) The greeting
    is preempted through its plan before its thread has issued anything,
    and then a second say-to arrives: the reset has put the flag back to
    [False], so the thread gazes, waits and speaks although preemption
    was requested before its speech issuance point.  In both runs the
    thread of the second call has not run at all. *)
Theorem earlier_thread_speaks :
  (earlier overlapped = [AtWait]
   /\ gaze_ah (say_to_plan overlapped) = None
   /\ thread (say_to_plan overlapped_spoken) = Some AtStart
   /\ earlier overlapped_spoken = [Finished]
   /\ drop (length (sent greeting)) (sent overlapped_spoken)
      = [(FromExecute, WaitForServer gaze_client);
         (FromExecute, SendGoal gaze_client
                         (ATargetGoal (mkTargetGoal "P_head" 0.5%Q 0.3%Q)));
         (FromExecute, WaitForServer tts_client);
         (FromExecute, SendGoal tts_client
                         (ATextToSpeechGoal (mkTextToSpeechGoal "Bye")))]
   /\ ~ gaze_before_speech (sent overlapped_spoken) (length (sent greeting)))
  /\ (preempt_requested (say_to_plan cancelled) = true
      /\ commands cancelled = []
      /\ earlier revived = [AtGaze P]
      /\ preempt_requested (say_to_plan revived) = false
      /\ thread (say_to_plan revived_spoken) = Some AtStart
      /\ earlier revived_spoken = [Finished]
      /\ commands revived_spoken
         = [(FromExecute, SendGoal gaze_client
                            (ATargetGoal (mkTargetGoal "P_head" 0.5%Q 0.3%Q)));
            (FromExecute, SendGoal tts_client
                            (ATextToSpeechGoal (mkTextToSpeechGoal "Bye")))]
      /\ ~ no_thread_speech (sent revived_spoken) (length (sent greeting))).
Proof.
  assert (length (sent greeting) = 1) as Hn by (vm_compute; reflexivity).
  split.
  - split; [vm_compute; reflexivity |]. split; [vm_compute; reflexivity |].
    split; [vm_compute; reflexivity |]. split; [vm_compute; reflexivity |].
    rewrite Hn, overlapped_sent. split; [reflexivity |].
    intros H.
    destruct (H 2 4
                (FromExecute, SendGoal gaze_client
                                (ATargetGoal (mkTargetGoal "P_head" 0.5%Q 0.3%Q)))
                (FromExecute, SendGoal tts_client
                                (ATextToSpeechGoal (mkTextToSpeechGoal "Bye"))))
      as (k & rq' & Hk & Hl & [oid Hrq]);
      [lia | lia | reflexivity | by eexists | reflexivity | by eexists |].
    assert (k = 3) as -> by lia.
    injection Hl as <-. discriminate Hrq.
  - split; [vm_compute; reflexivity |]. split; [vm_compute; reflexivity |].
    split; [vm_compute; reflexivity |]. split; [vm_compute; reflexivity |].
    split; [vm_compute; reflexivity |]. split; [vm_compute; reflexivity |].
    split; [vm_compute; reflexivity |].
    rewrite Hn, revived_sent. intros H.
    apply (H 5 (FromExecute,
                SendGoal tts_client
                         (ATextToSpeechGoal (mkTextToSpeechGoal "Bye"))));
      [lia | reflexivity | by eexists].
Qed.

End OrderingScenario.

(** ** More on words and gaze-change locations *)
Module MoreWords.

Import Re WordScan ReFacts Words.

(** X1. A space separates words: the words of two texts joined by a space are
    those of the one and those of the other. *)
Theorem num_words_space (a b : string) :
  num_words (a ++ " " ++ b) = num_words a + num_words b.
Proof.
  rewrite !num_words_scan, !scan_app.
  assert (forall st, scan st " " = 0) as -> by (intros []; reflexivity).
  assert (forall st, state_after st " " = Outside) as ->
      by (intros []; reflexivity).
  lia.
Qed.

Lemma split_app_clause_end a c b :
  is_clause_end c = true ->
  split [One is_clause_end] (a ++ String c b)
  = (split [One is_clause_end] a ++ split [One is_clause_end] b)%list.
Proof.
  intros Hc. induction a as [|d a IH].
  - change (EmptyString ++ String c b) with (String c b).
    rewrite split_clause_step, Hc. reflexivity.
  - change (String d a ++ String c b) with (String d (a ++ String c b)).
    rewrite !split_clause_step, IH.
    destruct (is_clause_end d); [done |].
    pose proof (scan_split Outside a) as Hne.
    by destruct (split [One is_clause_end] a).
Qed.

Lemma gaze_change_loop_app l1 l2 locs len :
  gaze_change_loop (l1 ++ l2) locs len
  = gaze_change_loop l2 (gaze_change_loop l1 locs len) (len + total_words l1).
Proof.
  revert locs len; induction l1 as [|s l1 IH]; intros locs len;
    cbn [app gaze_change_loop total_words foldr].
  - by rewrite Nat.add_0_r.
  - rewrite IH, num_words_scan. fold (total_words l1).
    by rewrite Nat.add_assoc.
Qed.

Lemma total_words_split text :
  total_words (split [One is_clause_end] text) = num_words text.
Proof.
  pose proof (scan_split Outside text) as H. rewrite num_words_scan.
  destruct (split [One is_clause_end] text) as [|p r]; [done |].
  cbn [total_words foldr]. fold (total_words r). lia.
Qed.

(** X2. After every clause: where a sentence has a clause end, the index one
    past the words before it is a gaze-change location. *)
Theorem gaze_change_after_clause (a : string) (c : ascii) (b : string) :
  is_clause_end c = true ->
  is_Some (get_gaze_change_locations (a ++ String c b) !! (num_words a + 1)).
Proof.
  intros Hc. unfold get_gaze_change_locations.
  change (one_of ",.?!") with is_clause_end.
  rewrite (split_app_clause_end a c b Hc), gaze_change_loop_app.
  apply gaze_change_loop_keeps.
  pose proof (gaze_change_loop_last (split [One is_clause_end] a) ∅ 0) as H.
  rewrite total_words_split in H. apply H.
  pose proof (scan_split Outside a) as Hne.
  by destruct (split [One is_clause_end] a).
Qed.

Lemma gaze_change_after_clause_witness :
  is_Some (get_gaze_change_locations "Hello, there" !! 2).
Proof.
  apply (gaze_change_after_clause "Hello" ","%char " there"). reflexivity.
Defined.

Lemma gaze_change_loop_bounds sentences locs len k :
  is_Some (gaze_change_loop sentences locs len !! k) ->
  is_Some (locs !! k) \/ (len + 1 <= k <= len + total_words sentences + 1).
Proof.
  revert locs len; induction sentences as [|s r IH]; intros locs len H;
    cbn [gaze_change_loop total_words foldr] in *; [by left |].
  fold (total_words r). rewrite num_words_scan in H.
  apply IH in H as [H | H].
  - rewrite lookup_insert in H. case_decide; [right; lia | by left].
  - right. lia.
Qed.

(** X3. Every gaze-change location lies between 1 and one past the last
    word. *)
Theorem gaze_change_locations_bounds (text : string) (k : nat) :
  is_Some (get_gaze_change_locations text !! k) ->
  1 <= k <= num_words text + 1.
Proof.
  unfold get_gaze_change_locations.
  change (one_of ",.?!") with is_clause_end.
  intros [H | H]%gaze_change_loop_bounds.
  - rewrite lookup_empty in H. by destruct H.
  - rewrite total_words_split in H. lia.
Qed.

Lemma gaze_change_locations_bounds_witness :
  1 <= 2 <= num_words "Hello, there" + 1.
Proof.
  apply (gaze_change_locations_bounds "Hello, there" 2).
  vm_compute. by eexists.
Defined.

Lemma split_no_clause_end text :
  no_clause_end text = true -> split [One is_clause_end] text = [text].
Proof.
  induction text as [|c t IH]; [done |]. cbn [no_clause_end].
  intros [Hc Ht]%andb_true_iff. rewrite split_clause_step.
  apply negb_true_iff in Hc. rewrite Hc, (IH Ht). reflexivity.
Qed.

(** X4. A sentence without clause punctuation has one gaze-change location,
    the one past its last word. *)
Theorem gaze_change_locations_one_clause (text : string) :
  no_clause_end text = true ->
  get_gaze_change_locations text = {[ num_words text + 1 := "" ]}.
Proof.
  intros H. unfold get_gaze_change_locations.
  change (one_of ",.?!") with is_clause_end.
  rewrite (split_no_clause_end text H). cbn [gaze_change_loop].
  by rewrite insert_empty.
Qed.

Lemma gaze_change_locations_one_clause_witness :
  get_gaze_change_locations "Hello there" = {[ num_words "Hello there" + 1 := "" ]}.
Proof. apply gaze_change_locations_one_clause. reflexivity. Defined.

End MoreWords.

(** ** More on the sentence *)
Module MoreSentence.

Import Re WordScan ReFacts Words.

Lemma sentence_loop_outcome nodes text :
  if existsb tail_without_text nodes
  then sentence_loop nodes text = Raise none_plus_str
  else exists s, sentence_loop nodes text = Ok s.
Proof.
  revert text; induction nodes as [|n rest IH]; intros text;
    cbn [existsb sentence_loop]; [by eexists |].
  unfold tail_without_text at 1.
  destruct (String.eqb (ET.tag n) "sayto"); cbn [negb andb orb]; [apply IH |].
  destruct (ET.text n) as [t|], (ET.tail n) as [tl|]; cbn [orb];
    try apply IH; done.
Qed.

(** X5. [get_sentence] raises [TypeError] exactly when some tag other than
    [sayto] has a tail but no text, as an empty tag followed by text has;
    otherwise it returns.  (The fragment is taken to be well formed.) *)
Theorem get_sentence_outcome (text : string) (tree : ET.Element) :
  ET.fromstring (wrap text) = Ok tree ->
  if existsb tail_without_text (ET.iter tree)
  then get_sentence text = Raise none_plus_str
  else exists s, get_sentence text = Ok s.
Proof.
  intros Htree. unfold get_sentence. rewrite Htree.
  pose proof (sentence_loop_outcome (ET.iter tree) "") as H.
  destruct (existsb tail_without_text (ET.iter tree)).
  - by rewrite H.
  - destruct H as [s ->]. by eexists.
Qed.

Lemma get_sentence_outcome_witness :
  get_sentence "<wave target='P'/> hello" = Raise none_plus_str.
Proof.
  assert (ET.fromstring (wrap "<wave target='P'/> hello")
          = Ok (ET.mkElement "sayto" ∅ None None
                  [ET.mkElement "wave" {[ "target" := "P" ]} None
                                (Some " hello") []])) as Htree
      by (vm_compute; reflexivity).
  exact (get_sentence_outcome _ _ Htree).
Defined.

(** White space is no part of a word. *)
Lemma whitespace_not_word c :
  is_whitespace c = true -> is_word c = false /\ is_apostrophe c = false.
Proof.
  destruct c as [[] [] [] [] [] [] [] []]; vm_compute;
    intros H; try discriminate H; by split.
Qed.

Lemma scan_whitespace st c t :
  is_whitespace c = true -> scan st (String c t) = scan Outside t.
Proof.
  intros [Hw Ha]%whitespace_not_word.
  destruct st; cbn [scan starts next]; by rewrite ?Hw, ?Ha.
Qed.

Lemma lstrip_scan s : scan Outside (lstrip s) = scan Outside s.
Proof.
  induction s as [|c t IH]; [done |]. cbn [lstrip].
  destruct (is_whitespace c) eqn:Hc; [| done].
  by rewrite IH, scan_whitespace.
Qed.

Lemma rstrip_scan st s : scan st (rstrip s) = scan st s.
Proof.
  revert st; induction s as [|c t IH]; intros st; [done |].
  cbn [rstrip]. cbn [scan]. rewrite <- (IH (next st c)).
  destruct (rstrip t) as [|d t'] eqn:E; [| done].
  destruct (is_whitespace c) eqn:Hc; [| done].
  destruct (whitespace_not_word c Hc) as [Hw Ha].
  destruct st; cbn [scan starts]; by rewrite ?Hw.
Qed.

(** Stripping changes no word count. *)
Lemma num_words_strip s : num_words (strip s) = num_words s.
Proof.
  rewrite !num_words_scan. unfold strip. by rewrite rstrip_scan, lstrip_scan.
Qed.

Lemma sentence_loop_words nodes text s :
  state_after Outside text = Outside ->
  sentence_loop nodes text = Ok s ->
  num_words s = num_words text + sum_list_with spoken_words nodes.
Proof.
  revert text; induction nodes as [|n rest IH]; intros text Hout Hs;
    cbn [sentence_loop sum_list_with] in *.
  - injection Hs as <-. lia.
  - unfold spoken_words at 1.
    destruct (add_text_words text (ET.text n) Hout) as [H1 H1'].
    destruct (String.eqb (ET.tag n) "sayto").
    + rewrite (IH _ H1' Hs). lia.
    + destruct (ET.tail n) as [tl|].
      * destruct (ET.text n) as [t|] eqn:Et; [| done].
        destruct (add_text_words (add_text text (Some t))
                    (Some t) H1') as [H2 H2'].
        cbn [add_text] in H1, H2, H2', Hs. cbn [words_of] in *.
        rewrite (IH _ H2' Hs). lia.
      * rewrite (IH _ H1' Hs). lia.
Qed.

(** X6. The words of the sentence: those of the texts of the nodes, the text
    of a tag that has a tail counted twice; the words of the tails are not
    among them. *)
Theorem get_sentence_words (text : string) (tree : ET.Element) (s : string) :
  ET.fromstring (wrap text) = Ok tree ->
  get_sentence text = Ok s ->
  num_words s = sum_list_with spoken_words (ET.iter tree).
Proof.
  intros Htree. unfold get_sentence. rewrite Htree.
  destruct (sentence_loop (ET.iter tree) "") as [s0| |] eqn:Hs; [| done | done].
  intros [= <-]. rewrite num_words_strip.
  by rewrite (sentence_loop_words _ "" _ eq_refl Hs).
Qed.

Lemma get_sentence_words_witness :
  num_words "Hi Hi there" = sum_list_with spoken_words (ET.iter Scenario.tagged_tree).
Proof.
  apply (get_sentence_words Scenario.tagged).
  - vm_compute. reflexivity.
  - vm_compute. reflexivity.
Defined.

End MoreSentence.

(** ** The registry of the world *)
Module MoreWorld.

Lemma add_to_world_lookup (w w1 : World) (o : WorldObject) :
  add_to_world w o = Ok w1 ->
  entity_id_lookup w1
  = match entity_id_lookup w !! object_id o with
    | Some _ => entity_id_lookup w
    | None => <[object_id o := o]> (entity_id_lookup w)
    end.
Proof.
  unfold add_to_world.
  destruct o as [e|q|id]; [| | done];
    destruct (entity_id_lookup w !! _); by intros [= <-].
Qed.

(** X11. An object registered under an identifier that is not taken is what
    the identifier resolves to afterwards. *)
Theorem registered_object_found (w : World) (o : WorldObject) :
  registrable o ->
  entity_id_lookup w !! object_id o = None ->
  exists w1,
    add_to_world w o = Ok w1
    /\ entity_from_entity_id w1 (StrId (object_id o)) = inl o.
Proof.
  intros Hreg Hfresh.
  assert (exists w1, add_to_world w o = Ok w1) as [w1 Hadd].
  { unfold add_to_world. destruct o as [e|q|id]; [| | done];
      rewrite Hfresh; by eexists. }
  exists w1. split; [done |].
  unfold entity_from_entity_id.
  rewrite (add_to_world_lookup _ _ _ Hadd), Hfresh.
  by rewrite lookup_insert_eq.
Qed.

Lemma registered_object_found_witness :
  exists w1,
    add_to_world empty_world (IsEntity Scenario.P) = Ok w1
    /\ entity_from_entity_id w1 (StrId "P") = inl (IsEntity Scenario.P).
Proof.
  apply (registered_object_found empty_world (IsEntity Scenario.P)).
  - exact I.
  - reflexivity.
Defined.

(** X12. Registering an object changes what no other identifier resolves to,
    and nothing for an identifier that is taken: the first object
    registered under an identifier stays. *)
Theorem lookups_are_stable (w w1 : World) (o : WorldObject) (id : string) :
  add_to_world w o = Ok w1 ->
  id <> object_id o \/ is_Some (entity_id_lookup w !! id) ->
  entity_from_entity_id w1 (StrId id) = entity_from_entity_id w (StrId id).
Proof.
  intros Hadd Hid. unfold entity_from_entity_id.
  rewrite (add_to_world_lookup _ _ _ Hadd).
  destruct (entity_id_lookup w !! object_id o) as [x|] eqn:Hx; [done |].
  destruct Hid as [Hne | [y Hy]].
  - by rewrite lookup_insert_ne.
  - rewrite lookup_insert_ne; [done |]. intros <-. by rewrite Hx in Hy.
Qed.

Lemma lookups_are_stable_witness :
  let w := mkWorld [Scenario.P] (<["P" := IsEntity Scenario.P]> ∅) in
  let w1 := mkWorld [Scenario.P]
              (<["Q" := IsQuery (mkQuery "Q")]> (<["P" := IsEntity Scenario.P]> ∅)) in
  entity_from_entity_id w1 (StrId "P") = entity_from_entity_id w (StrId "P").
Proof.
  intros w w1.
  apply (lookups_are_stable w w1 (IsQuery (mkQuery "Q")) "P").
  - reflexivity.
  - left. discriminate.
Defined.

Lemma empty_world_ok : world_ok empty_world.
Proof.
  split; [constructor |]. split.
  - intros e. cbn. rewrite lookup_empty. split; [by intros ?%elem_of_nil | done].
  - intros id o. cbn. by rewrite lookup_empty.
Qed.

(** X13. The registry stays consistent when an object is registered: the
    entities listed keep distinct identifiers, an entity is listed exactly
    when its identifier resolves to it, and identifiers resolve to
    entities and queries that have them. *)
Theorem registry_stays_consistent (w w1 : World) (o : WorldObject) :
  world_ok w -> add_to_world w o = Ok w1 -> world_ok w1.
Proof.
  intros (Hnd & Hlist & Hids) Hadd.
  pose proof (add_to_world_lookup _ _ _ Hadd) as Hl.
  unfold add_to_world in Hadd.
  destruct o as [e|q|id]; [| | done]; cbn [object_id] in *;
    destruct (entity_id_lookup w !! _) as [x|] eqn:Hx;
    injection Hadd as <-; try done; unfold world_ok;
    cbn [entities entity_id_lookup] in *.
  - split; [| split].
    + rewrite fmap_app. apply NoDup_app. split; [done |]. split.
      * intros i Hi ->%list_elem_of_singleton.
        apply list_elem_of_fmap in Hi as (e' & He' & Hin).
        apply Hlist in Hin. rewrite <- He' in Hin. by rewrite Hx in Hin.
      * apply NoDup_singleton.
    + intros e'. rewrite elem_of_app, list_elem_of_singleton.
      destruct (decide (get_id e' = get_id e)) as [Heq|Hne].
      * rewrite Heq, lookup_insert_eq. split.
        -- intros [Hin| ->]; [| done].
           apply Hlist in Hin. rewrite Heq in Hin. by rewrite Hx in Hin.
        -- intros [= ->]. by right.
      * rewrite lookup_insert_ne by done. rewrite <- Hlist. split.
        -- intros [Hin| ->]; done.
        -- by left.
    + intros id o. destruct (decide (id = get_id e)) as [->|Hne].
      * rewrite lookup_insert_eq. by intros [= <-].
      * rewrite lookup_insert_ne by done. apply Hids.
  - split; [done |]. split.
    + intros e'. destruct (decide (get_id e' = query_id q)) as [Heq|Hne].
      * rewrite Heq, lookup_insert_eq. split; [| done].
        intros Hin. apply Hlist in Hin. rewrite Heq in Hin. by rewrite Hx in Hin.
      * rewrite lookup_insert_ne by done. apply Hlist.
    + intros id o. destruct (decide (id = query_id q)) as [->|Hne].
      * rewrite lookup_insert_eq. by intros [= <-].
      * rewrite lookup_insert_ne by done. apply Hids.
Qed.

Lemma registry_stays_consistent_witness :
  world_ok (mkWorld [Scenario.P] (<["P" := IsEntity Scenario.P]> ∅)).
Proof.
  apply (registry_stays_consistent empty_world _ (IsEntity Scenario.P)).
  - exact empty_world_ok.
  - reflexivity.
Defined.

(** X14. Whether an identifier is reported queryable is decided by the first
    object registered under it: a query is queryable and answers with the
    identifiers of its results in their order, an entity is not and
    answers with none, whatever is registered under the identifier
    later. *)
Theorem queryable_by_first_registration (w w1 w2 : World) (o o' : WorldObject)
        (results : list Entity) :
  entity_id_lookup w !! object_id o = None ->
  add_to_world w o = Ok w1 ->
  object_id o' = object_id o ->
  add_to_world w1 o' = Ok w2 ->
  if_queryable_execute_callback w2 (object_id o) results
  = inl (match o with
         | IsQuery _ =>
             mkIfQueryableExecuteResponse true (get_id <$> results)
         | _ => mkIfQueryableExecuteResponse false []
         end).
Proof.
  intros Hfresh Hadd Hid Hadd'.
  pose proof (add_to_world_lookup _ _ _ Hadd) as H1.
  pose proof (add_to_world_lookup _ _ _ Hadd') as H2.
  rewrite Hfresh in H1. rewrite Hid, H1, lookup_insert_eq in H2.
  unfold if_queryable_execute_callback, entity_from_entity_id.
  rewrite H2, lookup_insert_eq.
  destruct o as [e|q|id]; [done | done |].
  by unfold add_to_world in Hadd.
Qed.

Lemma queryable_by_first_registration_witness :
  if_queryable_execute_callback
    (mkWorld [] (<["P" := IsQuery (mkQuery "P")]> ∅)) "P" [Scenario.P]
  = inl (mkIfQueryableExecuteResponse true ["P"]).
Proof.
  apply (queryable_by_first_registration
           empty_world
           (mkWorld [] (<["P" := IsQuery (mkQuery "P")]> ∅))
           (mkWorld [] (<["P" := IsQuery (mkQuery "P")]> ∅))
           (IsQuery (mkQuery "P")) (IsEntity Scenario.P)
           [Scenario.P]); reflexivity.
Defined.

(** X21. [add_to_world] is not atomic.  Run alone, its statements do
    what the method does as a whole.  But when two calls for entities
    with one identifier, unregistered so far, overlap so that both test
    the table before either stores, both entities are listed, the
    identifier resolves to the one stored last, and the registry is not
    consistent. *)
Theorem registrations_overlap (w : World) (e1 e2 : Entity) :
  entity_id_lookup w !! get_id e1 = None ->
  get_id e2 = get_id e1 ->
  (forall w' o,
      registrations_run ([AtTest o], w') [0; 0; 0]%nat
      = match add_to_world w' o with
        | Ok w'' => ([Returned], w'')
        | Raise e => ([Raised e], w')
        | Blocks => ([AtTest o], w')
        end)
  /\ registrations_run ([AtTest (IsEntity e1); AtTest (IsEntity e2)], w)
                        [0; 1; 0; 0; 1; 1]%nat
     = ([Returned; Returned],
        mkWorld (entities w ++ [e1; e2])
                (<[get_id e1 := IsEntity e2]> (entity_id_lookup w)))
  /\ ~ world_ok (mkWorld (entities w ++ [e1; e2])
                         (<[get_id e1 := IsEntity e2]> (entity_id_lookup w))).
Proof.
  intros Hnew Hid. split; [| split].
  - intros w' o. unfold registrations_run, add_to_world.
    destruct o as [e|q|id]; cbn [fold_left registrations_step fst snd
                                  lookup list_lookup registration_step].
    + cbn [object_id].
      destruct (entity_id_lookup w' !! get_id e); cbn; [by destruct w' | done].
    + cbn [object_id].
      destruct (entity_id_lookup w' !! query_id q); cbn; [by destruct w' | done].
    + done.
  - unfold registrations_run.
    cbn [fold_left registrations_step fst snd lookup list_lookup
         registration_step object_id list_insert insert].
    rewrite Hnew. cbn. rewrite Hid, Hnew. cbn.
    rewrite Hid, insert_insert_eq, <- app_assoc. done.
  - intros [Hnd _]. cbn [entities] in Hnd.
    rewrite fmap_app in Hnd. apply NoDup_app in Hnd as (_ & _ & Hnd).
    cbn in Hnd. rewrite Hid in Hnd. apply NoDup_cons in Hnd as [Hnd _].
    apply Hnd. by left.
Qed.

Lemma registrations_overlap_witness :
  registrations_run
    ([AtTest (IsEntity (mkEntity "P" None));
      AtTest (IsEntity (mkEntity "P" None))], empty_world)
    [0; 1; 0; 0; 1; 1]%nat
  = ([Returned; Returned],
     mkWorld (entities empty_world ++ [mkEntity "P" None; mkEntity "P" None])
             (<["P" := IsEntity (mkEntity "P" None)]>
                (entity_id_lookup empty_world))).
Proof.
  apply (registrations_overlap empty_world
           (mkEntity "P" None) (mkEntity "P" None)); reflexivity.
Defined.

End MoreWorld.

(** ** Utterances that compile *)
Section MoreCompile.

Context {float : Type} {PF : PyFloat float}.

Lemma same_but_tables_refl (p : @SayToPlan float) : same_but_tables p p.
Proof. by repeat split. Qed.

Lemma same_but_tables_trans (p1 p2 p3 : @SayToPlan float) :
  same_but_tables p1 p2 -> same_but_tables p2 p3 -> same_but_tables p1 p3.
Proof.
  unfold same_but_tables. intros H1 H2.
  destruct_and!. repeat split; congruence.
Qed.

Lemma parse_node_fields node ee ge srv a b (self self' : SayToPlan) :
  parse_node node ee ge srv a b self = Ok self' -> same_but_tables self self'.
Proof.
  unfold parse_node. intros H.
  repeat (case_match; try done); injection H as <-; by repeat split.
Qed.

Lemma parse_loop_compiles nodes ee ge srv seen (self : SayToPlan) :
  (forall s a b, is_Some (srv s a b)) ->
  Forall (compiles ee ge) nodes ->
  exists p, parse_loop nodes ee ge srv seen self = (Ok (), p)
            /\ same_but_tables self p.
Proof.
  intros Hsrv Hnodes. revert seen self.
  induction Hnodes as [|n rest Hn Hrest IH]; intros seen self;
    cbn [parse_loop].
  - exists self. split; [done | apply same_but_tables_refl].
  - destruct (String.eqb (ET.tag n) "sayto") eqn:Htag; [apply IH |].
    destruct (parse_node_compiles n ee ge srv (num_words seen)
                (num_words (add_text seen (ET.text n))) self Hsrv Htag Hn)
      as [self' Hself']. rewrite Hself'.
    destruct (IH (add_text (add_text seen (ET.text n)) (ET.tail n)) self')
      as (p & -> & Hp).
    exists p. split; [done |].
    eapply same_but_tables_trans; [| exact Hp].
    by eapply parse_node_fields.
Qed.

Lemma parse_parameters_ok (self : SayToPlan) text audience ee ge srv tree s :
  ET.fromstring (wrap text) = Ok tree ->
  get_sentence text = Ok s ->
  is_entity_or_query audience = true ->
  (forall s a b, is_Some (srv s a b)) ->
  Forall (compiles ee ge) (ET.iter tree) ->
  exists p,
    parse_parameters self text audience ee ge srv = (Ok (), p)
    /\ same_but_tables
         (set_gaze_change_locations (get_gaze_change_locations s)
            (set_sentence s (set_audience audience new_plan))) p.
Proof.
  intros Htree Hs Haud Hsrv Hnodes. unfold parse_parameters.
  rewrite Haud. cbn [assert_types]. rewrite Hs, Htree.
  by apply parse_loop_compiles.
Qed.

(** X8. An utterance compiles when it is a well-formed fragment whose sentence
    can be extracted, the audience is an entity or a query, the timing
    service answers and every tag is an expression with readable numbers
    or a gesture with a target.  The plan is then the new one, whatever it
    was before: the audience and the sentence are set, the gaze-change
    locations are those of the sentence, no handle is held, no preemption
    is requested and no thread runs. *)
Theorem parse_parameters_compiles (self : SayToPlan) text aud ee ge srv
        tree s :
  ET.fromstring (wrap text) = Ok tree ->
  get_sentence text = Ok s ->
  is_entity_or_query aud = true ->
  (forall s a b, is_Some (srv s a b)) ->
  Forall (compiles ee ge) (ET.iter tree) ->
  exists p,
    parse_parameters self text aud ee ge srv = (Ok (), p)
    /\ audience p = aud
    /\ sentence p = s
    /\ gaze_change_locations p = get_gaze_change_locations s
    /\ say_ah p = None /\ gaze_ah p = None /\ other_ahs p = []
    /\ preempt_requested p = false
    /\ thread p = None.
Proof.
  intros Htree Hs Haud Hsrv Hnodes.
  destruct (parse_parameters_ok self text aud ee ge srv tree s
              Htree Hs Haud Hsrv Hnodes) as (p & Hp & H).
  exists p. split; [done |].
  unfold same_but_tables in H. cbn in H. destruct_and!. by repeat split.
Qed.

(** X9. A call of say-to with an utterance that compiles returns a handle on
    the plan, a new object, and registers it as the robot's latest handle.
    The plan's thread is at its start; no actuator command has been sent
    by the call. *)
Theorem say_to_returns (st : Robot) text aud tree s :
  ET.fromstring (wrap text) = Ok tree ->
  get_sentence text = Ok s ->
  is_entity_or_query aud = true ->
  (forall s a b, is_Some (tts_duration_srv st s a b)) ->
  Forall (compiles (expression_enum st) (gesture_enum st)) (ET.iter tree) ->
  exists st',
    say_to text aud st = (Ok (SayToActionHandle (next_oid st)), st')
    /\ action_handles st'
       = (action_handles st ++ [SayToActionHandle (next_oid st)])%list
    /\ commands st' = commands st
    /\ thread (say_to_plan st') = Some AtStart
    /\ audience (say_to_plan st') = aud
    /\ sentence (say_to_plan st') = s
    /\ preempt_requested (say_to_plan st') = false.
Proof.
  intros Htree Hs Haud Hsrv Hnodes.
  assert (is_audience aud = true) as Haud' by (by destruct aud).
  destruct (parse_parameters_ok (say_to_plan st) text aud
              (expression_enum st) (gesture_enum st) (tts_duration_srv st)
              tree s Htree Hs Haud Hsrv Hnodes) as (p & Hp & H).
  unfold same_but_tables in H. cbn in H. destruct_and!.
  unfold say_to, execute, Robot_add_action_handle, new_object, modify_plan,
    bind, get, ret, request, modify, lift, outlive.
  rewrite Haud'. cbn [assert_types].
  destruct (tts_duration_found st) eqn:Hf.
  - rewrite Hp.
    destruct (thread (say_to_plan st));
      (eexists; split; [reflexivity |]); cbn; by repeat split.
  - cbn [expression_enum gesture_enum tts_duration_srv say_to_plan
         set_tts_duration_found set_sent].
    rewrite Hp.
    destruct (thread (say_to_plan st));
      (eexists; split; [reflexivity |]); cbn;
      (repeat split; try done); by apply commands_sent_other.
Qed.

(** X10. Say-to admits a list of people as the audience, and the plan's thread
    provides for one, but compiling the utterance does not: the call
    raises [TypeError] whatever the text is, with the plan reset, no
    thread started, no handle registered and no actuator command sent.
    ([ParamFormatting.assert_types] is taken to raise [TypeError] for a
    value of none of the types it is given.) *)
Theorem say_to_list_audience (st : Robot) text (people : list Entity) :
  exists st',
    say_to text (AList people) st = (Raise (TypeError "assert_types"), st')
    /\ say_to_plan st' = set_audience (AList people) new_plan
    /\ action_handles st' = action_handles st
    /\ commands st' = commands st.
Proof.
  unfold say_to, bind, get, ret, request, modify, lift, outlive.
  cbn [is_audience assert_types].
  destruct (tts_duration_found st) eqn:Hf.
  - destruct (thread (say_to_plan st));
      (eexists; split; [reflexivity |]); by repeat split.
  - cbn [say_to_plan set_tts_duration_found set_sent].
    destruct (thread (say_to_plan st));
      (eexists; split; [reflexivity |]); cbn; repeat split;
      by apply commands_sent_other.
Qed.

End MoreCompile.

Module MoreCompileScenario.

Import Scenario.
#[local] Existing Instance decimal.

Lemma srv_answers : forall (s : string) (a b : nat), is_Some (one_second s a b).
Proof. intros s a b. by eexists. Qed.

Lemma tagged_compiles :
  Forall (compiles (PF := decimal) ["happy"] ["wave"]) (ET.iter tagged_tree).
Proof.
  change (ET.iter tagged_tree) with [tagged_tree; happy_node; wave_node].
  constructor; [| constructor; [| constructor; [| constructor]]];
    (split; [reflexivity |]); intros H1 H2;
    try discriminate H1; try discriminate H2;
    split; unfold float_ok; vm_compute; try done; by eexists.
Qed.

Lemma word_indices_of_a_tag_witness :
  parse_loop (PF := decimal) ([tagged_tree] ++ happy_node :: [wave_node])
             ["happy"] ["wave"] one_second "" new_plan
  = match parse_loop (PF := decimal) [tagged_tree] ["happy"] ["wave"]
            one_second "" new_plan with
    | (Ok _, self1) =>
        match parse_node happy_node ["happy"] ["wave"] one_second
                (words_seen [tagged_tree])
                (words_seen [tagged_tree] + words_of (ET.text happy_node))
                self1 with
        | Ok self2 =>
            parse_loop [wave_node] ["happy"] ["wave"] one_second
              (seen_text_after ([tagged_tree] ++ [happy_node]) "") self2
        | Raise e => (Raise e, self1)
        | Blocks => (Blocks, self1)
        end
    | other => other
    end.
Proof.
  apply (word_indices_of_a_tag (PF := decimal) [tagged_tree] happy_node
           [wave_node] ["happy"] ["wave"] one_second new_plan).
  reflexivity.
Defined.

Lemma parse_parameters_compiles_witness :
  exists p,
    parse_parameters (PF := decimal) new_plan tagged (AnEntity P)
                     ["happy"] ["wave"] one_second = (Ok (), p)
    /\ audience p = AnEntity P
    /\ sentence p = "Hi Hi there"
    /\ gaze_change_locations p = get_gaze_change_locations "Hi Hi there"
    /\ say_ah p = None /\ gaze_ah p = None /\ other_ahs p = []
    /\ preempt_requested p = false
    /\ thread p = None.
Proof.
  apply (parse_parameters_compiles (PF := decimal) new_plan tagged (AnEntity P)
           ["happy"] ["wave"] one_second tagged_tree "Hi Hi there").
  - exact tagged_parses.
  - exact tagged_sentence.
  - reflexivity.
  - exact srv_answers.
  - exact tagged_compiles.
Defined.

Lemma say_to_returns_witness :
  exists st',
    say_to (PF := decimal) tagged (AnEntity P) robot0
    = (Ok (SayToActionHandle 0), st')
    /\ action_handles st' = [SayToActionHandle 0]
    /\ commands st' = []
    /\ thread (say_to_plan st') = Some AtStart
    /\ audience (say_to_plan st') = AnEntity P
    /\ sentence (say_to_plan st') = "Hi Hi there"
    /\ preempt_requested (say_to_plan st') = false.
Proof.
  apply (say_to_returns (PF := decimal) robot0 tagged (AnEntity P)
           tagged_tree "Hi Hi there").
  - exact tagged_parses.
  - exact tagged_sentence.
  - reflexivity.
  - exact srv_answers.
  - exact tagged_compiles.
Defined.

End MoreCompileScenario.

(** ** Cancelling and waiting on action handles *)
Section MoreHandles.

Context {float : Type} {PF : PyFloat float}.

Lemma remove_first_absent (x : ActionHandle) (l : list ActionHandle) :
  x ∉ l -> remove_first x l = l.
Proof.
  induction l as [|y r IH]; [done |]. intros Hx. cbn [remove_first].
  apply not_elem_of_cons in Hx as [Hne Hx].
  destruct (decide (x = y)); [done |]. by rewrite IH.
Qed.

Lemma remove_first_sublist (x : ActionHandle) (l : list ActionHandle) :
  remove_first x l `sublist_of` l.
Proof.
  induction l as [|y r IH]; [done |]. cbn [remove_first].
  destruct (decide (x = y)); [by apply sublist_cons | by apply sublist_skip].
Qed.

Lemma remove_first_gone (x : ActionHandle) (l : list ActionHandle) :
  NoDup l -> x ∉ remove_first x l.
Proof.
  induction 1 as [|y r Hy Hr IH]; cbn [remove_first]; [apply not_elem_of_nil |].
  destruct (decide (x = y)) as [->|Hne]; [done |].
  apply not_elem_of_cons. by split.
Qed.

Lemma remove_first_other (x y : ActionHandle) (l : list ActionHandle) :
  y <> x -> y ∈ remove_first x l <-> y ∈ l.
Proof.
  intros Hne. induction l as [|z r IH]; [done |]. cbn [remove_first].
  destruct (decide (x = z)) as [<-|Hz].
  - rewrite elem_of_cons. split; [by right | by intros [?|?]].
  - rewrite !elem_of_cons, IH. done.
Qed.

Lemma retire_sublist (hs l : list ActionHandle) : retire hs l `sublist_of` l.
Proof.
  revert l; induction hs as [|h r IH]; intros l; [done |].
  unfold retire. cbn [fold_left]. etrans; [apply IH |].
  apply remove_first_sublist.
Qed.

Lemma retire_gone (hs l : list ActionHandle) (h : ActionHandle) :
  NoDup l -> h ∈ hs -> h ∉ retire hs l.
Proof.
  revert l; induction hs as [|x r IH]; intros l Hl Hin;
    [by apply elem_of_nil in Hin |].
  unfold retire. cbn [fold_left]. fold (retire r (remove_first x l)).
  destruct (decide (h ∈ r)) as [Hr|Hr].
  - apply IH; [| done]. eapply sublist_NoDup; [done | apply remove_first_sublist].
  - apply elem_of_cons in Hin as [-> | Hin]; [| done].
    intros Hx. eapply (remove_first_gone x l Hl).
    eapply elem_of_sublist; [exact Hx | apply retire_sublist].
Qed.

Lemma retire_other (hs l : list ActionHandle) (h : ActionHandle) :
  h ∉ hs -> h ∈ retire hs l <-> h ∈ l.
Proof.
  revert l; induction hs as [|x r IH]; intros l Hin; [done |].
  apply not_elem_of_cons in Hin as [Hne Hin].
  unfold retire. cbn [fold_left]. fold (retire r (remove_first x l)).
  rewrite IH by done. by apply remove_first_other.
Qed.

(** Removing a handle, whether it is outstanding or not. *)
Lemma remove_handle_state (st : @Robot float) (ah : ActionHandle) :
  Robot_remove_action_handle (Some ah) st
  = (Ok (), set_action_handles (remove_first ah (action_handles st)) st).
Proof.
  unfold Robot_remove_action_handle, bind, lift, get, ret, modify.
  cbn [is_some assert_types]. unfold contains.
  destruct (decide (ah ∈ action_handles st)) as [Hin|Hnot].
  - by rewrite bool_decide_eq_true_2.
  - rewrite bool_decide_eq_false_2 by done.
    rewrite remove_first_absent by done. by destruct st.
Qed.

Lemma cancel_clients_state (hs : list ActionHandle) (st : @Robot float) :
  Forall (fun h => is_Some (handle_client h)) hs ->
  Robot_cancel (Some <$> hs) st
  = (Ok (), set_action_handles (retire hs (action_handles st))
              (set_sent (sent st ++ cancels (control st) hs) st)).
Proof.
  intros Hhs. revert st. induction Hhs as [|h r Hh Hr IH]; intros st.
  - cbn. rewrite app_nil_r. by destruct st.
  - unfold Robot_cancel in *. cbn [fmap list_fmap for_each].
    unfold bind at 1.
    assert ((bind (lift (assert_types (is_some (Some h))))
               (fun _ => bind (cancel_action h)
                           (fun _ => Robot_remove_action_handle (Some h)))) st
            = (Ok (), set_action_handles (remove_first h (action_handles st))
                        (set_sent (sent st ++ [(control st, CancelGoal h)]) st)))
      as ->.
    { unfold bind, lift. cbn [is_some assert_types].
      destruct h as [oid c|oid c gh|oid]; [| | by destruct Hh];
        unfold cancel_action, request, modify; by rewrite remove_handle_state. }
    rewrite IH. cbn. unfold cancels. cbn [fmap list_fmap].
    by rewrite <- app_assoc.
Qed.

Lemma wait_clients_state (plan_wait : M unit) (hs : list ActionHandle)
      (st : @Robot float) :
  Forall (fun h => is_Some (handle_client h)) hs ->
  Robot_wait_with plan_wait (Some <$> hs) st
  = (Ok (), set_action_handles (retire hs (action_handles st))
              (set_sent (sent st ++ waits (control st) hs) st)).
Proof.
  intros Hhs. revert st. induction Hhs as [|h r Hh Hr IH]; intros st.
  - cbn. rewrite app_nil_r. by destruct st.
  - unfold Robot_wait_with in *. cbn [fmap list_fmap for_each].
    unfold bind at 1.
    assert ((bind (lift (assert_types (is_some (Some h))))
               (fun _ => bind (wait_for_result plan_wait h)
                           (fun _ => Robot_remove_action_handle (Some h)))) st
            = (Ok (), set_action_handles (remove_first h (action_handles st))
                        (set_sent (sent st ++ [(control st, WaitForResult h)]) st)))
      as ->.
    { unfold bind, lift. cbn [is_some assert_types].
      destruct h as [oid c|oid c gh|oid]; [| | by destruct Hh];
        unfold wait_for_result, request, modify; by rewrite remove_handle_state. }
    rewrite IH. cbn. unfold waits. cbn [fmap list_fmap].
    by rewrite <- app_assoc.
Qed.

(** X16. [Robot.cancel] on handles of action clients returns: it has sent the
    cancel requests in the order of the handles and nothing else, and
    changed nothing but the outstanding handles, from which each of the
    handles is removed once.  When the outstanding handles were distinct,
    none of the handles is outstanding afterwards, and the others are as
    before. *)
Theorem cancel_retires_handles (hs : list ActionHandle) (st : @Robot float) :
  Forall (fun h => is_Some (handle_client h)) hs ->
  exists st',
    Robot_cancel (Some <$> hs) st = (Ok (), st')
    /\ st' = set_action_handles (retire hs (action_handles st))
               (set_sent (sent st ++ cancels (control st) hs) st)
    /\ (NoDup (action_handles st) ->
        forall h, h ∈ action_handles st'
                  <-> h ∈ action_handles st /\ h ∉ hs).
Proof.
  intros Hhs. eexists. split; [by apply cancel_clients_state |].
  split; [done |]. intros Hnd h. cbn.
  destruct (decide (h ∈ hs)) as [Hin|Hnot].
  - split; [intros H1; by destruct (retire_gone hs _ h Hnd Hin) | by intros [_ ?]].
  - rewrite retire_other by done. split; [by intros ? | by intros [? _]].
Qed.

(** X17. [Robot.wait] on handles of action clients returns when the waits have
    returned: it has waited for the handles in their order, and changed
    nothing but the outstanding handles, from which each of the handles
    is removed once.  When the outstanding handles were distinct, none of
    the handles is outstanding afterwards, and the others are as
    before. *)
Theorem wait_retires_handles (hs : list ActionHandle) (st : @Robot float) :
  Forall (fun h => is_Some (handle_client h)) hs ->
  exists st',
    Robot_wait (Some <$> hs) st = (Ok (), st')
    /\ st' = set_action_handles (retire hs (action_handles st))
               (set_sent (sent st ++ waits (control st) hs) st)
    /\ (NoDup (action_handles st) ->
        forall h, h ∈ action_handles st'
                  <-> h ∈ action_handles st /\ h ∉ hs).
Proof.
  intros Hhs. eexists. split; [by apply wait_clients_state |].
  split; [done |]. intros Hnd h. cbn.
  destruct (decide (h ∈ hs)) as [Hin|Hnot].
  - split; [intros H1; by destruct (retire_gone hs _ h Hnd Hin) | by intros [_ ?]].
  - rewrite retire_other by done. split; [by intros ? | by intros [? _]].
Qed.

Lemma retire_app (a b l : list ActionHandle) :
  retire (a ++ b) l = retire b (retire a l).
Proof. unfold retire. by rewrite fold_left_app. Qed.

(** X18. [SayToPlan.cancel] with a gaze handle in the plan returns, having set
    the preemption flag and sent cancel requests for the plan's gaze
    handle and its auxiliary handles only: for the gaze handle twice when
    the plan has a speech handle, once otherwise.  No cancel request is
    sent for the speech handle, which stays outstanding unless it is one
    of those. *)
Theorem plan_cancel_spares_speech (st : @Robot float) (g : ActionHandle) :
  gaze_ah (say_to_plan st) = Some g ->
  is_Some (handle_client g) ->
  Forall (fun h => is_Some (handle_client h)) (other_ahs (say_to_plan st)) ->
  let cancelled :=
    ((if is_some (say_ah (say_to_plan st)) then [g] else [])
       ++ g :: other_ahs (say_to_plan st))%list in
  exists st',
    SayToPlan_cancel (Some the_robot) st = (Ok (), st')
    /\ preempt_requested (say_to_plan st') = true
    /\ sent st' = (sent st ++ cancels (control st) cancelled)%list
    /\ action_handles st' = retire cancelled (action_handles st).
Proof.
  intros Hg Hclient Hothers cancelled.
  assert (forall st1 : @Robot float,
             Robot_cancel [Some g] st1
             = (Ok (), set_action_handles (retire [g] (action_handles st1))
                         (set_sent (sent st1 ++ cancels (control st1) [g]) st1)))
    as Hone.
  { intros st1. apply (cancel_clients_state [g]). by repeat constructor. }
  unfold SayToPlan_cancel, modify_plan, plan, bind, get, modify, ret.
  cbn [say_to_plan set_say_to_plan set_preempt_requested say_ah gaze_ah
       other_ahs].
  rewrite Hg. subst cancelled.
  destruct (say_ah (say_to_plan st)) as [s|] eqn:Hs; cbn [is_some].
  - rewrite Hone.
    cbn [say_to_plan set_say_to_plan set_preempt_requested set_sent
         set_action_handles gaze_ah other_ahs].
    rewrite Hg. cbn [is_some]. rewrite Hone.
    cbn [say_to_plan set_say_to_plan set_preempt_requested set_sent
         set_action_handles gaze_ah other_ahs].
    rewrite cancel_clients_state by done.
    eexists. split; [reflexivity |]. cbn. split; [done |].
    unfold cancels. cbn [app fmap list_fmap].
    by rewrite <- !app_assoc.
  - cbn [say_to_plan set_say_to_plan set_preempt_requested gaze_ah].
    rewrite Hg. cbn [is_some]. rewrite Hone.
    cbn [say_to_plan set_say_to_plan set_preempt_requested set_sent
         set_action_handles gaze_ah other_ahs].
    rewrite cancel_clients_state by done.
    eexists. split; [reflexivity |]. cbn. split; [done |].
    unfold cancels. cbn [app fmap list_fmap].
    by rewrite <- !app_assoc.
Qed.

(** X19. [SayToPlan.cancel] when the plan has a speech handle but no gaze
    handle, as after speaking to an audience in which nobody was found:
    the flag is set, and then the call raises on cancelling the missing
    gaze handle; nothing is cancelled, the auxiliary handles neither. *)
Theorem plan_cancel_without_gaze (st : @Robot float) :
  is_Some (say_ah (say_to_plan st)) ->
  gaze_ah (say_to_plan st) = None ->
  exists e,
    SayToPlan_cancel (Some the_robot) st
    = (Raise e,
       set_say_to_plan (set_preempt_requested true (say_to_plan st)) st).
Proof.
  intros [s Hs] Hg.
  unfold SayToPlan_cancel, modify_plan, plan, bind, get, modify.
  cbn [say_to_plan set_say_to_plan set_preempt_requested say_ah gaze_ah].
  rewrite Hs, Hg. cbn. by eexists.
Qed.

End MoreHandles.

(** ** The robot's handles in the states it reaches *)
Section MoreRobot.

Context {float : Type} {PF : PyFloat float}.

Abbreviation robot := (@Robot float).

Lemma commands_extended (st st' : robot) extra :
  sent st' = (sent st ++ extra)%list ->
  commands st'
  = (commands st ++ filter (fun rq => is_command rq = true) extra)%list.
Proof. intros H. unfold commands. by rewrite H, filter_app. Qed.

(** *** What say, gaze and do leave behind *)

Lemma Robot_say_state text (st : robot) :
  let ah := SingleGoalActionHandle (next_oid st) tts_client in
  exists st',
    Robot_say text st = (Ok ah, st')
    /\ action_handles st' = (action_handles st ++ [ah])%list
    /\ next_oid st' = S (next_oid st)
    /\ world st' = world st
    /\ say_to_plan st' = say_to_plan st
    /\ control st' = control st
    /\ robot_say_ah st' = Some ah
    /\ robot_gaze_ah st' = robot_gaze_ah st
    /\ commands st'
       = (commands st
            ++ [(control st,
                 SendGoal tts_client
                          (ATextToSpeechGoal (mkTextToSpeechGoal text)))])%list.
Proof.
  intros ah.
  unfold Robot_say, connect, Robot_add_action_handle, new_object, request,
    bind, get, ret, modify.
  destruct (tts_found st) eqn:Hf;
    (eexists; split; [reflexivity |]); cbn -[commands]; repeat split;
    (erewrite commands_extended;
     [| cbn; rewrite <- ?app_assoc; reflexivity]); reflexivity.
Qed.

Lemma Robot_gaze_state target (st : robot) :
  let ah := SingleGoalActionHandle (next_oid st) gaze_client in
  exists w' st',
    add_to_world (world st) (IsEntity target) = Ok w'
    /\ Robot_gaze target st = (Ok ah, st')
    /\ action_handles st' = (action_handles st ++ [ah])%list
    /\ next_oid st' = S (next_oid st)
    /\ world st' = w'
    /\ say_to_plan st' = say_to_plan st
    /\ control st' = control st
    /\ robot_gaze_ah st' = Some ah
    /\ robot_say_ah st' = robot_say_ah st
    /\ commands st'
       = (commands st
            ++ [(control st,
                 SendGoal gaze_client
                          (ATargetGoal
                             (mkTargetGoal (get_id target) lit_0_5 lit_0_3)))])%list.
Proof.
  intros ah.
  assert (exists w', add_to_world (world st) (IsEntity target) = Ok w')
    as [w' Hw].
  { unfold add_to_world. destruct (entity_id_lookup (world st) !! _); eauto. }
  exists w'.
  unfold Robot_gaze, connect, Robot_add_action_handle, new_object, request,
    bind, get, ret, modify, lift.
  destruct (gaze_found st) eqn:Hf;
    cbn [world set_sent set_gaze_found]; rewrite Hw;
    (eexists; split; [reflexivity |]; split; [reflexivity |]);
    cbn -[commands]; repeat split;
    (erewrite commands_extended;
     [| cbn; rewrite <- ?app_assoc; reflexivity]); reflexivity.
Qed.

Lemma do_goal_state goal (st : robot) :
  exists ah st',
    do_goal goal st = (Ok ah, st')
    /\ handle_client ah = Some (goal_client goal)
    /\ next_oid st <= handle_oid ah < next_oid st'
    /\ (forall gh, handle_goal ah = Some gh -> gh = next_oid st)
    /\ action_handles st' = (action_handles st ++ [ah])%list
    /\ sent st' = (sent st ++ [(control st, SendGoal (goal_client goal) goal)])%list
    /\ world st' = world st
    /\ say_to_plan st' = say_to_plan st
    /\ control st' = control st
    /\ robot_gaze_ah st' = robot_gaze_ah st
    /\ robot_say_ah st' = robot_say_ah st.
Proof.
  unfold do_goal, Robot_add_action_handle, new_object, request,
    bind, get, ret, modify.
  destruct goal; (eexists; eexists; split; [reflexivity |]); cbn;
    repeat split; try lia; by intros gh [= <-].
Qed.

Lemma do_state goals (st : robot) :
  exists ahs st',
    do goals st = (Ok ahs, st')
    /\ Forall2 (fun goal ah => handle_client ah = Some (goal_client goal))
               goals ahs
    /\ Forall (fun ah => next_oid st <= handle_oid ah < next_oid st'
                         /\ forall gh, handle_goal ah = Some gh ->
                                       next_oid st <= gh < next_oid st') ahs
    /\ NoDup (handle_oid <$> ahs)
    /\ next_oid st <= next_oid st'
    /\ action_handles st' = (action_handles st ++ ahs)%list
    /\ sent st'
       = (sent st
            ++ ((fun goal => (control st, SendGoal (goal_client goal) goal))
                  <$> goals))%list
    /\ world st' = world st
    /\ say_to_plan st' = say_to_plan st
    /\ control st' = control st.
Proof.
  revert st; induction goals as [|goal rest IH]; intros st; cbn [do].
  - exists [], st. unfold ret. cbn. rewrite !app_nil_r.
    repeat split; try done; constructor.
  - destruct (do_goal_state goal st)
      as (ah & st1 & H1 & Hc & Ho & Hg & Hah & Hs & Hw & Hp & Hctl & _).
    destruct (IH st1)
      as (ahs & st2 & H2 & Hcs & Hos & Hnd & Hle & Hahs & Hss & Hws & Hps & Hctls).
    exists (ah :: ahs), st2. unfold bind. rewrite H1, H2. unfold ret.
    split; [done |]. split; [by constructor |]. split; [| split; [| split]].
    + constructor.
      * split; [lia |]. intros gh ->%Hg. lia.
      * eapply Forall_impl; [exact Hos |]. intros x [Hx Hxg].
        split; [lia |]. intros gh Hgh%Hxg. lia.
    + cbn [fmap list_fmap]. apply NoDup_cons. split; [| done].
      intros (x & Hx & Hin)%list_elem_of_fmap.
      rewrite Forall_forall in Hos. destruct (Hos x Hin) as [? _]. lia.
    + lia.
    + split; [by rewrite Hahs, Hah, <- app_assoc |].
      split; [by rewrite Hss, Hs, Hctl, <- app_assoc |].
      repeat split; congruence.
Qed.

(** X15. [Robot.do] returns one handle for each goal, in the order of the
    goals: the goals have been sent in that order, each to the client of
    its kind, and nothing else; the handles are new objects, distinct from
    each other, on the clients of their goals, and registered after the
    handles that were outstanding.  The plan is not consulted: the goals
    are sent whether or not preemption is requested. *)
Theorem do_sends_in_order goals (st : robot) :
  exists ahs st',
    do goals st = (Ok ahs, st')
    /\ Forall2 (fun goal ah => handle_client ah = Some (goal_client goal))
               goals ahs
    /\ NoDup (handle_oid <$> ahs)
    /\ Forall (fun ah => next_oid st <= handle_oid ah) ahs
    /\ action_handles st' = (action_handles st ++ ahs)%list
    /\ sent st'
       = (sent st
            ++ ((fun goal => (control st, SendGoal (goal_client goal) goal))
                  <$> goals))%list
    /\ say_to_plan st' = say_to_plan st.
Proof.
  destruct (do_state goals st)
    as (ahs & st' & H & Hc & Ho & Hnd & _ & Hah & Hs & _ & Hp & _).
  exists ahs, st'. repeat split; try done.
  eapply Forall_impl; [exact Ho |]. intros x [? _]. lia.
Qed.

(** *** What every method keeps *)

Lemma handles_fresh_add (st st' : robot) (ah : ActionHandle) :
  handles_fresh st ->
  action_handles st' = (action_handles st ++ [ah])%list ->
  next_oid st <= handle_oid ah < next_oid st' ->
  (forall gh, handle_goal ah = Some gh -> gh < next_oid st') ->
  handles_fresh st'.
Proof.
  intros [Hnd Hall] Hah Hoid Hgh. unfold handles_fresh. rewrite Hah. split.
  - rewrite fmap_app. apply NoDup_app. split; [done |]. split.
    + intros x (y & -> & Hy)%list_elem_of_fmap Heq%list_elem_of_singleton.
      rewrite Forall_forall in Hall. destruct (Hall y Hy) as [? _]. lia.
    + apply NoDup_singleton.
  - apply Forall_app. split.
    + eapply Forall_impl; [exact Hall |]. intros x [Hx Hxg].
      split; [lia |]. intros gh Hg%Hxg. lia.
    + repeat constructor; [lia | done].
Qed.

Lemma handles_fresh_sublist (st st' : robot) :
  handles_fresh st ->
  action_handles st' `sublist_of` action_handles st ->
  next_oid st <= next_oid st' ->
  handles_fresh st'.
Proof.
  intros [Hnd Hall] Hsub Hle. split.
  - eapply sublist_NoDup; [exact Hnd | by apply fmap_sublist].
  - rewrite Forall_forall in *. intros x Hx.
    destruct (Hall x) as [H1 H2]; [by eapply elem_of_sublist |].
    split; [lia |]. intros gh Hg%H2. lia.
Qed.

Lemma handles_fresh_frame (st st' : robot) :
  action_handles st' = action_handles st ->
  next_oid st <= next_oid st' ->
  handles_fresh st -> handles_fresh st'.
Proof.
  intros Hah Hle Hf.
  eapply handles_fresh_sublist; [exact Hf | by rewrite Hah | done].
Qed.

Lemma keeps_ret {A} (I : robot -> Prop) (a : A) : keeps I (ret a).
Proof. by intros st. Qed.

Lemma keeps_raise {A} (I : robot -> Prop) e : keeps I (raise (A := A) e).
Proof. by intros st. Qed.

Lemma keeps_blocks {A} (I : robot -> Prop) : keeps I (blocks (A := A)).
Proof. by intros st. Qed.

Lemma keeps_lift {A} (I : robot -> Prop) (r : result A) : keeps I (lift r).
Proof. by intros st. Qed.

Lemma keeps_get {A} (I : robot -> Prop) (f : robot -> A) : keeps I (get f).
Proof. by intros st. Qed.

Lemma keeps_bind {A B} (I : robot -> Prop) (m : M A) (k : A -> M B) :
  keeps I m -> (forall a, keeps I (k a)) -> keeps I (bind m k).
Proof.
  intros Hm Hk st H. specialize (Hm st H). unfold bind.
  destruct (m st) as [[a|e|] st1]; cbn [snd] in *; [| done | done].
  by apply Hk.
Qed.

Lemma keeps_for_each {A} (I : robot -> Prop) (l : list A) (body : A -> M unit) :
  (forall x, keeps I (body x)) -> keeps I (for_each l body).
Proof.
  intros Hb. induction l as [|x r IH]; cbn [for_each].
  - apply keeps_ret.
  - apply keeps_bind; [apply Hb | intros _; apply IH].
Qed.

Lemma ok_modify (f : robot -> robot) :
  (forall st, action_handles (f st) = action_handles st) ->
  (forall st, next_oid (f st) = next_oid st) ->
  keeps handles_fresh (modify f).
Proof.
  intros Hah Hn st H. unfold modify. cbn [snd].
  eapply handles_fresh_frame; [apply Hah | by rewrite Hn | done].
Qed.

Lemma ok_new_object : keeps (float := float) handles_fresh new_object.
Proof.
  intros st H. unfold new_object. cbn [snd].
  eapply handles_fresh_frame; [| | exact H]; cbn; [done | lia].
Qed.

Create HintDb keeps.

#[local] Hint Extern 1 (keeps _ _) => apply keeps_raise : keeps.
#[local] Hint Extern 1 (keeps _ _) => apply keeps_blocks : keeps.
#[local] Hint Extern 1 (keeps _ _) => apply keeps_lift : keeps.
#[local] Hint Extern 1 (keeps _ _) => apply keeps_get : keeps.
#[local] Hint Extern 1 (keeps _ _) => apply keeps_ret : keeps.
#[local] Hint Extern 1 (keeps _ _) => apply ok_new_object : keeps.
#[local] Hint Extern 1 (keeps _ (modify _)) =>
  apply ok_modify; reflexivity : keeps.
#[local] Hint Extern 1 (keeps _ (modify_plan _)) =>
  apply ok_modify; reflexivity : keeps.
#[local] Hint Extern 1 (keeps _ (request _)) =>
  apply ok_modify; reflexivity : keeps.

(** Walk through a method: binds in order, branches by cases, the rest by
    the lemmas collected in the hint database or at hand. *)
Ltac keeps_auto :=
  lazymatch goal with
  | |- keeps _ (bind _ _) =>
      apply keeps_bind; [keeps_auto | intros ?; cbv beta; keeps_auto]
  | |- keeps _ (if ?b then _ else _) => destruct b; keeps_auto
  | |- keeps _ (match ?x with _ => _ end) => destruct x; keeps_auto
  | |- keeps _ (plan _) => apply keeps_get
  | |- _ =>
      first [ solve [eauto with keeps]
            | match goal with
              | H : _ |- _ => solve [apply H; auto]
              end ]
  end.

Lemma ok_remove_action_handle ah :
  keeps (float := float) handles_fresh (Robot_remove_action_handle ah).
Proof.
  destruct ah as [ah|]; [| by intros st].
  intros st Hf. rewrite remove_handle_state. cbn [snd].
  eapply handles_fresh_sublist; [exact Hf | apply remove_first_sublist | done].
Qed.
#[local] Hint Extern 1 (keeps _ _) => apply ok_remove_action_handle : keeps.

Lemma ok_get_action_handle gh : keeps (float := float) handles_fresh (Robot_get_action_handle gh).
Proof. unfold Robot_get_action_handle. keeps_auto. Qed.
#[local] Hint Extern 1 (keeps _ _) => apply ok_get_action_handle : keeps.

Lemma ok_wait_for_result plan_wait ah :
  keeps (float := float) handles_fresh plan_wait -> keeps (float := float) handles_fresh (wait_for_result plan_wait ah).
Proof. intros H. unfold wait_for_result. keeps_auto. Qed.

Lemma ok_wait_with plan_wait ahs :
  keeps (float := float) handles_fresh plan_wait -> keeps (float := float) handles_fresh (Robot_wait_with plan_wait ahs).
Proof.
  intros H. unfold Robot_wait_with. apply keeps_for_each. intros ah.
  pose proof (ok_wait_for_result plan_wait) as Hw.
  keeps_auto.
Qed.

Lemma ok_join : keeps (float := float) handles_fresh join.
Proof. unfold join. keeps_auto. Qed.

Lemma ok_plan_wait : keeps (float := float) handles_fresh SayToPlan_wait.
Proof.
  pose proof ok_join.
  assert (keeps (float := float) handles_fresh recursion_limit) as Hr by apply keeps_raise.
  pose proof (fun ahs => ok_wait_with recursion_limit ahs Hr).
  unfold SayToPlan_wait. keeps_auto.
Qed.

Lemma ok_wait ahs : keeps (float := float) handles_fresh (Robot_wait ahs).
Proof. apply ok_wait_with, ok_plan_wait. Qed.
#[local] Hint Extern 1 (keeps _ _) => apply ok_wait : keeps.

Lemma ok_cancel_action ah : keeps (float := float) handles_fresh (cancel_action ah).
Proof. unfold cancel_action. keeps_auto. Qed.
#[local] Hint Extern 1 (keeps _ _) => apply ok_cancel_action : keeps.

Lemma ok_cancel ahs : keeps (float := float) handles_fresh (Robot_cancel ahs).
Proof. unfold Robot_cancel. apply keeps_for_each. intros ah. keeps_auto. Qed.
#[local] Hint Extern 1 (keeps _ _) => apply ok_cancel : keeps.

Lemma ok_plan_cancel r : keeps (float := float) handles_fresh (SayToPlan_cancel r).
Proof. unfold SayToPlan_cancel. keeps_auto. Qed.

Lemma ok_say text : keeps (float := float) handles_fresh (Robot_say text).
Proof.
  intros st Hf.
  destruct (Robot_say_state text st)
    as (st' & -> & Hah & Hn & _). cbn [snd].
  eapply handles_fresh_add; [exact Hf | exact Hah | cbn; lia | done].
Qed.
#[local] Hint Extern 1 (keeps _ _) => apply ok_say : keeps.

Lemma ok_gaze target : keeps (float := float) handles_fresh (Robot_gaze target).
Proof.
  intros st Hf.
  destruct (Robot_gaze_state target st)
    as (w' & st' & Hadd & -> & Hah & Hn & _). cbn [snd].
  eapply handles_fresh_add; [exact Hf | exact Hah | cbn; lia | done].
Qed.
#[local] Hint Extern 1 (keeps _ _) => apply ok_gaze : keeps.

Lemma ok_gaze_at_head person : keeps (float := float) handles_fresh (gaze_at_head person).
Proof. unfold gaze_at_head. keeps_auto. Qed.
#[local] Hint Extern 1 (keeps _ _) => apply ok_gaze_at_head : keeps.

Lemma ok_regaze person : keeps (float := float) handles_fresh (regaze person).
Proof. unfold regaze. keeps_auto. Qed.
#[local] Hint Extern 1 (keeps _ _) => apply ok_regaze : keeps.

Lemma ok_do goals : keeps (float := float) handles_fresh (do goals).
Proof.
  intros st Hf.
  destruct (do_state goals st)
    as (ahs & st' & -> & _ & Ho & Hnd & Hle & Hah & _).
  cbn [snd].
  destruct Hf as [Hnd0 Hall]. unfold handles_fresh. rewrite Hah. split.
  - rewrite fmap_app. apply NoDup_app. split; [done |]. split; [| done].
    intros x (y & -> & Hy)%list_elem_of_fmap (z & Hz & Hin)%list_elem_of_fmap.
    rewrite Forall_forall in Hall, Ho.
    destruct (Hall y Hy) as [? _]. destruct (Ho z Hin) as [? _]. lia.
  - apply Forall_app. split.
    + eapply Forall_impl; [exact Hall |]. intros x [Hx Hxg].
      split; [lia |]. intros gh Hg%Hxg. lia.
    + eapply Forall_impl; [exact Ho |]. intros x [Hx Hxg].
      split; [lia |]. intros gh Hg%Hxg. lia.
Qed.
#[local] Hint Extern 1 (keeps _ _) => apply ok_do : keeps.

Lemma ok_plan_add_action_handle ah :
  keeps (float := float) handles_fresh (SayToPlan_add_action_handle ah).
Proof. unfold SayToPlan_add_action_handle. keeps_auto. Qed.
#[local] Hint Extern 1 (keeps _ _) => apply ok_plan_add_action_handle : keeps.

Lemma ok_say_feedback fb people pick :
  keeps (float := float) handles_fresh (say_feedback fb people pick).
Proof. unfold say_feedback. keeps_auto. Qed.

Lemma ok_say_done : keeps (float := float) handles_fresh say_done.
Proof. unfold say_done. keeps_auto. Qed.

Lemma ok_gaze_done : keeps (float := float) handles_fresh gaze_done.
Proof. unfold gaze_done. keeps_auto. Qed.

Lemma ok_goal_done gh : keeps (float := float) handles_fresh (goal_done gh).
Proof. unfold goal_done. keeps_auto. Qed.

Lemma ok_execute_step results at_point :
  keeps (float := float) handles_fresh (execute_step results at_point).
Proof.
  pose proof (fun ah => ok_wait_for_result SayToPlan_wait ah ok_plan_wait).
  unfold execute_step. keeps_auto.
Qed.

Lemma ok_say_to text aud : keeps (float := float) handles_fresh (say_to text aud).
Proof.
  unfold say_to.
  apply keeps_bind; [keeps_auto | intros _].
  apply keeps_bind; [keeps_auto | intros _].
  apply keeps_bind.
  - intros st H.
    destruct (parse_parameters _ _ _ _ _ _) as [r p]. cbn [snd].
    destruct (outlive_same st) as (_ & _ & Hah & _ & _ & _ & _ & Hn & _).
    eapply handles_fresh_frame; [| | exact H]; cbn; [done | by rewrite Hn].
  - intros _ st Hf.
    unfold execute, Robot_add_action_handle, new_object, modify_plan, bind,
      modify, ret. cbn [snd].
    eapply handles_fresh_add; [exact Hf | reflexivity | cbn; lia | done].
Qed.

Lemma handles_fresh_control o (st : robot) :
  handles_fresh st -> handles_fresh (set_control o st).
Proof. by apply handles_fresh_frame. Qed.

Lemma handles_fresh_step (st : robot) ev :
  handles_fresh st -> handles_fresh (step st ev).
Proof.
  intros H. destruct ev; cbn [step]; unfold as_origin.
  - apply (handles_fresh_control FromExecute) in H.
    unfold thread_step.
    destruct (thread (say_to_plan (set_control FromExecute st)))
      as [at_point|]; [| done].
    pose proof (ok_execute_step results at_point _ H) as Hs.
    destruct (execute_step results at_point _) as [[next|e|] st'];
      cbn [snd] in Hs; [| | done];
      by eapply handles_fresh_frame; [.. | exact Hs].
  - by apply ok_say_feedback, handles_fresh_control.
  - by apply ok_say_done, handles_fresh_control.
  - by apply ok_gaze_done, handles_fresh_control.
  - by apply ok_goal_done, handles_fresh_control.
  - by apply ok_plan_cancel, handles_fresh_control.
  - by apply ok_cancel, handles_fresh_control.
  - by apply ok_wait, handles_fresh_control.
  - apply (handles_fresh_control FromExecute) in H.
    unfold earlier_step.
    destruct (earlier (set_control FromExecute st) !! i)
      as [at_point|]; [| done].
    pose proof (ok_execute_step results at_point _ H) as Hs.
    destruct (execute_step results at_point _) as [[next|e|] st'];
      cbn [snd] in Hs; [| | done];
      by eapply handles_fresh_frame; [.. | exact Hs].
Qed.

Lemma reachable_fresh (st : robot) : reachable st -> handles_fresh st.
Proof.
  induction 1 as [ee ge srv| | | | |].
  - split; cbn; constructor.
  - by apply ok_say_to.
  - by apply ok_say.
  - by apply ok_gaze.
  - by apply ok_do.
  - by apply handles_fresh_step.
Qed.

Lemma reachable_run (evs : list Event) (st : robot) :
  reachable st -> reachable (run st evs).
Proof.
  revert st; induction evs as [|ev r IH]; intros st H; [done |].
  cbn [run fold_left]. apply IH. by constructor.
Qed.

(** X20. In every state the robot reaches, the outstanding handles are
    distinct objects: no handle is registered twice, and every handle and
    goal handle among them was created before the next object is. *)
Theorem handles_stay_distinct (st : robot) :
  reachable st ->
  NoDup (action_handles st)
  /\ NoDup (handle_oid <$> action_handles st)
  /\ Forall (fun ah => handle_oid ah < next_oid st) (action_handles st).
Proof.
  intros [Hnd Hall]%reachable_fresh.
  split; [by eapply NoDup_fmap_1 |]. split; [done |].
  eapply Forall_impl; [exact Hall |]. by intros x [? _].
Qed.

End MoreRobot.

(** ** Completion callbacks *)
Section MoreCallbacks.

Context {float : Type} {PF : PyFloat float}.

Lemma remove_first_snoc (x : ActionHandle) (l : list ActionHandle) :
  x ∉ l -> remove_first x (l ++ [x]) = l.
Proof.
  induction l as [|y r IH]; intros Hx; cbn [app remove_first].
  - by rewrite decide_True.
  - apply not_elem_of_cons in Hx as [Hne Hx].
    rewrite decide_False by done. by rewrite IH.
Qed.

Lemma fresh_not_outstanding (st : @Robot float) (ah : ActionHandle) :
  handles_fresh st -> next_oid st <= handle_oid ah ->
  ah ∉ action_handles st.
Proof.
  intros [_ Hall] Hle Hin. rewrite Forall_forall in Hall.
  destruct (Hall ah Hin) as [? _]. lia.
Qed.

(** X22. The completion callback of a speech goal retires its handle: after
    say and then the callback, the outstanding handles are those from
    before the call, and the robot has no current speech handle. *)
Theorem say_done_retires (st : @Robot float) (text : string) :
  handles_fresh st ->
  exists ah st1 st2,
    Robot_say text st = (Ok ah, st1)
    /\ ah ∈ action_handles st1
    /\ say_done st1 = (Ok (), st2)
    /\ action_handles st2 = action_handles st
    /\ robot_say_ah st2 = None.
Proof.
  intros Hf.
  destruct (Robot_say_state text st)
    as (st1 & H1 & Hah & _ & _ & _ & _ & Hsay & _).
  eexists _, st1, _. split; [exact H1 |].
  split; [rewrite Hah; apply elem_of_app; right; by apply list_elem_of_singleton |].
  unfold say_done, bind, get, modify. rewrite Hsay, remove_handle_state.
  split; [reflexivity |]. cbn. split; [| done].
  rewrite Hah. apply remove_first_snoc.
  by apply fresh_not_outstanding.
Qed.

(** X23. The completion callback of a gaze goal retires the handle of the
    latest gaze only: after two gazes and then the callback, the handle of
    the first gaze is still outstanding, and the robot has no current gaze
    handle by which a second callback could retire it. *)
Theorem gaze_done_retires_latest (st : @Robot float) (a b : Entity) :
  handles_fresh st ->
  exists ha hb st1 st2 st3,
    Robot_gaze a st = (Ok ha, st1)
    /\ Robot_gaze b st1 = (Ok hb, st2)
    /\ gaze_done st2 = (Ok (), st3)
    /\ action_handles st3 = (action_handles st ++ [ha])%list
    /\ robot_gaze_ah st3 = None.
Proof.
  intros Hf.
  destruct (Robot_gaze_state a st)
    as (w1 & st1 & _ & H1 & Hah1 & Hn1 & _).
  destruct (Robot_gaze_state b st1)
    as (w2 & st2 & _ & H2 & Hah2 & _ & _ & _ & _ & Hgaze & _).
  eexists _, _, st1, st2, _. split; [exact H1 |]. split; [exact H2 |].
  unfold gaze_done, bind, get, modify. rewrite Hgaze, remove_handle_state.
  split; [reflexivity |]. cbn. split; [| done].
  rewrite Hah2. rewrite remove_first_snoc; [done |].
  rewrite Hah1, Hn1. intros [Hin | Hin%list_elem_of_singleton]%elem_of_app.
  - apply (fresh_not_outstanding st _ Hf) in Hin; [done | cbn; lia].
  - injection Hin. lia.
Qed.

Lemma find_goal_handle_first (before after : list ActionHandle) oid c gh :
  Forall (fun ah => handle_goal ah <> Some gh) before ->
  find_goal_handle gh (before ++ MultiGoalActionHandle oid c gh :: after)
  = Some (MultiGoalActionHandle oid c gh).
Proof.
  induction 1 as [|x r Hx Hr IH]; cbn [app find_goal_handle].
  - by rewrite Nat.eqb_refl.
  - destruct x as [o c'|o c' g|o]; try done.
    destruct (Nat.eqb_spec g gh) as [->|Hne]; [by destruct Hx | done].
Qed.

Lemma remove_first_middle (x : ActionHandle) (before after : list ActionHandle) :
  x ∉ before -> remove_first x (before ++ x :: after) = (before ++ after)%list.
Proof.
  induction before as [|y r IH]; intros Hx; cbn [app remove_first].
  - by rewrite decide_True.
  - apply not_elem_of_cons in Hx as [Hne Hx].
    rewrite decide_False by done. by rewrite IH.
Qed.

(** X24. The completion callback of an expression or gesture goal retires
    the handle of the goal that is reported done.  When a multi-goal
    handle with that goal handle is outstanding, the callback finds the
    first such handle, whatever its client, and removes it and nothing
    else: the other handles stay, in their order, and the rest of the
    robot is as before. *)
Theorem goal_done_retires (st : @Robot float)
        (before after : list ActionHandle) (oid : nat) (c : Client) (gh : nat) :
  action_handles st = (before ++ MultiGoalActionHandle oid c gh :: after)%list ->
  Forall (fun ah => handle_goal ah <> Some gh) before ->
  goal_done gh st = (Ok (), set_action_handles (before ++ after) st).
Proof.
  intros Hah Hbefore.
  unfold goal_done, Robot_get_action_handle, bind, get, ret.
  rewrite Hah, find_goal_handle_first by done.
  rewrite remove_handle_state, Hah, remove_first_middle; [done |].
  intros Hin. rewrite Forall_forall in Hbefore.
  by destruct (Hbefore _ Hin).
Qed.

End MoreCallbacks.

(** ** The plan's thread, run without interruption *)
Section MoreThread.

Context {float : Type} {PF : PyFloat float}.

Abbreviation robot := (@Robot float).

Lemma schedule_step results (st : robot) at_point :
  thread (say_to_plan st) = Some at_point ->
  step st (Schedule results)
  = match execute_step results at_point (set_control FromExecute st) with
    | (Ok next, st') => moved next st'
    | (Raise e, st') => moved (Died e) st'
    | (Blocks, _) => set_control FromExecute st
    end.
Proof. intros H. cbn [step]. by apply thread_step_unfold. Qed.

Lemma step_at_start results (st : robot) person :
  thread (say_to_plan st) = Some AtStart ->
  chosen (audience (say_to_plan st)) results = Some person ->
  let st' := step st (Schedule results) in
  thread (say_to_plan st') = Some (AtGaze person)
  /\ sent st' = sent st
  /\ gaze_ah (say_to_plan st') = gaze_ah (say_to_plan st)
  /\ carried st st'.
Proof.
  intros Ht Hc st'. subst st'. rewrite (schedule_step _ _ _ Ht).
  unfold execute_step, bind, plan, get, ret, modify_plan, modify.
  cbn [say_to_plan set_control].
  destruct (audience (say_to_plan st)) as [|p|q|l]; cbn [chosen] in Hc;
    [done | injection Hc as -> | |];
    try (destruct results as [|p rest]; [done | injection Hc as ->]);
    by repeat split.
Qed.

Lemma step_at_start_nobody results (st : robot) :
  thread (say_to_plan st) = Some AtStart ->
  audience (say_to_plan st) <> NoAudience ->
  chosen (audience (say_to_plan st)) results = None ->
  step st (Schedule results) = moved AtWait (set_control FromExecute st).
Proof.
  intros Ht Ha Hc. rewrite (schedule_step _ _ _ Ht).
  unfold execute_step, bind, plan, get, ret.
  cbn [say_to_plan set_control].
  destruct (audience (say_to_plan st)) as [|p|q|l]; cbn [chosen] in Hc;
    [done | done | |]; by destruct results.
Qed.

Lemma step_at_gaze results (st : robot) person h :
  thread (say_to_plan st) = Some (AtGaze person) ->
  preempt_requested (say_to_plan st) = false ->
  head person = Some h ->
  let st' := step st (Schedule results) in
  thread (say_to_plan st') = Some AtWait
  /\ (exists oid,
        gaze_ah (say_to_plan st') = Some (SingleGoalActionHandle oid gaze_client))
  /\ commands st'
     = (commands st
          ++ [(FromExecute,
               SendGoal gaze_client
                        (ATargetGoal (mkTargetGoal (get_id h) lit_0_5 lit_0_3)))])%list
  /\ carried st st'.
Proof.
  intros Ht Hp Hh st'. subst st'. rewrite (schedule_step _ _ _ Ht).
  unfold execute_step, bind, plan, get, ret, modify_plan, modify.
  cbn [say_to_plan set_control]. rewrite Hp. unfold gaze_at_head. rewrite Hh.
  destruct (Robot_gaze_state h (set_control FromExecute st))
    as (w' & st1 & _ & -> & _ & _ & _ & Hplan & _ & _ & _ & Hcmd).
  cbn. rewrite Hplan. cbn. repeat split; [by eexists | exact Hcmd].
Qed.

Lemma step_at_gaze_headless results (st : robot) person :
  thread (say_to_plan st) = Some (AtGaze person) ->
  preempt_requested (say_to_plan st) = false ->
  head person = None ->
  step st (Schedule results)
  = moved (Died (AttributeError "head")) (set_control FromExecute st).
Proof.
  intros Ht Hp Hh. rewrite (schedule_step _ _ _ Ht).
  unfold execute_step, bind, plan, get, ret.
  cbn [say_to_plan set_control]. rewrite Hp. unfold gaze_at_head. by rewrite Hh.
Qed.

Lemma step_at_wait results (st : robot) :
  thread (say_to_plan st) = Some AtWait ->
  step st (Schedule results)
  = moved (match gaze_ah (say_to_plan st) with
           | Some ah => Waiting ah
           | None => AtSay
           end) (set_control FromExecute st).
Proof.
  intros Ht. rewrite (schedule_step _ _ _ Ht).
  unfold execute_step, bind, plan, get, ret.
  cbn [say_to_plan set_control]. by destruct (gaze_ah (say_to_plan st)).
Qed.

Lemma step_waiting results (st : robot) ah :
  thread (say_to_plan st) = Some (Waiting ah) ->
  is_Some (handle_client ah) ->
  let st' := step st (Schedule results) in
  thread (say_to_plan st') = Some AtSay
  /\ commands st' = commands st
  /\ gaze_ah (say_to_plan st') = gaze_ah (say_to_plan st)
  /\ carried st st'.
Proof.
  intros Ht Hc st'. subst st'. rewrite (schedule_step _ _ _ Ht).
  unfold execute_step, bind.
  assert (wait_for_result SayToPlan_wait ah (set_control FromExecute st)
          = (Ok (), set_sent (sent st ++ [(FromExecute, WaitForResult ah)])
                      (set_control FromExecute st))) as ->.
  { by destruct ah as [o c|o c g|o]; [| | destruct Hc]. }
  rewrite remove_handle_state. unfold ret. cbn.
  repeat split. unfold commands. cbn. rewrite filter_app.
  rewrite filter_cons_False, filter_nil by (by cbn). apply app_nil_r.
Qed.

Lemma step_at_say results (st : robot) :
  thread (say_to_plan st) = Some AtSay ->
  preempt_requested (say_to_plan st) = false ->
  let st' := step st (Schedule results) in
  thread (say_to_plan st') = Some Finished
  /\ (exists oid,
        say_ah (say_to_plan st') = Some (SingleGoalActionHandle oid tts_client))
  /\ commands st'
     = (commands st
          ++ [(FromExecute,
               SendGoal tts_client
                        (ATextToSpeechGoal
                           (mkTextToSpeechGoal (sentence (say_to_plan st)))))])%list
  /\ gaze_ah (say_to_plan st') = gaze_ah (say_to_plan st).
Proof.
  intros Ht Hp st'. subst st'. rewrite (schedule_step _ _ _ Ht).
  unfold execute_step, bind, plan, get, ret, modify_plan, modify.
  cbn [say_to_plan set_control]. rewrite Hp.
  cbn [say_to_plan set_control].
  destruct (Robot_say_state (sentence (say_to_plan st))
                            (set_control FromExecute st))
    as (st1 & -> & _ & _ & _ & Hplan & _ & _ & _ & Hcmd).
  cbn. rewrite Hplan. cbn. repeat split; [by eexists | exact Hcmd].
Qed.

Lemma step_ended results (st : robot) t :
  thread (say_to_plan st) = Some t -> ended t = true ->
  step st (Schedule results) = moved t (set_control FromExecute st).
Proof.
  intros Ht He. rewrite (schedule_step _ _ _ Ht). by destruct t.
Qed.

Lemma run_ended (rs : list (list Entity)) (st : robot) t :
  thread (say_to_plan st) = Some t -> ended t = true ->
  thread (say_to_plan (run st (Schedule <$> rs))) = Some t
  /\ sent (run st (Schedule <$> rs)) = sent st.
Proof.
  intros Ht He. revert st Ht. induction rs as [|r rs IH]; intros st Ht; [done |].
  cbn [fmap list_fmap run fold_left]. rewrite (step_ended _ _ _ Ht He).
  apply (IH (moved t (set_control FromExecute st))). done.
Qed.

(** X25. Left to run, the thread of a plan that is not preempted and has
    somebody to gaze at ends in five steps: it has sent a gaze goal for
    the head of that person, the audience or the first person the query
    returned, and then the sentence as a speech goal, and nothing else to
    the actuators; the plan holds the two handles. *)
Theorem thread_gazes_then_speaks (st : robot) (person h : Entity)
        (r1 r2 r3 r4 r5 : list Entity) :
  thread (say_to_plan st) = Some AtStart ->
  preempt_requested (say_to_plan st) = false ->
  chosen (audience (say_to_plan st)) r1 = Some person ->
  head person = Some h ->
  let st' := run st [Schedule r1; Schedule r2; Schedule r3; Schedule r4;
                     Schedule r5] in
  thread (say_to_plan st') = Some Finished
  /\ commands st'
     = (commands st
          ++ [(FromExecute,
               SendGoal gaze_client
                        (ATargetGoal (mkTargetGoal (get_id h) lit_0_5 lit_0_3)));
              (FromExecute,
               SendGoal tts_client
                        (ATextToSpeechGoal
                           (mkTextToSpeechGoal (sentence (say_to_plan st)))))])%list
  /\ (exists oid,
        gaze_ah (say_to_plan st') = Some (SingleGoalActionHandle oid gaze_client))
  /\ (exists oid,
        say_ah (say_to_plan st') = Some (SingleGoalActionHandle oid tts_client)).
Proof.
  intros Ht Hp Hc Hh st'. subst st'. cbn [run fold_left].
  destruct (step_at_start r1 st person Ht Hc) as (Ht1 & Hs1 & _ & Hsen1 & Hp1 & _).
  set (st1 := step st (Schedule r1)) in *.
  rewrite Hp in Hp1.
  destruct (step_at_gaze r2 st1 person h Ht1 Hp1 Hh)
    as (Ht2 & [g Hg2] & Hc2 & Hsen2 & Hp2 & _).
  set (st2 := step st1 (Schedule r2)) in *.
  pose proof (step_at_wait r3 st2 Ht2) as H3. rewrite Hg2 in H3.
  set (st3 := step st2 (Schedule r3)) in *.
  assert (thread (say_to_plan st3) = Some (Waiting (SingleGoalActionHandle g gaze_client)))
    as Ht3 by (by rewrite H3).
  destruct (step_waiting r4 st3 _ Ht3) as (Ht4 & Hc4 & Hg4 & Hsen4 & Hp4 & _);
    [by eexists |].
  set (st4 := step st3 (Schedule r4)) in *.
  assert (preempt_requested (say_to_plan st4) = false) as Hp4'.
  { rewrite Hp4, H3.
    cbn [moved say_to_plan set_say_to_plan set_thread preempt_requested
         set_control].
    by rewrite Hp2. }
  destruct (step_at_say r5 st4 Ht4 Hp4') as (Ht5 & Hs5 & Hc5 & Hg5).
  split; [done |]. split; [| split; [| done]].
  - rewrite Hc5, Hc4, H3.
    assert (commands (moved (Waiting (SingleGoalActionHandle g gaze_client))
                            (set_control FromExecute st2)) = commands st2)
      as -> by done.
    rewrite Hc2. unfold commands at 1. rewrite Hs1. fold (commands st).
    rewrite <- app_assoc. cbn [app]. do 4 f_equal.
    rewrite Hsen4, H3.
    cbn [moved say_to_plan set_say_to_plan set_thread sentence set_control].
    by rewrite Hsen2, Hsen1.
  - exists g. rewrite Hg5, Hg4, H3. exact Hg2.
Qed.

(** X26. When the query returns nobody, the thread of a plan that is not
    preempted and holds no gaze handle ends in three steps, and the
    sentence is the only thing it has sent to the actuators: the robot
    speaks without gazing. *)
Theorem thread_speaks_to_nobody (st : robot) (r1 r2 r3 : list Entity) :
  thread (say_to_plan st) = Some AtStart ->
  preempt_requested (say_to_plan st) = false ->
  gaze_ah (say_to_plan st) = None ->
  audience (say_to_plan st) <> NoAudience ->
  chosen (audience (say_to_plan st)) r1 = None ->
  let st' := run st [Schedule r1; Schedule r2; Schedule r3] in
  thread (say_to_plan st') = Some Finished
  /\ commands st'
     = (commands st
          ++ [(FromExecute,
               SendGoal tts_client
                        (ATextToSpeechGoal
                           (mkTextToSpeechGoal (sentence (say_to_plan st)))))])%list
  /\ gaze_ah (say_to_plan st') = None.
Proof.
  intros Ht Hp Hg Ha Hc st'. subst st'. cbn [run fold_left].
  rewrite (step_at_start_nobody r1 st Ht Ha Hc).
  rewrite (step_at_wait r2 (moved AtWait (set_control FromExecute st)))
    by done.
  cbn [moved say_to_plan set_say_to_plan set_thread gaze_ah set_control].
  rewrite Hg.
  match goal with
  | |- context [step ?s (Schedule r3)] =>
      destruct (step_at_say r3 s eq_refl Hp) as (Ht3 & _ & Hc3 & Hg3)
  end.
  split; [exact Ht3 |]. split; [exact Hc3 | by rewrite Hg3].
Qed.

(** X27. When the person chosen has no head, the thread of a plan that is not
    preempted dies at its second step with the [AttributeError], and
    however long it is scheduled nothing is sent: no gaze and no speech. *)
Theorem thread_dies_without_head (st : robot) (person : Entity)
        (r1 r2 : list Entity) (rs : list (list Entity)) :
  thread (say_to_plan st) = Some AtStart ->
  preempt_requested (say_to_plan st) = false ->
  chosen (audience (say_to_plan st)) r1 = Some person ->
  head person = None ->
  let st' := run st (Schedule <$> (r1 :: r2 :: rs)) in
  thread (say_to_plan st') = Some (Died (AttributeError "head"))
  /\ sent st' = sent st.
Proof.
  intros Ht Hp Hc Hh st'. subst st'.
  change (run st (Schedule <$> r1 :: r2 :: rs))
    with (run (step (step st (Schedule r1)) (Schedule r2)) (Schedule <$> rs)).
  destruct (step_at_start r1 st person Ht Hc) as (Ht1 & Hs1 & _ & _ & Hp1 & _).
  set (st1 := step st (Schedule r1)) in *. rewrite Hp in Hp1.
  rewrite (step_at_gaze_headless r2 st1 person Ht1 Hp1 Hh).
  destruct (run_ended rs (moved (Died (AttributeError "head"))
                                (set_control FromExecute st1))
                      (Died (AttributeError "head")) eq_refl eq_refl)
    as [Hte Hse].
  split; [exact Hte |]. by rewrite Hse.
Qed.

(** ** Waiting on the handle of a plan *)

(** Waiting on the handle of a plan does not return while the plan's
    thread runs; nothing is changed by the attempt. *)
Lemma wait_on_plan_blocks (st : robot) (oid : nat) (t : Thread) :
  thread (say_to_plan st) = Some t ->
  ended t = false ->
  Robot_wait [Some (SayToActionHandle oid)] st = (Blocks, st).
Proof.
  intros Ht He.
  unfold Robot_wait, Robot_wait_with, for_each, bind, lift.
  cbn [is_some assert_types wait_for_result].
  unfold SayToPlan_wait, join, bind, plan, get. rewrite Ht.
  by destruct t.
Qed.

(** X28. Once the plan's thread has ended with the speech started, waiting on
    the handle of the plan returns when the speech and the auxiliary
    handles have been waited for, in this order; these handles and then
    the handle of the plan are removed from the outstanding handles.  The
    plan's gaze handle is not waited for. *)
Theorem wait_on_ended_plan (st : robot) (oid : nat) (t : Thread)
        (s : ActionHandle) :
  thread (say_to_plan st) = Some t ->
  ended t = true ->
  say_ah (say_to_plan st) = Some s ->
  is_Some (handle_client s) ->
  Forall (fun h => is_Some (handle_client h)) (other_ahs (say_to_plan st)) ->
  exists st',
    Robot_wait [Some (SayToActionHandle oid)] st = (Ok (), st')
    /\ sent st'
       = (sent st ++ waits (control st) (s :: other_ahs (say_to_plan st)))%list
    /\ action_handles st'
       = remove_first (SayToActionHandle oid)
           (retire (s :: other_ahs (say_to_plan st)) (action_handles st))
    /\ say_to_plan st' = say_to_plan st.
Proof.
  intros Ht He Hs Hc Hothers.
  unfold Robot_wait, Robot_wait_with at 1, for_each, bind at 1 2 3, lift.
  cbn [is_some assert_types wait_for_result].
  unfold SayToPlan_wait, join, bind, plan, get, ret. rewrite Ht.
  assert ((match t with
           | Finished | Died _ => fun st0 : robot => (Ok (), st0)
           | _ => blocks
           end) st = (Ok (), st)) as -> by (by destruct t).
  rewrite Hs. change [Some s] with (Some <$> [s]).
  rewrite wait_clients_state by (by repeat constructor).
  cbn [say_to_plan set_action_handles set_sent].
  rewrite wait_clients_state by done.
  rewrite remove_handle_state.
  eexists. split; [reflexivity |]. cbn.
  unfold waits. cbn [fmap list_fmap]. by rewrite <- app_assoc.
Qed.

(** X29. Once the plan's thread has ended without starting the speech, having
    been preempted or having died, waiting on the handle of the plan
    raises, there being no speech handle to wait for; the handle of the
    plan stays outstanding. *)
Theorem wait_on_silent_plan (st : robot) (oid : nat) (t : Thread) :
  thread (say_to_plan st) = Some t ->
  ended t = true ->
  say_ah (say_to_plan st) = None ->
  exists e, Robot_wait [Some (SayToActionHandle oid)] st = (Raise e, st).
Proof.
  intros Ht He Hs.
  unfold Robot_wait, Robot_wait_with at 1, for_each, bind at 1 2 3, lift.
  cbn [is_some assert_types wait_for_result].
  unfold SayToPlan_wait, join, bind, plan, get, ret. rewrite Ht.
  assert ((match t with
           | Finished | Died _ => fun st0 : robot => (Ok (), st0)
           | _ => blocks
           end) st = (Ok (), st)) as -> by (by destruct t).
  rewrite Hs. cbn. by eexists.
Qed.

End MoreThread.

Module FurtherScenario.

Import Scenario Further.
#[local] Existing Instance decimal.

Lemma speech_handle_client :
  Forall (fun h => is_Some (handle_client h)) [speech_handle].
Proof. repeat constructor. by eexists. Qed.

Lemma cancel_retires_handles_witness :
  exists st',
    Robot_cancel (Some <$> [speech_handle]) spoken = (Ok (), st')
    /\ st' = set_action_handles (retire [speech_handle] (action_handles spoken))
               (set_sent (sent spoken ++ cancels (control spoken) [speech_handle])
                         spoken)
    /\ (NoDup (action_handles spoken) ->
        forall h, h ∈ action_handles st'
                  <-> h ∈ action_handles spoken /\ h ∉ [speech_handle]).
Proof.
  apply (cancel_retires_handles [speech_handle] spoken).
  exact speech_handle_client.
Defined.

Lemma wait_retires_handles_witness :
  exists st',
    Robot_wait (Some <$> [speech_handle]) spoken = (Ok (), st')
    /\ st' = set_action_handles (retire [speech_handle] (action_handles spoken))
               (set_sent (sent spoken ++ waits (control spoken) [speech_handle])
                         spoken)
    /\ (NoDup (action_handles spoken) ->
        forall h, h ∈ action_handles st'
                  <-> h ∈ action_handles spoken /\ h ∉ [speech_handle]).
Proof.
  apply (wait_retires_handles [speech_handle] spoken).
  exact speech_handle_client.
Defined.

Lemma spoken_plan :
  thread (say_to_plan spoken) = Some Finished
  /\ gaze_ah (say_to_plan spoken) = Some gaze_handle
  /\ say_ah (say_to_plan spoken) = Some speech_handle
  /\ other_ahs (say_to_plan spoken) = [].
Proof. vm_compute. by repeat split. Qed.

Lemma spoken_others :
  Forall (fun h => is_Some (handle_client h)) (other_ahs (say_to_plan spoken)).
Proof. destruct spoken_plan as (_ & _ & _ & ->). constructor. Qed.

Lemma plan_cancel_spares_speech_witness :
  exists st',
    SayToPlan_cancel (Some the_robot) spoken = (Ok (), st')
    /\ preempt_requested (say_to_plan st') = true
    /\ sent st'
       = (sent spoken
            ++ cancels (control spoken)
                 ((if is_some (say_ah (say_to_plan spoken))
                   then [gaze_handle] else [])
                    ++ gaze_handle :: other_ahs (say_to_plan spoken)))%list
    /\ action_handles st'
       = retire ((if is_some (say_ah (say_to_plan spoken))
                  then [gaze_handle] else [])
                   ++ gaze_handle :: other_ahs (say_to_plan spoken))
                (action_handles spoken).
Proof.
  apply (plan_cancel_spares_speech spoken gaze_handle).
  - exact (proj1 (proj2 spoken_plan)).
  - by eexists.
  - exact spoken_others.
Defined.

Lemma nobody_spoken_plan :
  thread (say_to_plan nobody_spoken) = Some Finished
  /\ gaze_ah (say_to_plan nobody_spoken) = None
  /\ say_ah (say_to_plan nobody_spoken)
     = Some (SingleGoalActionHandle 1 tts_client).
Proof. vm_compute. by repeat split. Qed.

Lemma plan_cancel_without_gaze_witness :
  exists e,
    SayToPlan_cancel (Some the_robot) nobody_spoken
    = (Raise e,
       set_say_to_plan
         (set_preempt_requested true (say_to_plan nobody_spoken)) nobody_spoken).
Proof.
  apply (plan_cancel_without_gaze nobody_spoken).
  - rewrite (proj2 (proj2 nobody_spoken_plan)). by eexists.
  - exact (proj1 (proj2 nobody_spoken_plan)).
Defined.

Lemma spoken_reachable : reachable spoken.
Proof.
  unfold spoken, greeting, robot0.
  apply reachable_run, reachable_say_to, reachable_new.
Qed.

Lemma handles_stay_distinct_witness :
  NoDup (action_handles spoken)
  /\ NoDup (handle_oid <$> action_handles spoken)
  /\ Forall (fun ah => handle_oid ah < next_oid spoken) (action_handles spoken).
Proof. apply (handles_stay_distinct spoken). exact spoken_reachable. Defined.

Lemma robot0_fresh : handles_fresh robot0.
Proof. split; cbn; constructor. Qed.

Lemma say_done_retires_witness :
  exists ah st1 st2,
    Robot_say "Hello" robot0 = (Ok ah, st1)
    /\ ah ∈ action_handles st1
    /\ say_done st1 = (Ok (), st2)
    /\ action_handles st2 = action_handles robot0
    /\ robot_say_ah st2 = None.
Proof. apply (say_done_retires robot0 "Hello"). exact robot0_fresh. Defined.

Lemma gaze_done_retires_latest_witness :
  exists ha hb st1 st2 st3,
    Robot_gaze P robot0 = (Ok ha, st1)
    /\ Robot_gaze Q st1 = (Ok hb, st2)
    /\ gaze_done st2 = (Ok (), st3)
    /\ action_handles st3 = (action_handles robot0 ++ [ha])%list
    /\ robot_gaze_ah st3 = None.
Proof. apply (gaze_done_retires_latest robot0 P Q). exact robot0_fresh. Defined.

Lemma goal_done_retires_witness :
  goal_done 1 (set_action_handles
                 [SingleGoalActionHandle 0 tts_client;
                  MultiGoalActionHandle 2 gesture_client 1] robot0)
  = (Ok (), set_action_handles
              ([SingleGoalActionHandle 0 tts_client] ++ [])
              (set_action_handles
                 [SingleGoalActionHandle 0 tts_client;
                  MultiGoalActionHandle 2 gesture_client 1] robot0)).
Proof.
  apply (goal_done_retires
           (set_action_handles
              [SingleGoalActionHandle 0 tts_client;
               MultiGoalActionHandle 2 gesture_client 1] robot0)
           [SingleGoalActionHandle 0 tts_client] [] 2 gesture_client 1).
  - reflexivity.
  - repeat constructor. discriminate.
Defined.

Lemma greeting_plan :
  thread (say_to_plan greeting) = Some AtStart
  /\ preempt_requested (say_to_plan greeting) = false
  /\ audience (say_to_plan greeting) = AnEntity P
  /\ sentence (say_to_plan greeting) = "Hello, there".
Proof. vm_compute. by repeat split. Qed.

Lemma thread_gazes_then_speaks_witness :
  let st' := run greeting [Schedule []; Schedule []; Schedule []; Schedule [];
                           Schedule []] in
  thread (say_to_plan st') = Some Finished
  /\ commands st'
     = (commands greeting
          ++ [(FromExecute,
               SendGoal gaze_client
                        (ATargetGoal (mkTargetGoal (get_id P_head) lit_0_5 lit_0_3)));
              (FromExecute,
               SendGoal tts_client
                        (ATextToSpeechGoal
                           (mkTextToSpeechGoal (sentence (say_to_plan greeting)))))])%list
  /\ (exists oid,
        gaze_ah (say_to_plan st') = Some (SingleGoalActionHandle oid gaze_client))
  /\ (exists oid,
        say_ah (say_to_plan st') = Some (SingleGoalActionHandle oid tts_client)).
Proof.
  apply (thread_gazes_then_speaks greeting P P_head [] [] [] [] []).
  - exact (proj1 greeting_plan).
  - exact (proj1 (proj2 greeting_plan)).
  - by rewrite (proj1 (proj2 (proj2 greeting_plan))).
  - reflexivity.
Defined.

Lemma addressed_nobody_plan :
  thread (say_to_plan addressed_nobody) = Some AtStart
  /\ preempt_requested (say_to_plan addressed_nobody) = false
  /\ gaze_ah (say_to_plan addressed_nobody) = None
  /\ audience (say_to_plan addressed_nobody) = AQuery people.
Proof. vm_compute. by repeat split. Qed.

Lemma thread_speaks_to_nobody_witness :
  let st' := run addressed_nobody [Schedule []; Schedule []; Schedule []] in
  thread (say_to_plan st') = Some Finished
  /\ commands st'
     = (commands addressed_nobody
          ++ [(FromExecute,
               SendGoal tts_client
                        (ATextToSpeechGoal
                           (mkTextToSpeechGoal
                              (sentence (say_to_plan addressed_nobody)))))])%list
  /\ gaze_ah (say_to_plan st') = None.
Proof.
  destruct addressed_nobody_plan as (Ht & Hp & Hg & Ha).
  apply (thread_speaks_to_nobody addressed_nobody [] [] []).
  - exact Ht.
  - exact Hp.
  - exact Hg.
  - by rewrite Ha.
  - by rewrite Ha.
Defined.

Lemma addressed_headless_plan :
  thread (say_to_plan addressed_headless) = Some AtStart
  /\ preempt_requested (say_to_plan addressed_headless) = false
  /\ audience (say_to_plan addressed_headless) = AnEntity Q.
Proof. vm_compute. by repeat split. Qed.

Lemma thread_dies_without_head_witness :
  let st' := run addressed_headless (Schedule <$> [[]; []; []]) in
  thread (say_to_plan st') = Some (Died (AttributeError "head"))
  /\ sent st' = sent addressed_headless.
Proof.
  destruct addressed_headless_plan as (Ht & Hp & Ha).
  apply (thread_dies_without_head addressed_headless Q [] [] [[]]).
  - exact Ht.
  - exact Hp.
  - by rewrite Ha.
  - reflexivity.
Defined.

Lemma wait_on_ended_plan_witness :
  exists st',
    Robot_wait [Some (SayToActionHandle 0)] spoken = (Ok (), st')
    /\ sent st'
       = (sent spoken
            ++ waits (control spoken)
                 (speech_handle :: other_ahs (say_to_plan spoken)))%list
    /\ action_handles st'
       = remove_first (SayToActionHandle 0)
           (retire (speech_handle :: other_ahs (say_to_plan spoken))
                   (action_handles spoken))
    /\ say_to_plan st' = say_to_plan spoken.
Proof.
  apply (wait_on_ended_plan spoken 0 Finished speech_handle).
  - exact (proj1 spoken_plan).
  - reflexivity.
  - exact (proj1 (proj2 (proj2 spoken_plan))).
  - by eexists.
  - exact spoken_others.
Defined.

Lemma preempted_early_plan :
  thread (say_to_plan preempted_early) = Some Finished
  /\ say_ah (say_to_plan preempted_early) = None.
Proof. vm_compute. by repeat split. Qed.

Lemma wait_on_silent_plan_witness :
  exists e,
    Robot_wait [Some (SayToActionHandle 0)] preempted_early
    = (Raise e, preempted_early).
Proof.
  apply (wait_on_silent_plan preempted_early 0 Finished).
  - exact (proj1 preempted_early_plan).
  - reflexivity.
  - exact (proj2 preempted_early_plan).
Defined.

End FurtherScenario.

(** ** Feedback ticks at gaze-change locations *)
Section MoreFeedback.

Context {float : Type} {PF : PyFloat float}.

Lemma regaze_state (st : @Robot float) (person h : Entity) :
  head person = Some h ->
  exists st',
    regaze person st = (Ok (), st')
    /\ commands st'
       = (commands st
            ++ [(control st,
                 SendGoal gaze_client
                          (ATargetGoal
                             (mkTargetGoal (get_id h) lit_0_5 lit_0_3)))])%list
    /\ current_gazee (say_to_plan st') = Some person
    /\ gaze_ah (say_to_plan st')
       = Some (SingleGoalActionHandle (next_oid st) gaze_client)
    /\ expression_lookup (say_to_plan st') = expression_lookup (say_to_plan st)
    /\ gesture_lookup (say_to_plan st') = gesture_lookup (say_to_plan st)
    /\ preempt_requested (say_to_plan st')
       = preempt_requested (say_to_plan st).
Proof.
  intros Hh. unfold regaze, gaze_at_head, modify_plan, modify, bind.
  rewrite Hh.
  destruct (Robot_gaze_state h
              (set_say_to_plan
                 (set_current_gazee (Some person) (say_to_plan st)) st))
    as (w' & st1 & _ & -> & _ & _ & _ & Hplan & _ & _ & _ & Hcmd).
  eexists. split; [reflexivity |]. cbn -[commands].
  rewrite Hplan. cbn -[commands]. split; [exact Hcmd | done].
Qed.

(** X30. A feedback tick at a gaze-change location that has no entry in
    the tables turns the gaze whether or not preemption is requested.  For
    an entity audience it sends a gaze goal for the head of that same
    entity; for a query, for the head of the person drawn among several
    people returned or of the only person returned; the plan records the
    person and the new gaze handle.  When the query returns nobody, and
    for an audience that is a list, the tick changes nothing. *)
Theorem feedback_turns_gaze (st : @Robot float) (fb : Feedback)
        (people : list Entity) (pick : nat) :
  is_Some (gaze_change_locations (say_to_plan st) !! current_word_index fb) ->
  expression_lookup (say_to_plan st) !! current_word_index fb = None ->
  gesture_lookup (say_to_plan st) !! current_word_index fb = None ->
  match gazee (audience (say_to_plan st)) people pick with
  | Some person =>
      forall h, head person = Some h ->
      exists st',
        say_feedback fb people pick st = (Ok (), st')
        /\ commands st'
           = (commands st
                ++ [(control st,
                     SendGoal gaze_client
                              (ATargetGoal
                                 (mkTargetGoal (get_id h) lit_0_5 lit_0_3)))])%list
        /\ current_gazee (say_to_plan st') = Some person
        /\ gaze_ah (say_to_plan st')
           = Some (SingleGoalActionHandle (next_oid st) gaze_client)
        /\ preempt_requested (say_to_plan st')
           = preempt_requested (say_to_plan st)
  | None => say_feedback fb people pick st = (Ok (), st)
  end.
Proof.
  intros [x Hloc] Hexp Hges.
  unfold say_feedback, bind, plan, get, ret.
  rewrite Hloc. cbn [is_some].
  destruct (audience (say_to_plan st)) as [|person|q|l]; cbn [gazee].
  - rewrite Hexp. cbn [is_some]. cbv beta iota. by rewrite Hges.
  - intros h Hh.
    destruct (regaze_state st person h Hh)
      as (st1 & H1 & Hc & Hg & Ha & He & Hgs & Hp).
    exists st1. rewrite H1. cbv beta iota. rewrite He, Hexp. cbn [is_some].
        cbv beta iota. rewrite Hgs, Hges. done.
  - destruct (1 <? length people)%nat.
    + destruct (choice people pick) as [person|].
      * intros h Hh.
        destruct (regaze_state st person h Hh)
          as (st1 & H1 & Hc & Hg & Ha & He & Hgs & Hp).
        exists st1. rewrite H1. cbv beta iota. rewrite He, Hexp. cbn [is_some].
        cbv beta iota. rewrite Hgs, Hges. done.
      * rewrite Hexp. cbn [is_some]. cbv beta iota. by rewrite Hges.
    + destruct people as [|person [|]].
      * rewrite Hexp. cbn [is_some]. cbv beta iota. by rewrite Hges.
      * intros h Hh.
        destruct (regaze_state st person h Hh)
          as (st1 & H1 & Hc & Hg & Ha & He & Hgs & Hp).
        exists st1. rewrite H1. cbv beta iota. rewrite He, Hexp. cbn [is_some].
        cbv beta iota. rewrite Hgs, Hges. done.
      * rewrite Hexp. cbn [is_some]. cbv beta iota. by rewrite Hges.
  - rewrite Hexp. cbn [is_some]. cbv beta iota. by rewrite Hges.
Qed.

End MoreFeedback.

Module FeedbackGazeScenario.

Import Scenario.
#[local] Existing Instance decimal.

Lemma spoken_tables :
  is_Some (gaze_change_locations (say_to_plan spoken) !! 2)
  /\ expression_lookup (say_to_plan spoken) !! 2 = None
  /\ gesture_lookup (say_to_plan spoken) !! 2 = None
  /\ audience (say_to_plan spoken) = AnEntity P.
Proof. vm_compute. split; [by eexists | done]. Qed.

Lemma feedback_turns_gaze_witness :
  exists st',
    say_feedback (mkFeedback 2 None) [] 0 spoken = (Ok (), st')
    /\ commands st'
       = (commands spoken
            ++ [(control spoken,
                 SendGoal gaze_client
                          (ATargetGoal
                             (mkTargetGoal (get_id P_head) lit_0_5 lit_0_3)))])%list
    /\ current_gazee (say_to_plan st') = Some P
    /\ gaze_ah (say_to_plan st')
       = Some (SingleGoalActionHandle (next_oid spoken) gaze_client)
    /\ preempt_requested (say_to_plan st')
       = preempt_requested (say_to_plan spoken).
Proof.
  destruct spoken_tables as (Hloc & Hexp & Hges & Haud).
  pose proof (feedback_turns_gaze spoken (mkFeedback 2 None) [] 0
                Hloc Hexp Hges) as H.
  rewrite Haud in H. exact (H P_head eq_refl).
Defined.

End FeedbackGazeScenario.
